(** * The watcher scheduler of src/core/observer/scheduler.js

    A shallow embedding of the scheduler module.  Its module-level
    variables become one [State] record that every function threads
    explicitly, and a thrown exception becomes the [Thrown] outcome.

    The code that the scheduler calls and that may call it back (a
    watcher's [run] and [before], an after-flush callback, a wrapped
    getter) is a script of calls to the module's exported functions, looked
    up in a [World]; running a script needs fuel, since a flush need not
    terminate.  The collaborators that the scheduler only notifies
    ([warn], [handleError], [nextTick], [callHook], [activateChildComponent],
    [devtools.emit]) are recorded as events of a trace, in the order called;
    they do not call back here. *)

From Stdlib Require Import ZArith Lia Sorted Permutation.
From stdpp Require Import base decidable option list sorting gmap strings.

(** ** Data *)

(** [export const MAX_UPDATE_COUNT = 100] *)
Definition MAX_UPDATE_COUNT : Z := 100%Z.

(** A component instance is a heap object; we name it by its address. *)
Definition Component := nat.

(** A function object (an after-flush callback, a getter), by address. *)
Definition Fn := nat.

(** The fields of a [Watcher] that the scheduler reads.  [ref] stands for
    the identity of the object: [===] on watchers is equality of records. *)
Record Watcher := mkWatcher {
  id : Z;
  ref : nat;
  vm : Component;
  user : bool;
  expression : string
}.

Global Instance Watcher_eq_dec : EqDecision Watcher.
Proof. solve_decision. Defined.

(** The fields of a component instance that the scheduler reads or writes. *)
Record VM := mkVM {
  _watcher : option Watcher;
  _isMounted : bool;
  _isDestroyed : bool;
  _inactive : bool
}.

(** A component the heap does not mention has all its fields undefined. *)
Definition blank_vm : VM := mkVM None false false false.

Definition set_inactive (b : bool) (v : VM) : VM :=
  mkVM (_watcher v) (_isMounted v) (_isDestroyed v) b.

(** A value of the [has] object: [true], or [null] once the flush has
    cleared the entry.  A missing key reads as [undefined]. *)
Inductive mark := MTrue | MNull.

(** [x == null], true of [null] and of [undefined]. *)
Definition is_nullish (o : option mark) : bool :=
  match o with
  | Some MTrue => false
  | _ => true
  end.

(** What the code outside the module may do to it: the exported functions,
    a throw, and a write to a component's fields. *)
Inductive cmd :=
| CQueueWatcher (w : Watcher)
| CAfterFlush (f : Fn)
| CQueueActivatedComponent (c : Component)
| CForceFlush (maxUpdateCount : option Z)
| CCallWrapped (f : Fn)
| CSetVM (c : Component) (v : VM)
| CThrow (e : string).

(** The calls the module makes to its collaborators, in the order made. *)
Inductive event :=
| EvBefore (w : Watcher)
| EvRun (w : Watcher)
| EvCallback (f : Fn)
| EvWarn (msg : string) (c : Component)
| EvHandleError (e : string) (info : string)
| EvActivate (c : Component) (direct : bool)
| EvUpdated (c : Component)
| EvNextTick
| EvDevtoolsFlush.

Global Instance event_eq_dec : EqDecision event.
Proof. solve_decision. Defined.

Inductive outcome :=
| Returned
| Thrown (e : string).

(** The module-level variables, the component heap [vms], the state [ext]
    of the surrounding program, and the trace [log] of collaborator calls. *)
Record State {Ext : Type} := mkState {
  queue : list Watcher;
  activatedChildren : list Component;
  has : gmap Z mark;
  circular : gmap Z Z;
  waiting : bool;
  flushing : bool;
  insideRun : bool;
  index : nat;
  afterFlushCallbacks : list Fn;
  currentFlushTimestamp : Z;
  vms : gmap Component VM;
  ext : Ext;
  log : list event
}.
Arguments State : clear implicits.

(** The body of a function of the surrounding program: it reads and updates
    the program's own state and calls into the scheduler. *)
Definition Script (Ext : Type) : Type := Ext -> Ext * list cmd.

(** The build, the configuration and the surrounding program. *)
Record World {Ext : Type} := mkWorld {
  production : bool;
  config_async : bool;
  devtools_enabled : bool;
  getNow : Ext -> Z;
  watcher_before : Watcher -> option (Script Ext);
  watcher_run : Watcher -> Script Ext;
  fn_body : Fn -> Script Ext
}.
Arguments World : clear implicits.

Section Fields.
Context {Ext : Type}.
Implicit Type s : State Ext.

Definition set_queue (q : list Watcher) s : State Ext :=
  mkState Ext q (activatedChildren s) (has s) (circular s) (waiting s)
    (flushing s) (insideRun s) (index s) (afterFlushCallbacks s)
    (currentFlushTimestamp s) (vms s) (ext s) (log s).

Definition set_activatedChildren (a : list Component) s : State Ext :=
  mkState Ext (queue s) a (has s) (circular s) (waiting s)
    (flushing s) (insideRun s) (index s) (afterFlushCallbacks s)
    (currentFlushTimestamp s) (vms s) (ext s) (log s).

Definition set_has (h : gmap Z mark) s : State Ext :=
  mkState Ext (queue s) (activatedChildren s) h (circular s) (waiting s)
    (flushing s) (insideRun s) (index s) (afterFlushCallbacks s)
    (currentFlushTimestamp s) (vms s) (ext s) (log s).

Definition set_circular (c : gmap Z Z) s : State Ext :=
  mkState Ext (queue s) (activatedChildren s) (has s) c (waiting s)
    (flushing s) (insideRun s) (index s) (afterFlushCallbacks s)
    (currentFlushTimestamp s) (vms s) (ext s) (log s).

Definition set_waiting (b : bool) s : State Ext :=
  mkState Ext (queue s) (activatedChildren s) (has s) (circular s) b
    (flushing s) (insideRun s) (index s) (afterFlushCallbacks s)
    (currentFlushTimestamp s) (vms s) (ext s) (log s).

Definition set_flushing (b : bool) s : State Ext :=
  mkState Ext (queue s) (activatedChildren s) (has s) (circular s) (waiting s)
    b (insideRun s) (index s) (afterFlushCallbacks s)
    (currentFlushTimestamp s) (vms s) (ext s) (log s).

Definition set_insideRun (b : bool) s : State Ext :=
  mkState Ext (queue s) (activatedChildren s) (has s) (circular s) (waiting s)
    (flushing s) b (index s) (afterFlushCallbacks s)
    (currentFlushTimestamp s) (vms s) (ext s) (log s).

Definition set_index (i : nat) s : State Ext :=
  mkState Ext (queue s) (activatedChildren s) (has s) (circular s) (waiting s)
    (flushing s) (insideRun s) i (afterFlushCallbacks s)
    (currentFlushTimestamp s) (vms s) (ext s) (log s).

Definition set_afterFlushCallbacks (l : list Fn) s : State Ext :=
  mkState Ext (queue s) (activatedChildren s) (has s) (circular s) (waiting s)
    (flushing s) (insideRun s) (index s) l
    (currentFlushTimestamp s) (vms s) (ext s) (log s).

Definition set_currentFlushTimestamp (t : Z) s : State Ext :=
  mkState Ext (queue s) (activatedChildren s) (has s) (circular s) (waiting s)
    (flushing s) (insideRun s) (index s) (afterFlushCallbacks s)
    t (vms s) (ext s) (log s).

Definition set_vms (m : gmap Component VM) s : State Ext :=
  mkState Ext (queue s) (activatedChildren s) (has s) (circular s) (waiting s)
    (flushing s) (insideRun s) (index s) (afterFlushCallbacks s)
    (currentFlushTimestamp s) m (ext s) (log s).

Definition set_ext (e : Ext) s : State Ext :=
  mkState Ext (queue s) (activatedChildren s) (has s) (circular s) (waiting s)
    (flushing s) (insideRun s) (index s) (afterFlushCallbacks s)
    (currentFlushTimestamp s) (vms s) e (log s).

(** A call to a collaborator is appended to the trace. *)
Definition emit (e : event) s : State Ext :=
  mkState Ext (queue s) (activatedChildren s) (has s) (circular s) (waiting s)
    (flushing s) (insideRun s) (index s) (afterFlushCallbacks s)
    (currentFlushTimestamp s) (vms s) (ext s) (log s ++ [e]).

(** Reading and writing a component through its address. *)
Definition vm_of s (c : Component) : VM := default blank_vm (vms s !! c).

Definition set_vm (c : Component) (v : VM) s : State Ext :=
  set_vms (<[c := v]> (vms s)) s.
End Fields.

(** ** The scheduler *)

(** The double-quote character of the warning text. *)
Definition dquote : string := String (Ascii.ascii_of_nat 34) EmptyString.

(** The text passed to [warn] on a suspected infinite update loop. *)
Definition loop_warning (watcher : Watcher) : string :=
  ("You may have an infinite update loop " ++
   (if user watcher
    then "in watcher with expression " ++ dquote ++ expression watcher ++ dquote
    else "in a component render function."))%string.

(** The messages of the errors the module throws or reports. *)
Definition already_flushing : string := "Cannot flush while already flushing."%string.
Definition running_a_watcher : string := "Cannot flush while running a watcher."%string.
Definition callback_error_info : string := "Error in an after flush callback."%string.
Definition undefined_watcher : string :=
  "TypeError: Cannot read property 'vm' of undefined"%string.

(** [queue.sort((a, b) => a.id - b.id)]: the stable sort by ascending id,
    written as an insertion sort. *)
Fixpoint insert_by_id (w : Watcher) (l : list Watcher) : list Watcher :=
  match l with
  | [] => [w]
  | x :: l' => if (id w <=? id x)%Z then w :: l else x :: insert_by_id w l'
  end.

Definition sort_queue (l : list Watcher) : list Watcher :=
  foldr insert_by_id [] l.

(** The backward scan of [queueWatcher]:
    [let i = queue.length - 1; while (i > index && queue[i].id > id) i--],
    given [n = i + 1] and returning [i + 1], the position at which the
    watcher is spliced in.  ([n = 0] is [i = -1], where the loop stops.) *)
Fixpoint splice_position (q : list Watcher) (index : nat) (wid : Z) (n : nat) : nat :=
  match n with
  | 0 => 0
  | S i =>
      if (index <? i)%nat &&
         (match q !! i with Some x => (wid <? id x)%Z | None => false end)
      then splice_position q index wid i
      else S i
  end.

(** [queue.splice(p, 0, watcher)] *)
Definition splice_in (p : nat) (w : Watcher) (q : list Watcher) : list Watcher :=
  take p q ++ w :: drop p q.

(** [maxUpdateCount || MAX_UPDATE_COUNT]: a missing argument and [0] are
    falsy. *)
Definition effective_limit (maxUpdateCount : option Z) : Z :=
  match maxUpdateCount with
  | None => MAX_UPDATE_COUNT
  | Some m => if (m =? 0)%Z then MAX_UPDATE_COUNT else m
  end.

(** The test of [callUpdatedHooks]:
    [vm._watcher === watcher && vm._isMounted && !vm._isDestroyed]. *)
Definition live {Ext : Type} (s : State Ext) (watcher : Watcher) : bool :=
  let vm := vm_of s (vm watcher) in
  bool_decide (_watcher vm = Some watcher) && _isMounted vm && negb (_isDestroyed vm).

Section Scheduler.
Context {Ext : Type} (W : World Ext).

Definition Result : Type := option (outcome * State Ext).

Implicit Type s : State Ext.

(** [resetSchedulerState] *)
Definition resetSchedulerState s : State Ext :=
  let s1 :=
    if decide (index s = length (queue s))
    then set_activatedChildren [] (set_queue [] (set_index 0 s))
    else set_activatedChildren []
           (set_index 0 (set_queue (drop (index s) (queue s)) s)) in
  let s2 := set_has ∅ s1 in
  let s3 := if production W then s2 else set_circular ∅ s2 in
  set_flushing false (set_waiting false s3).

(** [callUpdatedHooks(queue, endIndex)], the loop [while (i--)].  Reading
    [watcher.vm] of an index past the end is a TypeError. *)
Fixpoint callUpdatedHooks (q : list Watcher) (i : nat) s : outcome * State Ext :=
  match i with
  | 0 => (Returned, s)
  | S i' =>
      match q !! i' with
      | None => (Thrown undefined_watcher, s)
      | Some watcher =>
          if live s watcher
          then callUpdatedHooks q i' (emit (EvUpdated (vm watcher)) s)
          else callUpdatedHooks q i' s
      end
  end.

(** [callActivatedHooks(queue)] *)
Definition callActivatedHooks (q : list Component) s : State Ext :=
  foldl (fun s c =>
           emit (EvActivate c true) (set_vm c (set_inactive true (vm_of s c)) s))
        s q.

(** [queueActivatedComponent(vm)] *)
Definition queueActivatedComponent (c : Component) s : State Ext :=
  let s1 := set_vm c (set_inactive false (vm_of s c)) s in
  set_activatedChildren (activatedChildren s1 ++ [c]) s1.

(** [isFlushing()] *)
Definition isFlushing s : bool := flushing s.

(** The [finally] block of [flushSchedulerQueue].  The hooks that it calls
    after [resetSchedulerState] ([activateChildComponent], [callHook]) are
    collaborators from outside the module: each call is recorded in the
    trace, and what a hook does, calls back into the scheduler included,
    is not modelled. *)
Definition flush_finally s : outcome * State Ext :=
  let activatedQueue := activatedChildren s in
  let updatedQueue := queue s in
  let endIndex := index s in
  let s1 := resetSchedulerState s in
  let s2 := callActivatedHooks activatedQueue s1 in
  match callUpdatedHooks updatedQueue endIndex s2 with
  | (Returned, s3) =>
      (Returned, if devtools_enabled W then emit EvDevtoolsFlush s3 else s3)
  | r => r
  end.

(** The statements of [flushSchedulerQueue] between the guards and the
    loop: the timestamp, the flag, the sort and the cursor. *)
Definition flush_begin s : State Ext :=
  let s1 := set_currentFlushTimestamp (getNow W (ext s)) s in
  let s2 := set_flushing true s1 in
  let s3 := set_queue (sort_queue (queue s2)) s2 in
  set_index 0 s3.

(** The functions below call back into the surrounding program; [run]
    executes a script of it. *)
Section Open.
Variable run : list cmd -> State Ext -> Result.

(** Calling a function of the surrounding program. *)
Definition invoke (f : Script Ext) s : Result :=
  let '(e, cs) := f (ext s) in run cs (set_ext e s).

(** [if (watcher.before) watcher.before()] *)
Definition call_before (watcher : Watcher) s : Result :=
  match watcher_before W watcher with
  | None => Some (Returned, s)
  | Some f => invoke f (emit (EvBefore watcher) s)
  end.

(** The loop [for (; index < queue.length; index++)] of
    [flushSchedulerQueue]; [n] bounds the number of iterations. *)
Fixpoint scan (n : nat) (maxUpdateCount : Z) s : Result :=
  match n with
  | 0 => None
  | S n' =>
      match queue s !! index s with
      | None => Some (Returned, s)
      | Some watcher =>
          match call_before watcher s with
          | Some (Returned, s1) =>
              let id := id watcher in
              let s2 := set_has (<[id := MNull]> (has s1)) s1 in
              match invoke (watcher_run W watcher) (emit (EvRun watcher) s2) with
              | Some (Returned, s3) =>
                  if negb (production W) && negb (is_nullish (has s3 !! id))
                  then
                    let c := (default 0 (circular s3 !! id) + 1)%Z in
                    let s4 := set_circular (<[id := c]> (circular s3)) s3 in
                    if (maxUpdateCount <? c)%Z
                    then
                      let s5 := emit (EvWarn (loop_warning watcher) (vm watcher)) s4 in
                      Some (Returned, set_index (length (queue s5)) s5)
                    else scan n' maxUpdateCount (set_index (S (index s4)) s4)
                  else scan n' maxUpdateCount (set_index (S (index s3)) s3)
              | r => r
              end
          | r => r
          end
      end
  end.

(** The loop [while (queue.length - index || afterFlushCallbacks.length)]. *)
Fixpoint drain (n : nat) (maxUpdateCount : Z) s : Result :=
  match n with
  | 0 => None
  | S n' =>
      if bool_decide (length (queue s) ≠ index s)
         || bool_decide (afterFlushCallbacks s ≠ [])
      then
        match scan n' maxUpdateCount s with
        | Some (Returned, s1) =>
            match afterFlushCallbacks s1 with
            | [] => drain n' maxUpdateCount s1
            | func :: rest =>
                let s2 := emit (EvCallback func) (set_afterFlushCallbacks rest s1) in
                match invoke (fn_body W func) s2 with
                | Some (Returned, s3) => drain n' maxUpdateCount s3
                | Some (Thrown e, s3) =>
                    drain n' maxUpdateCount
                      (emit (EvHandleError e callback_error_info) s3)
                | None => None
                end
            end
        | r => r
        end
      else Some (Returned, s)
  end.

(** The [try ... finally] statement of [flushSchedulerQueue]: an
    exception that leaves the loop leaves the function as well, after
    the [finally] block has run. *)
Definition flush_protected (n : nat) (maxUpdateCount : option Z) s : Result :=
  match drain n (effective_limit maxUpdateCount) (flush_begin s) with
  | None => None
  | Some (o, s1) =>
      match flush_finally s1 with
      | (Returned, s2) => Some (o, s2)
      | r => Some r
      end
  end.

(** [flushSchedulerQueue(maxUpdateCount)] *)
Definition flushSchedulerQueue (n : nat) (maxUpdateCount : option Z) s : Result :=
  if flushing s then Some (Thrown already_flushing, s)
  else if insideRun s then Some (Thrown running_a_watcher, s)
  else flush_protected n maxUpdateCount s.

(** [requireFlush()] *)
Definition requireFlush (n : nat) s : Result :=
  if waiting s then Some (Returned, s)
  else
    let s1 := set_waiting true s in
    if negb (production W) && negb (config_async W)
    then flushSchedulerQueue n None s1
    else Some (Returned, emit EvNextTick s1).

(** [queueWatcher(watcher)] *)
Definition queueWatcher (n : nat) (watcher : Watcher) s : Result :=
  let id := id watcher in
  if is_nullish (has s !! id) then
    let s1 := set_has (<[id := MTrue]> (has s)) s in
    let s2 :=
      if flushing s1
      then
        let p := splice_position (queue s1) (index s1) id (length (queue s1)) in
        set_queue (splice_in p watcher (queue s1)) s1
      else set_queue (queue s1 ++ [watcher]) s1 in
    requireFlush n s2
  else Some (Returned, s).

(** [afterFlush(f)] *)
Definition afterFlush (n : nat) (f : Fn) s : Result :=
  requireFlush n (set_afterFlushCallbacks (afterFlushCallbacks s ++ [f]) s).

(** [forceFlush(maxUpdateCount)] *)
Definition forceFlush (n : nat) (maxUpdateCount : option Z) s : Result :=
  flushSchedulerQueue n maxUpdateCount s.

(** Calling the function that [wrapWatcherGetter(f)] returns. *)
Definition wrapWatcherGetter (f : Fn) s : Result :=
  let previousInsideRun := insideRun s in
  match invoke (fn_body W f) (set_insideRun true s) with
  | Some (o, s') => Some (o, set_insideRun previousInsideRun s')
  | None => None
  end.

(** One call from the surrounding program. *)
Definition exec_cmd (n : nat) (c : cmd) s : Result :=
  match c with
  | CQueueWatcher w => queueWatcher n w s
  | CAfterFlush f => afterFlush n f s
  | CQueueActivatedComponent c => Some (Returned, queueActivatedComponent c s)
  | CForceFlush m => forceFlush n m s
  | CCallWrapped f => wrapWatcherGetter f s
  | CSetVM c v => Some (Returned, set_vm c v s)
  | CThrow e => Some (Thrown e, s)
  end.
End Open.

(** Running a script: its calls in order, up to the first that throws.
    [fuel] bounds the depth of calls and the length of every loop; [None]
    says that the bound was reached. *)
Fixpoint exec (fuel : nat) (cs : list cmd) s : Result :=
  match fuel with
  | 0 => None
  | S n =>
      match cs with
      | [] => Some (Returned, s)
      | c :: cs' =>
          match exec_cmd (exec n) n c s with
          | Some (Returned, s') => exec n cs' s'
          | r => r
          end
      end
  end.
End Scheduler.
Arguments Result : clear implicits.

(** ** Notions used by the statements *)

(** Ascending order of ids. *)
Definition ascending (l : list Watcher) : Prop :=
  StronglySorted (fun a b => (id a <= id b)%Z) l.

(** The [run] events of a trace, in order. *)
Definition runs (l : list event) : list Watcher :=
  omap (fun e => match e with EvRun w => Some w | _ => None end) l.

(** The warnings of a trace. *)
Definition warnings (l : list event) : list (string * Component) :=
  omap (fun e => match e with EvWarn m c => Some (m, c) | _ => None end) l.

(** What a call from the surrounding program can change while a flush is
    active: it may grow the queue behind the cursor, but it runs no watcher
    and moves no cursor. *)
Record nested {Ext : Type} (s s' : State Ext) : Prop := mkNested {
  nested_flushing : flushing s' = flushing s;
  nested_index : index s' = index s;
  nested_insideRun : insideRun s' = insideRun s;
  nested_circular : circular s' = circular s;
  nested_length : (length (queue s) <= length (queue s'))%nat;
  nested_lookup : forall i w, (i <= index s)%nat ->
      queue s !! i = Some w -> queue s' !! i = Some w;
  nested_log : exists l, log s' = log s ++ l /\ runs l = [] /\ warnings l = []
}.

(** Since the trace [l0] at the start of the flush, and as long as no loop
    warning was given, the watchers run are the entries before the cursor;
    when a watcher has thrown, it may be the entry at the cursor as well. *)
Definition tracked {Ext : Type} (l0 : list event) (o : outcome) (s : State Ext) : Prop :=
  exists l, log s = l0 ++ l /\
    (warnings l = [] ->
     match o with
     | Returned => runs l = take (index s) (queue s)
     | Thrown _ =>
         runs l = take (index s) (queue s) \/
         (runs l = take (S (index s)) (queue s) /\ (index s < length (queue s))%nat)
     end).

Record flush_inv {Ext : Type} (l0 : list event) (o : outcome) (s : State Ext) : Prop :=
  mkFlushInv {
    inv_flushing : flushing s = true;
    inv_insideRun : insideRun s = false;
    inv_index : (index s <= length (queue s))%nat;
    inv_tracked : tracked l0 o s
  }.

(** Appending several collaborator calls to the trace. *)
Definition emit_all {Ext : Type} (l : list event) (s : State Ext) : State Ext :=
  mkState Ext (queue s) (activatedChildren s) (has s) (circular s) (waiting s)
    (flushing s) (insideRun s) (index s) (afterFlushCallbacks s)
    (currentFlushTimestamp s) (vms s) (ext s) (log s ++ l).

(** The [updated] hooks for the first [i] entries of [q], last entry first. *)
Definition updated_events {Ext : Type} (s : State Ext) (q : list Watcher) (i : nat)
  : list event :=
  (fun w => EvUpdated (vm w)) <$> filter (fun w => live s w) (reverse (take i q)).

Definition activated_events (q : list Component) : list event :=
  (fun c => EvActivate c true) <$> q.

(** The callbacks called, the errors passed to [handleError], and the
    components given the activated hook, in a trace. *)
Definition callbacks (l : list event) : list Fn :=
  omap (fun e => match e with EvCallback f => Some f | _ => None end) l.

Definition reported (l : list event) : list (string * string) :=
  omap (fun e => match e with EvHandleError e i => Some (e, i) | _ => None end) l.

Definition activations (l : list event) : list Component :=
  omap (fun e => match e with EvActivate c _ => Some c | _ => None end) l.

(** What a call from the surrounding program keeps or grows while a flush
    is active, besides [nested]: the timestamp stays, the activated queue
    and the callback list grow at their ends, the queue loses no entry, and
    the only collaborator called is [nextTick]. *)
Record steady {Ext : Type} (s s' : State Ext) : Prop := mkSteady {
  steady_timestamp : currentFlushTimestamp s' = currentFlushTimestamp s;
  steady_activated : activatedChildren s `prefix_of` activatedChildren s';
  steady_queue : queue s `sublist_of` queue s';
  steady_callbacks : afterFlushCallbacks s `prefix_of` afterFlushCallbacks s';
  steady_log : exists l, log s' = log s ++ l /\ Forall (fun e => e = EvNextTick) l
}.

(** What the loops of a flush keep besides [flush_inv].  Every callback
    that was pending, or was registered meanwhile, has been called or is
    still pending, in the order registered; no activated hook is called; a
    production build gives no warning; and when an exception leaves the
    loops, the cursor is on an entry of the queue. *)
Record kept {Ext : Type} (W : World Ext) (o : outcome) (s s' : State Ext) : Prop :=
  mkKept {
    kept_flushing : flushing s' = true;
    kept_timestamp : currentFlushTimestamp s' = currentFlushTimestamp s;
    kept_activated : activatedChildren s `prefix_of` activatedChildren s';
    kept_queue : queue s `sublist_of` queue s';
    kept_log : exists l extra,
      log s' = log s ++ l /\ activations l = [] /\
      callbacks l ++ afterFlushCallbacks s' = afterFlushCallbacks s ++ extra /\
      (production W = true -> warnings l = []);
    kept_cursor : o <> Returned -> is_Some (queue s' !! index s')
  }.

(** A call that neither queues a watcher or a callback, nor flushes, nor
    throws. *)
Definition quiet_cmd (c : cmd) : bool :=
  match c with
  | CQueueActivatedComponent _ | CSetVM _ _ => true
  | _ => false
  end.

Definition quiet_script {Ext : Type} (f : Script Ext) : Prop :=
  forall e, Forall (fun c => quiet_cmd c = true) (f e).2.

(** A watcher whose [before] and [run] make quiet calls only. *)
Definition quiet_watcher {Ext : Type} (W : World Ext) (w : Watcher) : Prop :=
  quiet_script (watcher_run W w) /\
  match watcher_before W w with
  | Some f => quiet_script f
  | None => True
  end.

Definition quiet_fn {Ext : Type} (W : World Ext) (f : Fn) : Prop :=
  quiet_script (fn_body W f).

(** What a quiet script leaves as it is: everything but the activated
    queue, the component heap and the program's own state. *)
Record calm {Ext : Type} (s s' : State Ext) : Prop := mkCalm {
  calm_queue : queue s' = queue s;
  calm_has : has s' = has s;
  calm_circular : circular s' = circular s;
  calm_waiting : waiting s' = waiting s;
  calm_flushing : flushing s' = flushing s;
  calm_insideRun : insideRun s' = insideRun s;
  calm_index : index s' = index s;
  calm_callbacks : afterFlushCallbacks s' = afterFlushCallbacks s;
  calm_log : log s' = log s
}.

(** A call of [queueWatcher], [afterFlush] or [queueActivatedComponent],
    or a write to a component. *)
Definition enqueue_only (c : cmd) : bool :=
  match c with
  | CQueueWatcher _ | CAfterFlush _ | CQueueActivatedComponent _ | CSetVM _ _ => true
  | _ => false
  end.

(** Calls that hand work to the flush without queueing a watcher. *)
Definition posting_cmd (c : cmd) : bool :=
  match c with
  | CAfterFlush _ | CQueueActivatedComponent _ | CSetVM _ _ => true
  | _ => false
  end.

(** Calls that register nothing and queue no watcher, and throws. *)
Definition plain_cmd (c : cmd) : bool :=
  match c with
  | CQueueActivatedComponent _ | CSetVM _ _ | CThrow _ => true
  | _ => false
  end.

(** The callbacks that a list of calls registers, and the components it
    queues for activation. *)
Definition registered (cs : list cmd) : list Fn :=
  omap (fun c => match c with CAfterFlush f => Some f | _ => None end) cs.

Definition activated (cs : list cmd) : list Component :=
  omap (fun c => match c with CQueueActivatedComponent c => Some c | _ => None end) cs.

(** The calls that a script makes before its first throw, and what it
    throws. *)
Fixpoint performed (cs : list cmd) : list cmd :=
  match cs with
  | [] => []
  | CThrow _ :: _ => []
  | c :: cs' => c :: performed cs'
  end.

Fixpoint thrown (cs : list cmd) : option string :=
  match cs with
  | [] => None
  | CThrow e :: _ => Some e
  | _ :: cs' => thrown cs'
  end.

(** How a script of such calls ends. *)
Definition ending (cs : list cmd) : outcome :=
  match thrown cs with
  | Some e => Thrown e
  | None => Returned
  end.

(** What the flush adds to the trace when it calls the callback [f] whose
    body makes the calls [cs]. *)
Definition callback_events (f : Fn) (cs : list cmd) : list event :=
  EvCallback f ::
  match thrown cs with
  | Some e => [EvHandleError e callback_error_info]
  | None => []
  end.

(** What the calls [cs] of a script leave behind when a flush is pending:
    the callbacks and the components are appended, nothing else of the
    scheduler changes. *)
Record posted {Ext : Type} (cs : list cmd) (s s' : State Ext) : Prop := mkPosted {
  posted_queue : queue s' = queue s;
  posted_has : has s' = has s;
  posted_waiting : waiting s' = waiting s;
  posted_flushing : flushing s' = flushing s;
  posted_insideRun : insideRun s' = insideRun s;
  posted_index : index s' = index s;
  posted_log : log s' = log s;
  posted_callbacks : afterFlushCallbacks s' = afterFlushCallbacks s ++ registered cs;
  posted_activated : activatedChildren s' = activatedChildren s ++ activated cs
}.

(** Outside a flush: no two entries of the queue have the same id, and
    the ids marked in [has] are the ids of the entries. *)
Definition dedup_ok {Ext : Type} (s : State Ext) : Prop :=
  NoDup (id <$> queue s) /\
  forall i, has s !! i = Some MTrue <-> i ∈ id <$> queue s.

(** During a flush: no two entries of the queue from position [k] on have
    the same id, and each of them is marked in [has]. *)
Definition pending_ok {Ext : Type} (k : nat) (s : State Ext) : Prop :=
  NoDup (id <$> drop k (queue s)) /\
  forall w, w ∈ drop k (queue s) -> has s !! id w = Some MTrue.

(** What a sequence of calls that only queue leaves behind, outside a
    flush: one call of [nextTick] if [waiting] was off and is on now, and
    none otherwise; [waiting] is on if anything was queued. *)
Definition batched {Ext : Type} (s s' : State Ext) : Prop :=
  flushing s' = false /\ insideRun s' = insideRun s /\ index s' = index s /\
  (waiting s = true -> waiting s' = true) /\
  log s' = log s ++ (if negb (waiting s) && waiting s' then [EvNextTick] else []) /\
  queue s `prefix_of` queue s' /\
  afterFlushCallbacks s `prefix_of` afterFlushCallbacks s' /\
  (queue s' <> queue s \/ afterFlushCallbacks s' <> afterFlushCallbacks s ->
   waiting s' = true) /\
  (dedup_ok s -> dedup_ok s').

(** ** Concrete programs

    Small worlds over a surrounding program without state of its own, used
    to run the scheduler on explicit inputs. *)

Module Examples.
(** The watcher with id [i], of the component at address [i]. *)
Definition job (i : Z) : Watcher :=
  mkWatcher i (Z.to_nat i) (Z.to_nat i) false EmptyString.

(** A development or production build, with [config.async] as given, in
    which running watcher [w] performs [script w] and calling function
    [f] performs [body f]. *)
Definition world (prod async : bool)
    (script : Watcher -> list cmd) (body : Fn -> list cmd) : World unit :=
  mkWorld unit prod async false (fun _ => 0%Z) (fun _ => None)
    (fun w e => (e, script w)) (fun f e => (e, body f)).

(** The scheduler as the module leaves it when loaded. *)
Definition idle : State unit :=
  mkState unit [] [] ∅ ∅ false false false 0 [] 0%Z ∅ tt [].

(** A component that is mounted and whose render watcher is [w]. *)
Definition mounted (w : Watcher) : VM := mkVM (Some w) true false false.

(** Watchers that do nothing, and no functions. *)
Definition inert : World unit := world false true (fun _ => []) (fun _ => []).

(** A development build with [config.async] switched off. *)
Definition development_sync : World unit :=
  world false false (fun _ => []) (fun _ => []).

(** A production build with [config.async] switched off. *)
Definition production_sync : World unit :=
  world true false (fun _ => []) (fun _ => []).

(** Watcher 2 throws. *)
Definition throwing : World unit :=
  world false true
    (fun w => if (id w =? 2)%Z then [CThrow "boom"%string] else [])
    (fun _ => []).

(** Watcher 1 queues itself again whenever it runs. *)
Definition runaway : World unit :=
  world false true
    (fun w => if (id w =? 1)%Z then [CQueueWatcher w] else [])
    (fun _ => []).

(** The scheduler after [queueWatcher] of the watchers [ws] (of distinct
    ids) in turn, in a build that defers the flush; the component of every
    watcher is mounted and has it as its [_watcher]. *)
Definition queued (ws : list Watcher) : State unit :=
  mkState unit ws [] (list_to_map ((fun w => (id w, MTrue)) <$> ws)) ∅
    true false false 0 [] 0%Z
    (list_to_map ((fun w => (vm w, mounted w)) <$> ws)) tt [EvNextTick].

(** Function 0 queues watcher 5 and then watcher 2. *)
Definition late_callback : World unit :=
  world false true (fun _ => [])
    (fun _ => [CQueueWatcher (job 5); CQueueWatcher (job 2)]).

(** Watcher 5 queues watcher 2 when it runs. *)
Definition growing : World unit :=
  world false true
    (fun w => if (id w =? 5)%Z then [CQueueWatcher (job 2)] else [])
    (fun _ => []).

(** Watcher 1 queues watcher 3, registers function 0 and queues component
    7 for activation; function 0 queues watcher 2; the other functions
    throw. *)
Definition busy : World unit :=
  world false true
    (fun w => if (id w =? 1)%Z
              then [CQueueWatcher (job 3); CAfterFlush 0%nat;
                    CQueueActivatedComponent 7%nat]
              else [])
    (fun f => if (f =? 0)%nat then [CQueueWatcher (job 2)]
              else [CThrow "late"%string]).

(** Watchers 4 and 1 are queued, function 1 is registered and component 5
    is queued for activation. *)
Definition busy_start : State unit :=
  set_activatedChildren [5%nat]
    (set_afterFlushCallbacks [1%nat] (queued [job 4; job 1])).

(** Function 0 queues watcher 7 and calls [forceFlush()]. *)
Definition eager_getter : World unit :=
  world false false (fun _ => [])
    (fun _ => [CQueueWatcher (job 7); CForceFlush None]).

(** Watchers that do nothing; every function queues watcher 2. *)
Definition requeueing_callback : World unit :=
  world false true (fun _ => []) (fun _ => [CQueueWatcher (job 2)]).

(** Watcher 1 queues watcher 2 when it runs, and watcher 2 watcher 1. *)
Definition mutual : World unit :=
  world false true
    (fun w => if (id w =? 1)%Z then [CQueueWatcher (job 2)]
              else if (id w =? 2)%Z then [CQueueWatcher (job 1)] else [])
    (fun _ => []).

(** Watcher 1 registers function 0 and queues component 7 for activation,
    watcher 2 registers function 2; function 0 queues component 8 and
    throws, function 1 throws, the others queue component 9. *)
Definition posting_script (w : Watcher) : list cmd :=
  if (id w =? 1)%Z then [CAfterFlush 0%nat; CQueueActivatedComponent 7%nat]
  else if (id w =? 2)%Z then [CAfterFlush 2%nat] else [].

Definition posting_body (f : Fn) : list cmd :=
  match f with
  | 0%nat => [CQueueActivatedComponent 8%nat; CThrow "late"%string;
              CQueueActivatedComponent 6%nat]
  | 1%nat => [CThrow "first"%string]
  | _ => [CQueueActivatedComponent 9%nat]
  end.

Definition posting : World unit := world false true posting_script posting_body.

(** Watchers 2 and 1 are queued, function 1 is registered and component 5
    is queued for activation. *)
Definition posting_start : State unit :=
  set_activatedChildren [5%nat]
    (set_afterFlushCallbacks [1%nat] (queued [job 2; job 1])).

(** Function 0 calls [forceFlush()]. *)
Definition flushing_getter : World unit :=
  world false true (fun _ => []) (fun f => [CForceFlush None]).
End Examples.

(** ** Sorting *)

Lemma insert_by_id_perm w l : insert_by_id w l ≡ₚ w :: l.
Proof.
  induction l as [|x l IH]; simpl; [done|].
  case_match; [done|]. rewrite IH. apply Permutation_swap.
Qed.

Lemma sort_queue_perm l : sort_queue l ≡ₚ l.
Proof.
  induction l as [|x l IH]; simpl; [done|].
  by rewrite insert_by_id_perm, IH.
Qed.

Lemma insert_by_id_ascending w l : ascending l -> ascending (insert_by_id w l).
Proof.
  unfold ascending. induction 1 as [|x l Hl IH Hx]; simpl.
  - repeat constructor.
  - destruct (Z.leb_spec (id w) (id x)).
    + constructor; [by constructor|].
      constructor; [done|]. eapply Forall_impl; [exact Hx|]. simpl. lia.
    + constructor; [done|].
      rewrite insert_by_id_perm. constructor; [lia|done].
Qed.

Lemma sort_queue_ascending l : ascending (sort_queue l).
Proof.
  induction l; simpl; [constructor|]. by apply insert_by_id_ascending.
Qed.

Lemma sort_queue_length l : length (sort_queue l) = length l.
Proof. by rewrite sort_queue_perm. Qed.
(** ** The backward scan of [queueWatcher] *)

Lemma ascending_lookup l i j x y :
  ascending l -> (i < j)%nat -> l !! i = Some x -> l !! j = Some y ->
  (id x <= id y)%Z.
Proof.
  intros Hl. revert i j. induction Hl as [|a l Hl IH Ha]; intros i j Hij Hi Hj.
  - by rewrite lookup_nil in Hi.
  - destruct j as [|j]; [lia|]. simpl in Hj. destruct i as [|i]; simpl in Hi.
    + inversion Hi; subst. rewrite Forall_forall in Ha.
      apply Ha. by eapply list_elem_of_lookup_2.
    + eapply (IH i j); [lia|done..].
Qed.

Lemma splice_position_spec q idx wid n :
  (n <= length q)%nat ->
  let p := splice_position q idx wid n in
  (p <= n)%nat /\ (Nat.min (S idx) n <= p)%nat /\
  (forall j x, (p <= j < n)%nat -> q !! j = Some x -> (wid < id x)%Z) /\
  (forall x, (S idx < p)%nat -> q !! (p - 1)%nat = Some x -> (id x <= wid)%Z).
Proof.
  induction n as [|i IH]; intros Hn; simpl.
  - repeat split; intros; lia.
  - destruct (lookup_lt_is_Some_2 q i) as [x Hx]; [lia|]. rewrite Hx.
    destruct (Nat.ltb_spec idx i) as [Hlt|Hge]; simpl.
    + destruct (Z.ltb_spec wid (id x)) as [Hw|Hw].
      * destruct IH as (H1 & H2 & H3 & H4); [lia|].
        repeat split; [lia|lia| |done].
        intros j y Hj Hy. destruct (decide (j = i)) as [->|]; [|apply (H3 j y); [lia|done]].
        congruence.
      * repeat split; [lia|lia|intros; lia|].
        intros y _. rewrite Nat.sub_1_r. simpl. intros ?. by simplify_eq.
    + repeat split; [lia|lia|intros; lia|intros; lia].
Qed.

Lemma splice_in_length p w q : (p <= length q)%nat ->
  length (splice_in p w q) = S (length q).
Proof.
  intros. unfold splice_in. rewrite length_app, length_take. simpl.
  rewrite length_drop. lia.
Qed.

Lemma splice_in_lookup_lt p w q i : (i < p)%nat -> (p <= length q)%nat ->
  splice_in p w q !! i = q !! i.
Proof.
  intros. unfold splice_in. rewrite lookup_app_l by (rewrite length_take; lia).
  by apply lookup_take_lt.
Qed.

Lemma splice_in_lookup_eq p w q : (p <= length q)%nat ->
  splice_in p w q !! p = Some w.
Proof.
  intros. unfold splice_in. rewrite lookup_app_r by (rewrite length_take; lia).
  rewrite length_take. by replace (p - p `min` length q)%nat with 0%nat by lia.
Qed.

Lemma splice_in_perm p w q : splice_in p w q ≡ₚ w :: q.
Proof.
  unfold splice_in. rewrite <-Permutation_middle. by rewrite take_drop.
Qed.

Lemma splice_keeps_ascending q idx w :
  let p := splice_position q idx (id w) (length q) in
  ascending (drop (S idx) q) ->
  ascending (drop (S idx) (splice_in p w q)).
Proof.
  intros p Hasc.
  destruct (splice_position_spec q idx (id w) (length q)) as (H1 & H2 & H3 & H4);
    [lia|]. fold p in H1, H2, H3, H4.
  destruct (decide (idx < length q)%nat) as [Hlt|Hge]; last first.
  { rewrite drop_ge; [constructor|]. rewrite splice_in_length by done. lia. }
  unfold splice_in. rewrite drop_app_le by (rewrite length_take; lia).
  rewrite <-(take_drop p q) in Hasc.
  rewrite drop_app_le in Hasc by (rewrite length_take; lia).
  set (A := drop (S idx) (take p q)) in *. set (B := drop p q) in *.
  unfold ascending in *. apply StronglySorted_app in Hasc as (HAB & HA & HB).
  assert (HwB : Forall (fun b => (id w <= id b)%Z) B).
  { apply Forall_forall. intros b [k Hk]%list_elem_of_lookup_1.
    unfold B in Hk. rewrite lookup_drop in Hk.
    apply lookup_lt_Some in Hk as Hlen.
    specialize (H3 (p + k)%nat b ltac:(lia) Hk). lia. }
  apply StronglySorted_app_2; [|done|by constructor].
  intros a b Ha [->|Hb]%elem_of_cons; [|by apply HAB].
  apply list_elem_of_lookup_1 in Ha as [k Hk].
  assert (Hklen : (k < length A)%nat) by (by eapply lookup_lt_Some).
  unfold A in Hklen. rewrite length_drop, length_take in Hklen.
  destruct (lookup_lt_is_Some_2 q (p - 1)) as [x Hx]; [lia|].
  assert (Hxw : (id x <= id w)%Z) by (apply H4; [lia|done]).
  assert (HxA : A !! (p - 1 - S idx)%nat = Some x).
  { unfold A. rewrite lookup_drop, lookup_take_lt by lia.
    by replace (S idx + (p - 1 - S idx))%nat with (p - 1)%nat by lia. }
  destruct (decide (k = p - 1 - S idx)%nat) as [->|Hne].
  - by simplify_eq.
  - etrans; [|exact Hxw].
    eapply (ascending_lookup A k (p - 1 - S idx)); [done|lia|done..].
Qed.
(** ** Calls made while a flush is active *)

Lemma runs_app l1 l2 : runs (l1 ++ l2) = runs l1 ++ runs l2.
Proof. apply omap_app. Qed.

Lemma warnings_app l1 l2 : warnings (l1 ++ l2) = warnings l1 ++ warnings l2.
Proof. apply omap_app. Qed.

Section Nested.
Context {Ext : Type} (W : World Ext).
Implicit Type s : State Ext.

Lemma nested_refl s : nested s s.
Proof.
  split; try done. exists []. by rewrite app_nil_r.
Qed.

Lemma nested_trans s1 s2 s3 : nested s1 s2 -> nested s2 s3 -> nested s1 s3.
Proof.
  intros [] [Hf Hi ? ? ? Hl (l2 & ? & Hr2 & Hw2)]. split; try congruence; try lia.
  - intros i w ? ?. apply Hl; [lia|auto].
  - destruct nested_log0 as (l1 & ? & Hr1 & Hw1). exists (l1 ++ l2).
    rewrite runs_app, warnings_app, Hr1, Hr2, Hw1, Hw2.
    split; [|done]. rewrite app_assoc. congruence.
Qed.

Lemma nested_emit e s :
  runs [e] = [] -> warnings [e] = [] -> nested s (emit e s).
Proof. intros. split; try done. by exists [e]. Qed.

Lemma flush_guard_flushing run n m s :
  flushing s = true ->
  flushSchedulerQueue W run n m s =
    Some (Thrown already_flushing, s).
Proof. intros H. unfold flushSchedulerQueue. by rewrite H. Qed.

Lemma requireFlush_nested run n s o s' :
  flushing s = true -> requireFlush W run n s = Some (o, s') -> nested s s'.
Proof.
  intros Hf. unfold requireFlush. destruct (waiting s) eqn:Hw.
  - intros [= <- <-]. apply nested_refl.
  - destruct (negb (production W) && negb (config_async W)).
    + rewrite flush_guard_flushing by done. intros [= <- <-]. by split; try done; exists []; rewrite ?app_nil_r.
    + intros [= <- <-]. eapply nested_trans; [|by apply nested_emit].
      split; try done. exists []. by rewrite app_nil_r.
Qed.

Lemma queueWatcher_nested run n w s o s' :
  flushing s = true -> queueWatcher W run n w s = Some (o, s') -> nested s s'.
Proof.
  intros Hf. unfold queueWatcher. destruct (is_nullish _).
  - simpl. rewrite Hf. intros H. eapply nested_trans; [|eapply requireFlush_nested, H; done].
    destruct (splice_position_spec (queue s) (index s) (id w) (length (queue s)))
      as (H1 & H2 & _); [lia|].
    split; simpl; try done.
    + rewrite splice_in_length by done. lia.
    + intros i x Hi Hx. apply lookup_lt_Some in Hx as Hlen.
      rewrite splice_in_lookup_lt; [done|lia|done].
    + exists []. by rewrite app_nil_r.
  - intros [= <- <-]. apply nested_refl.
Qed.

Lemma exec_cmd_nested run n c s o s' :
  (forall cs s o s', flushing s = true -> run cs s = Some (o, s') -> nested s s') ->
  flushing s = true -> exec_cmd W run n c s = Some (o, s') -> nested s s'.
Proof.
  intros Hrun Hf. destruct c; simpl.
  - by apply queueWatcher_nested.
  - unfold afterFlush. intros H%requireFlush_nested; [|done].
    eapply nested_trans; [|exact H]. split; try done. exists []. by rewrite app_nil_r.
  - intros [= <- <-]. split; try done. exists []. by rewrite app_nil_r.
  - unfold forceFlush. rewrite flush_guard_flushing by done.
    intros [= <- <-]. apply nested_refl.
  - unfold wrapWatcherGetter, invoke. simpl.
    destruct (fn_body W f (ext s)) as [e cs].
    destruct (run cs _) as [[o1 s1]|] eqn:Hr; [|done].
    intros [= <- <-]. apply Hrun in Hr as []; [|done]. simpl in *.
    split; simpl; try done.
  - intros [= <- <-]. split; try done. exists []. by rewrite app_nil_r.
  - intros [= <- <-]. apply nested_refl.
Qed.

Lemma exec_nested fuel cs s o s' :
  flushing s = true -> exec W fuel cs s = Some (o, s') -> nested s s'.
Proof.
  revert cs s o s'. induction fuel as [|n IH]; intros cs s o s' Hf; [done|].
  simpl. destruct cs as [|c cs]; [intros [= <- <-]; apply nested_refl|].
  destruct (exec_cmd W (exec W n) n c s) as [[o1 s1]|] eqn:Hc; [|done].
  apply exec_cmd_nested in Hc; [|exact IH|done].
  destruct o1.
  - intros H. eapply nested_trans; [exact Hc|]. eapply IH; [|exact H].
    destruct Hc. congruence.
  - by intros [= <- <-].
Qed.
End Nested.

(** ** The invariant of the flush loops *)

Section Loops.
Context {Ext : Type} (W : World Ext).
Variable run : list cmd -> State Ext -> Result Ext.
Hypothesis run_nested :
  forall cs s o s', flushing s = true -> run cs s = Some (o, s') -> nested s s'.
Implicit Type s : State Ext.

Lemma nested_take s s' :
  nested s s' -> (index s <= length (queue s))%nat ->
  take (index s) (queue s') = take (index s) (queue s).
Proof.
  intros [] Hle. apply list_eq. intros i.
  destruct (decide (i < index s)%nat) as [Hi|Hi].
  - rewrite !lookup_take_lt by done.
    destruct (lookup_lt_is_Some_2 (queue s) i) as [w Hw]; [lia|].
    rewrite Hw. apply nested_lookup0; [lia|done].
  - by rewrite !lookup_take_ge by lia.
Qed.

Lemma nested_take_S s s' :
  nested s s' -> (index s < length (queue s))%nat ->
  take (S (index s)) (queue s') = take (S (index s)) (queue s).
Proof.
  intros [] Hle. apply list_eq. intros i.
  destruct (decide (i < S (index s))%nat) as [Hi|Hi].
  - rewrite !lookup_take_lt by done.
    destruct (lookup_lt_is_Some_2 (queue s) i) as [w Hw]; [lia|].
    rewrite Hw. apply nested_lookup0; [lia|done].
  - by rewrite !lookup_take_ge by lia.
Qed.

Lemma invoke_nested f s o s' :
  flushing s = true -> invoke run f s = Some (o, s') -> nested s s'.
Proof.
  unfold invoke. destruct (f (ext s)) as [e cs]. intros Hf Hr.
  apply run_nested in Hr as []; [|done]. by split.
Qed.

Lemma call_before_nested w s o s' :
  flushing s = true -> call_before W run w s = Some (o, s') -> nested s s'.
Proof.
  unfold call_before. intros Hf. destruct (watcher_before W w).
  - intros H%invoke_nested; [|done].
    eapply nested_trans; [|exact H]. by apply nested_emit.
  - intros [= <- <-]. apply nested_refl.
Qed.

(** A nested call keeps the invariant. *)
Lemma flush_inv_nested l0 s s' :
  flush_inv l0 Returned s -> nested s s' -> flush_inv l0 Returned s'.
Proof.
  intros [Hf Hi Hle (l & Hl & Hruns)] Hn.
  pose proof (nested_take _ _ Hn Hle) as Htake.
  destruct Hn as [? Hidx ? ? ? ? (l' & Hl' & Hr' & Hw')].
  split; [congruence|congruence|lia|].
  exists (l ++ l'). split; [rewrite Hl', Hl; by rewrite app_assoc|].
  rewrite runs_app, warnings_app, Hr', Hw', !app_nil_r.
  intros Hw. rewrite Hruns by done. by rewrite Hidx, Htake.
Qed.

Lemma flush_inv_thrown l0 e s : flush_inv l0 Returned s -> flush_inv l0 (Thrown e) s.
Proof.
  intros [? ? ? (l & ? & Hr)]. split; try done. exists l. split; [done|]. auto.
Qed.

Lemma scan_inv l0 n limit s o s' :
  flush_inv l0 Returned s -> scan W run n limit s = Some (o, s') ->
  flush_inv l0 o s' /\ (o = Returned -> index s' = length (queue s')).
Proof.
  revert s. induction n as [|n IH]; intros s Hinv; [done|]. simpl.
  destruct (queue s !! index s) as [w|] eqn:Hw; last first.
  { intros [= <- <-]. split; [done|]. intros _.
    apply lookup_ge_None in Hw. destruct Hinv. lia. }
  destruct (call_before W run w s) as [[[|e] s1]|] eqn:Hb; [| |done]; last first.
  { intros [= <- <-]. split; [|done]. apply flush_inv_thrown.
    eapply flush_inv_nested; [done|]. eapply call_before_nested; [|done]. by destruct Hinv. }
  assert (Hn1 : nested s s1) by (eapply call_before_nested; [by destruct Hinv|done]).
  pose proof (flush_inv_nested _ _ _ Hinv Hn1) as Hinv1.
  assert (Hw1 : queue s1 !! index s1 = Some w).
  { destruct Hn1. rewrite nested_index0. apply nested_lookup0; [lia|done]. }
  set (s2 := emit (EvRun w) (set_has (<[id w:=MNull]> (has s1)) s1)).
  destruct (invoke run (watcher_run W w) s2) as [[o3 s3]|] eqn:Hr; [|done].
  assert (Hn3 : nested s2 s3) by (eapply invoke_nested; [by destruct Hinv1|done]).
  assert (Hlt : (index s1 < length (queue s1))%nat) by (by eapply lookup_lt_Some).
  pose proof (nested_take_S s2 s3 Hn3 Hlt) as Htake3.
  assert (Htr3 : exists l, log s3 = l0 ++ l /\
            (warnings l = [] -> runs l = take (S (index s3)) (queue s3))).
  { destruct Hinv1 as [_ _ _ (l1 & Hl1 & Hr1)].
    destruct Hn3 as [_ Hi3 _ _ _ _ (l3 & Hl3 & Hr3 & Hw3)]. simpl in *.
    exists (l1 ++ EvRun w :: l3). split.
    { rewrite Hl3, Hl1. by rewrite <-!app_assoc. }
    rewrite runs_app, warnings_app.
    change (runs (EvRun w :: l3)) with (w :: runs l3).
    change (warnings (EvRun w :: l3)) with (warnings l3).
    rewrite Hr3, Hw3, app_nil_r. intros Hw'. rewrite Hr1 by done.
    rewrite Hi3, Htake3. by erewrite take_S_r. }
  assert (Hf3 : flushing s3 = true /\ insideRun s3 = false /\
                (index s3 < length (queue s3))%nat).
  { destruct Hinv1, Hn3. simpl in *. repeat split; [congruence..|lia]. }
  destruct Hf3 as (Hf3 & Hir3 & Hlt3).
  destruct o3 as [|e]; last first.
  { intros [= <- <-]. split; [|done]. split; [done|done|lia|].
    destruct Htr3 as (l & ? & ?). exists l. split; [done|]. auto. }
  destruct (negb (production W) && negb (is_nullish (has s3 !! id w))).
  - destruct (_ <? _)%Z.
    + intros [= <- <-]. simpl. split; [|done].
      split; simpl; [done|done|lia|].
      destruct Htr3 as (l & Hl & _).
      exists (l ++ [EvWarn (loop_warning w) (vm w)]). simpl. rewrite Hl.
      split; [by rewrite app_assoc|].
      rewrite warnings_app. by intros [_ ?]%app_eq_nil.
    + apply IH. split; simpl; [done|done|lia|].
      destruct Htr3 as (l & ? & ?). by exists l.
  - apply IH. split; simpl; [done|done|lia|].
    destruct Htr3 as (l & ? & ?). by exists l.
Qed.

Lemma drain_inv l0 n limit s o s' :
  flush_inv l0 Returned s -> drain W run n limit s = Some (o, s') ->
  flush_inv l0 o s' /\
  (o = Returned -> index s' = length (queue s') /\ afterFlushCallbacks s' = []).
Proof.
  revert s. induction n as [|n IH]; intros s Hinv; [done|]. simpl.
  destruct (bool_decide (length (queue s) ≠ index s)
            || bool_decide (afterFlushCallbacks s ≠ [])) eqn:Hc; last first.
  { intros [= <- <-]. split; [done|]. intros _.
    apply orb_false_iff in Hc as [H1%bool_decide_eq_false H2%bool_decide_eq_false].
    split; [|by apply dec_stable]. symmetry. by apply dec_stable. }
  destruct (scan W run n limit s) as [[[|e] s1]|] eqn:Hs; [| |done]; last first.
  { intros [= <- <-]. by apply (scan_inv l0) in Hs as [? _]. }
  apply (scan_inv l0) in Hs as [Hinv1 _]; [|done].
  destruct (afterFlushCallbacks s1) as [|func rest]; [by apply IH|].
  set (s2 := emit (EvCallback func) (set_afterFlushCallbacks rest s1)).
  assert (Hinv2 : flush_inv l0 Returned s2).
  { eapply flush_inv_nested; [exact Hinv1|].
    eapply (nested_trans _ (set_afterFlushCallbacks rest s1)); [|by apply nested_emit].
    split; try done. by exists []; rewrite app_nil_r. }
  destruct (invoke run (fn_body W func) s2) as [[[|e] s3]|] eqn:Hr; [| |done].
  - apply IH. eapply flush_inv_nested; [exact Hinv2|].
    eapply invoke_nested; [by destruct Hinv2|done].
  - apply IH. eapply flush_inv_nested; [exact Hinv2|].
    eapply nested_trans; [eapply invoke_nested; [by destruct Hinv2|done]|].
    by apply nested_emit.
Qed.
End Loops.

(** ** The [finally] block *)

Section Finally.
Context {Ext : Type} (W : World Ext).
Implicit Type s : State Ext.

Lemma emit_all_nil s : emit_all [] s = s.
Proof. destruct s. unfold emit_all. simpl. by rewrite app_nil_r. Qed.

Lemma emit_all_emit e l s : emit_all l (emit e s) = emit_all (e :: l) s.
Proof. unfold emit_all, emit. simpl. by rewrite <-app_assoc. Qed.

Lemma callUpdatedHooks_spec q i s :
  (i <= length q)%nat ->
  callUpdatedHooks q i s = (Returned, emit_all (updated_events s q i) s).
Proof.
  revert s. induction i as [|i IH]; intros s Hi.
  - simpl. unfold updated_events. rewrite take_0. simpl. by rewrite emit_all_nil.
  - simpl. destruct (lookup_lt_is_Some_2 q i) as [w Hw]; [lia|]. rewrite Hw.
    unfold updated_events. erewrite take_S_r by done.
    rewrite reverse_snoc, filter_cons.
    destruct (live s w) eqn:Hl; simpl.
    + rewrite IH by lia. by rewrite emit_all_emit.
    + apply IH; lia.
Qed.

(** [callActivatedHooks] marks each component and reports it; it leaves
    the fields that [callUpdatedHooks] tests as they are. *)
Lemma callActivatedHooks_spec q s :
  let s' := callActivatedHooks q s in
  queue s' = queue s /\ activatedChildren s' = activatedChildren s /\
  has s' = has s /\ circular s' = circular s /\ waiting s' = waiting s /\
  flushing s' = flushing s /\ insideRun s' = insideRun s /\
  index s' = index s /\ afterFlushCallbacks s' = afterFlushCallbacks s /\
  log s' = log s ++ activated_events q /\
  (forall w, live s' w = live s w).
Proof.
  revert s. induction q as [|c q IH]; intros s; simpl.
  - rewrite app_nil_r. by repeat split.
  - specialize (IH (emit (EvActivate c true)
                       (set_vm c (set_inactive true (vm_of s c)) s))).
    simpl in IH. destruct IH as (-> & -> & -> & -> & -> & -> & -> & -> & -> & -> & Hl).
    rewrite <-app_assoc. repeat split; try done.
    intros w. rewrite Hl. unfold live, vm_of. simpl.
    destruct (decide (c = vm w)) as [->|Hne].
    + by rewrite lookup_insert_eq.
    + by rewrite lookup_insert_ne.
Qed.

(** What the [finally] block leaves behind. *)
Lemma flush_finally_spec s :
  (index s <= length (queue s))%nat ->
  exists s',
    flush_finally W s = (Returned, s') /\
    queue s' = drop (index s) (queue s) /\ activatedChildren s' = [] /\
    has s' = ∅ /\ (production W = false -> circular s' = ∅) /\
    waiting s' = false /\ flushing s' = false /\
    insideRun s' = insideRun s /\ index s' = 0%nat /\
    afterFlushCallbacks s' = afterFlushCallbacks s /\
    log s' = log s ++ activated_events (activatedChildren s)
               ++ updated_events (resetSchedulerState W s) (queue s) (index s)
               ++ (if devtools_enabled W then [EvDevtoolsFlush] else []).
Proof.
  intros Hle. unfold flush_finally.
  pose proof (callActivatedHooks_spec (activatedChildren s) (resetSchedulerState W s))
    as (Hq & Ha & Hh & Hc & Hw & Hf & Hi & Hx & Hcb & Hl & Hlive).
  rewrite callUpdatedHooks_spec by done.
  set (s2 := callActivatedHooks (activatedChildren s) (resetSchedulerState W s)) in *.
  assert (Hue : updated_events s2 (queue s) (index s)
                = updated_events (resetSchedulerState W s) (queue s) (index s)).
  { unfold updated_events. f_equal. apply list_filter_iff. intros w. by rewrite Hlive. }
  assert (Hreset : queue (resetSchedulerState W s) = drop (index s) (queue s) /\
            activatedChildren (resetSchedulerState W s) = [] /\
            has (resetSchedulerState W s) = ∅ /\
            (production W = false -> circular (resetSchedulerState W s) = ∅) /\
            waiting (resetSchedulerState W s) = false /\
            flushing (resetSchedulerState W s) = false /\
            insideRun (resetSchedulerState W s) = insideRun s /\
            index (resetSchedulerState W s) = 0%nat /\
            afterFlushCallbacks (resetSchedulerState W s) = afterFlushCallbacks s /\
            log (resetSchedulerState W s) = log s).
  { unfold resetSchedulerState.
    destruct (decide (index s = length (queue s))) as [He|He];
      destruct (production W); simpl; rewrite ?He, ?drop_all; by repeat split. }
  destruct Hreset as (Rq & Ra & Rh & Rc & Rw & Rf & Ri & Rx & Rcb & Rl).
  eexists. split; [reflexivity|].
  destruct (devtools_enabled W); simpl; rewrite ?Hq, ?Ha, ?Hh, ?Hc, ?Hw, ?Hf, ?Hi,
    ?Hx, ?Hcb, ?Hl, ?Hue, ?Rl, ?app_nil_r, <-?app_assoc; by repeat split.
Qed.
End Finally.

Lemma reset_clears {Ext : Type} (W : World Ext) (s : State Ext) :
  has (resetSchedulerState W s) = ∅ /\
  waiting (resetSchedulerState W s) = false /\
  flushing (resetSchedulerState W s) = false.
Proof.
  unfold resetSchedulerState.
  by destruct (decide (index s = length (queue s))), (production W).
Qed.

(** ** A flush, from the guards to the [finally] block *)

Section Flush.
Context {Ext : Type} (W : World Ext).
Implicit Type s : State Ext.

Lemma flush_begin_inv s :
  insideRun s = false -> flush_inv (log s) Returned (flush_begin W s).
Proof.
  intros Hi. split; simpl; [done|done|lia|].
  exists []. simpl. by rewrite app_nil_r, take_0.
Qed.

Lemma live_reset s w : live (resetSchedulerState W s) w = live s w.
Proof.
  unfold resetSchedulerState.
  by destruct (decide (index s = length (queue s))), (production W).
Qed.

Lemma updated_events_reset s q i :
  updated_events (resetSchedulerState W s) q i = updated_events s q i.
Proof.
  unfold updated_events. f_equal. apply list_filter_iff. intros w.
  by rewrite live_reset.
Qed.

(** The shape of every flush that gets past the guards. *)
Lemma flush_protected_spec fuel m s o s' :
  insideRun s = false ->
  flush_protected W (exec W fuel) fuel m s = Some (o, s') ->
  exists s1,
    drain W (exec W fuel) fuel (effective_limit m) (flush_begin W s) = Some (o, s1) /\
    flush_inv (log s) o s1 /\
    (o = Returned -> index s1 = length (queue s1) /\ afterFlushCallbacks s1 = []) /\
    flush_finally W s1 = (Returned, s') /\
    queue s' = drop (index s1) (queue s1) /\ activatedChildren s' = [] /\
    has s' = ∅ /\ waiting s' = false /\ flushing s' = false /\
    insideRun s' = false /\ index s' = 0%nat /\
    log s' = log s1 ++ activated_events (activatedChildren s1)
               ++ updated_events s1 (queue s1) (index s1)
               ++ (if devtools_enabled W then [EvDevtoolsFlush] else []).
Proof.
  intros Hi. unfold flush_protected.
  destruct (drain _ _ _ _ _) as [[o1 s1]|] eqn:Hd; [|done].
  pose proof Hd as Hd'.
  apply (drain_inv W _ (exec_nested W fuel) (log s)) in Hd as [Hinv Hret];
    [|by apply flush_begin_inv].
  destruct (flush_finally_spec W s1) as (s2 & Hfin & Hq & Ha & Hh & _ & Hw & Hf & Hir & Hx & _ & Hl);
    [by destruct Hinv|].
  rewrite Hfin. intros [= <- <-]. exists s1.
  rewrite updated_events_reset in Hl.
  destruct Hinv as [? Hir1 ? ?].
  split; [done|]. split; [by split|]. split; [exact Hret|].
  repeat split; try done. congruence.
Qed.
End Flush.

(** ** A flush of quiet watchers *)

Section Quiet.
Context {Ext : Type} (W : World Ext).
Implicit Type s : State Ext.

Lemma calm_refl s : calm s s.
Proof. by split. Qed.

Lemma calm_trans s1 s2 s3 : calm s1 s2 -> calm s2 s3 -> calm s1 s3.
Proof. intros [] []. split; congruence. Qed.

Lemma exec_quiet cs s :
  Forall (fun c => quiet_cmd c = true) cs ->
  exists s', calm s s' /\
    forall fuel, (length cs < fuel)%nat -> exec W fuel cs s = Some (Returned, s').
Proof.
  intros Hq. revert s. induction Hq as [|c cs Hc _ IH]; intros s.
  - exists s. split; [apply calm_refl|]. intros [|n] ?; [simpl in *; lia|done].
  - assert (exists s1, calm s s1 /\
              forall run n, exec_cmd W run n c s = Some (Returned, s1))
      as (s1 & Hcalm1 & Hc1).
    { destruct c; try discriminate Hc; eexists; (split; [|reflexivity]); by split. }
    destruct (IH s1) as (s' & Hcalm' & Hex).
    exists s'. split; [by eapply calm_trans|].
    intros [|n] Hlen; [simpl in *; lia|]. simpl. rewrite Hc1.
    apply Hex. simpl in Hlen. lia.
Qed.

Lemma invoke_quiet f s :
  quiet_script f ->
  exists n0 s', calm s s' /\
    forall m, (n0 <= m)%nat -> invoke (exec W m) f s = Some (Returned, s').
Proof.
  intros Hq. unfold invoke. specialize (Hq (ext s)).
  destruct (f (ext s)) as [e cs]. simpl in Hq.
  destruct (exec_quiet cs (set_ext e s) Hq) as (s' & Hcalm & Hex).
  exists (S (length cs)), s'. split.
  - destruct Hcalm. by split.
  - intros m Hm. apply Hex. lia.
Qed.

Lemma call_before_quiet w s :
  quiet_watcher W w ->
  exists n0 s' l, queue s' = queue s /\ has s' = has s /\ circular s' = circular s /\
    waiting s' = waiting s /\ flushing s' = flushing s /\
    insideRun s' = insideRun s /\ index s' = index s /\
    afterFlushCallbacks s' = afterFlushCallbacks s /\
    log s' = log s ++ l /\ runs l = [] /\ warnings l = [] /\
    forall m, (n0 <= m)%nat -> call_before W (exec W m) w s = Some (Returned, s').
Proof.
  intros [_ Hb]. unfold call_before. destruct (watcher_before W w) as [f|].
  - destruct (invoke_quiet f (emit (EvBefore w) s) Hb) as (n0 & s' & [] & Hex).
    exists n0, s', [EvBefore w]. simpl in *. by repeat split.
  - exists 0%nat, s, []. rewrite app_nil_r. by repeat split.
Qed.

(** The loop over the pending entries runs each of them, in queue order,
    and ends with the cursor at the end of the queue. *)
Lemma scan_quiet limit k : forall s,
  (length (queue s) - index s = k)%nat ->
  (index s <= length (queue s))%nat ->
  (forall w, w ∈ drop (index s) (queue s) -> quiet_watcher W w) ->
  exists n0 s' l,
    queue s' = queue s /\ index s' = length (queue s) /\
    afterFlushCallbacks s' = afterFlushCallbacks s /\
    flushing s' = flushing s /\ insideRun s' = insideRun s /\
    waiting s' = waiting s /\
    log s' = log s ++ l /\ runs l = drop (index s) (queue s) /\ warnings l = [] /\
    forall m n, (n0 <= m)%nat -> (n0 <= n)%nat ->
      scan W (exec W m) n limit s = Some (Returned, s').
Proof.
  induction k as [|k IH]; intros s Hk Hle Hq.
  - exists 1%nat, s, []. rewrite app_nil_r, drop_ge by lia.
    repeat split; try done; [lia|].
    intros m [|n] _ Hn; [lia|]. simpl.
    by rewrite (proj2 (lookup_ge_None _ _)) by lia.
  - destruct (lookup_lt_is_Some_2 (queue s) (index s)) as [w Hw]; [lia|].
    assert (Hwq : quiet_watcher W w).
    { apply Hq. apply list_elem_of_lookup. exists 0%nat.
      by rewrite lookup_drop, Nat.add_0_r. }
    destruct (call_before_quiet w s Hwq)
      as (n1 & s1 & l1 & Q1 & H1 & C1 & W1 & F1 & I1 & X1 & A1 & L1 & R1 & Wn1 & E1).
    set (s2 := emit (EvRun w) (set_has (<[id w:=MNull]> (has s1)) s1)).
    destruct (invoke_quiet (watcher_run W w) s2 (proj1 Hwq)) as (n3 & s3 & [] & E3).
    simpl in *.
    set (s4 := set_index (S (index s3)) s3).
    destruct (IH s4) as (n5 & s5 & l5 & Q5 & X5 & A5 & F5 & I5 & W5 & L5 & R5 & Wn5 & E5).
    { simpl. rewrite calm_queue0, calm_index0, Q1, X1. lia. }
    { simpl. rewrite calm_queue0, calm_index0, Q1, X1. lia. }
    { simpl. rewrite calm_queue0, calm_index0, Q1, X1. intros x Hx. apply Hq.
      rewrite (drop_S _ _ _ Hw). by apply list_elem_of_further. }
    simpl in *.
    exists (S (Nat.max (Nat.max n1 n3) n5)), s5, (l1 ++ EvRun w :: l5).
    split; [congruence|]. split; [congruence|]. split; [congruence|].
    split; [congruence|]. split; [congruence|]. split; [congruence|].
    split; [rewrite L5, calm_log0, L1; by rewrite <-!app_assoc|].
    split.
    { rewrite runs_app, R1. change (runs (EvRun w :: l5)) with (w :: runs l5).
      rewrite R5, calm_queue0, calm_index0, Q1, X1. simpl.
      by rewrite <-(drop_S _ _ _ Hw). }
    split.
    { rewrite warnings_app, Wn1. exact Wn5. }
    intros m [|n] Hm Hn; [lia|]. simpl. rewrite Hw.
    rewrite E1 by lia. fold s2. rewrite E3 by lia.
    assert (Hnull : is_nullish (has s3 !! id w) = true).
    { rewrite calm_has0. by rewrite lookup_insert_eq. }
    rewrite Hnull, andb_false_r. apply E5; lia.
Qed.

(** The whole loop, callbacks included. *)
Lemma drain_quiet limit : forall cbs s,
  afterFlushCallbacks s = cbs ->
  (index s <= length (queue s))%nat ->
  (forall w, w ∈ drop (index s) (queue s) -> quiet_watcher W w) ->
  (forall f, f ∈ cbs -> quiet_fn W f) ->
  exists n0 s' l,
    queue s' = queue s /\ index s' = length (queue s) /\
    afterFlushCallbacks s' = [] /\
    flushing s' = flushing s /\ insideRun s' = insideRun s /\
    log s' = log s ++ l /\ runs l = drop (index s) (queue s) /\ warnings l = [] /\
    forall m n, (n0 <= m)%nat -> (n0 <= n)%nat ->
      drain W (exec W m) n limit s = Some (Returned, s').
Proof.
  induction cbs as [|func rest IH]; intros s Hcbs Hle Hq Hf.
  - destruct (scan_quiet limit _ s eq_refl Hle Hq)
      as (n1 & s1 & l1 & Q1 & X1 & A1 & F1 & I1 & W1 & L1 & R1 & Wn1 & E1).
    exists (S (S n1)), s1, l1.
    repeat split; try done; [congruence|].
    intros m [|n] Hm Hn; [lia|]. simpl.
    destruct (bool_decide _ || bool_decide _) eqn:Hc.
    + rewrite E1 by lia. rewrite A1, Hcbs.
      destruct n as [|n]; [lia|]. simpl.
      rewrite A1, Hcbs, X1, Q1.
      rewrite bool_decide_eq_false_2 by (intros H; by apply H).
      by rewrite bool_decide_eq_false_2 by (intros H; by apply H).
    + apply orb_false_iff in Hc as [Hc1%bool_decide_eq_false _].
      apply dec_stable in Hc1.
      assert (Hs : scan W (exec W m) (S n1) limit s = Some (Returned, s))
        by (simpl; by rewrite (proj2 (lookup_ge_None _ _)) by lia).
      rewrite E1 in Hs by lia. by injection Hs as ->.
  - destruct (scan_quiet limit _ s eq_refl Hle Hq)
      as (n1 & s1 & l1 & Q1 & X1 & A1 & F1 & I1 & W1 & L1 & R1 & Wn1 & E1).
    set (s2 := emit (EvCallback func) (set_afterFlushCallbacks rest s1)).
    destruct (invoke_quiet (fn_body W func) s2) as (n3 & s3 & [] & E3).
    { apply Hf, list_elem_of_here. }
    simpl in *.
    destruct (IH s3) as (n5 & s5 & l5 & Q5 & X5 & A5 & F5 & I5 & L5 & R5 & Wn5 & E5).
    { done. }
    { rewrite calm_queue0, calm_index0, Q1, X1. lia. }
    { rewrite calm_queue0, calm_index0, X1, Q1, drop_all. by intros w ?%elem_of_nil. }
    { intros f ?. by apply Hf, list_elem_of_further. }
    exists (S (Nat.max (Nat.max n1 n3) n5)), s5, (l1 ++ EvCallback func :: l5).
    split; [congruence|]. split; [congruence|]. split; [done|].
    split; [congruence|]. split; [congruence|].
    split; [rewrite L5, calm_log0, L1; by rewrite <-!app_assoc|].
    split.
    { rewrite runs_app, R1. change (runs (EvCallback func :: l5)) with (runs l5).
      rewrite R5, calm_queue0, calm_index0, X1, Q1, drop_all. by rewrite app_nil_r. }
    split.
    { rewrite warnings_app, Wn1. exact Wn5. }
    intros m [|n] Hm Hn; [lia|]. simpl.
    rewrite Hcbs. rewrite (bool_decide_eq_true_2 (func :: rest ≠ [])) by done.
    rewrite orb_true_r, E1 by lia. rewrite A1, Hcbs. fold s2.
    rewrite E3 by lia. apply E5; lia.
Qed.
End Quiet.

Lemma runs_activated_events q : runs (activated_events q) = [].
Proof. induction q; [done|]. simpl. done. Qed.

Lemma runs_updated_events {Ext : Type} (s : State Ext) q i :
  runs (updated_events s q i) = [].
Proof.
  unfold updated_events. induction (filter _ _) as [|w l IH]; [done|]. exact IH.
Qed.

Lemma sort_queue_cons_min w rest :
  Forall (fun x => (id w < id x)%Z) rest ->
  sort_queue (w :: rest) = w :: sort_queue rest.
Proof.
  intros Hall. simpl.
  assert (Hs : Forall (fun x => (id w < id x)%Z) (sort_queue rest))
    by (by rewrite sort_queue_perm).
  destruct (sort_queue rest) as [|x l]; [done|]. simpl.
  apply Forall_cons in Hs as [Hx _].
  destruct (Z.leb_spec (id w) (id x)); [done|lia].
Qed.

(** A flush of quiet watchers and callbacks returns, having run the queue
    in sorted order. *)
Lemma flush_quiet {Ext : Type} (W : World Ext) (m : option Z) (s : State Ext) :
  flushing s = false -> insideRun s = false ->
  (forall w, w ∈ queue s -> quiet_watcher W w) ->
  (forall f, f ∈ afterFlushCallbacks s -> quiet_fn W f) ->
  exists fuel0 s' l,
    log s' = log s ++ l /\ runs l = sort_queue (queue s) /\ warnings l = [] /\
    queue s' = [] /\ has s' = ∅ /\ flushing s' = false /\ waiting s' = false /\
    forall fuel, (fuel0 <= fuel)%nat ->
      flushSchedulerQueue W (exec W fuel) fuel m s = Some (Returned, s').
Proof.
  intros Hf Hi Hq Hcb.
  destruct (drain_quiet W (effective_limit m) (afterFlushCallbacks s) (flush_begin W s))
    as (n0 & s1 & l & Q1 & X1 & A1 & F1 & I1 & L1 & R1 & Wn1 & E1).
  { done. }
  { simpl. lia. }
  { simpl. intros w Hw. apply Hq. by rewrite <-(sort_queue_perm (queue s)). }
  { done. }
  simpl in *.
  destruct (flush_finally_spec W s1) as (s' & Hfin & Hq' & _ & Hh & _ & Hw & Hf' & _ & _ & _ & Hl);
    [by rewrite X1, Q1|].
  exists n0, s', (l ++ activated_events (activatedChildren s1)
                   ++ updated_events (resetSchedulerState W s1) (queue s1) (index s1)
                   ++ (if devtools_enabled W then [EvDevtoolsFlush] else [])).
  split; [rewrite Hl, L1; by rewrite <-!app_assoc|].
  split.
  { rewrite !runs_app, R1, runs_activated_events, runs_updated_events.
    destruct (devtools_enabled W); simpl; by rewrite app_nil_r. }
  split.
  { rewrite !warnings_app, Wn1. simpl.
    assert (Ha : forall q, warnings (activated_events q) = [])
      by (intros q; induction q; done).
    assert (Hu : forall t q i, warnings (@updated_events Ext t q i) = []).
    { intros t q i. unfold updated_events.
      induction (filter _ _) as [|w l' IH]; [done|]. exact IH. }
    rewrite Ha, Hu. by destruct (devtools_enabled W). }
  split; [rewrite Hq', X1, Q1; apply drop_all|].
  split; [done|]. split; [done|]. split; [done|].
  intros fuel Hfuel. unfold flushSchedulerQueue, flush_protected.
  rewrite Hf, Hi, E1 by done. by rewrite Hfin.
Qed.

(** ** One iteration of the loop over the queue *)

Section Steps.
Context {Ext : Type} (W : World Ext).
Variable run : list cmd -> State Ext -> Result Ext.
Implicit Type s : State Ext.

(** The watcher at the cursor has run and is not marked in [has] (or the
    build is a production build): the cursor moves on. *)
Lemma scan_step n limit s w s1 s3 :
  queue s !! index s = Some w ->
  call_before W run w s = Some (Returned, s1) ->
  invoke run (watcher_run W w)
    (emit (EvRun w) (set_has (<[id w:=MNull]> (has s1)) s1)) = Some (Returned, s3) ->
  production W = true \/ is_nullish (has s3 !! id w) = true ->
  scan W run (S n) limit s = scan W run n limit (set_index (S (index s3)) s3).
Proof.
  intros Hw Hb Hr Hc. simpl. rewrite Hw, Hb, Hr.
  by destruct Hc as [-> | ->]; rewrite ?andb_false_r.
Qed.

(** The watcher at the cursor has run and is marked in [has] again: its
    count goes up, and the loop goes on or gives up. *)
Lemma scan_step_requeued n limit s w s1 s3 :
  production W = false ->
  queue s !! index s = Some w ->
  call_before W run w s = Some (Returned, s1) ->
  invoke run (watcher_run W w)
    (emit (EvRun w) (set_has (<[id w:=MNull]> (has s1)) s1)) = Some (Returned, s3) ->
  has s3 !! id w = Some MTrue ->
  let c := (default 0 (circular s3 !! id w) + 1)%Z in
  let s4 := set_circular (<[id w:=c]> (circular s3)) s3 in
  scan W run (S n) limit s =
    if (limit <? c)%Z
    then Some (Returned,
               set_index (length (queue s3))
                 (emit (EvWarn (loop_warning w) (vm w)) s4))
    else scan W run n limit (set_index (S (index s3)) s4).
Proof.
  intros Hp Hw Hb Hr Hh. simpl. by rewrite Hw, Hb, Hr, Hp, Hh.
Qed.

(** The [run] of the watcher at the cursor throws: the exception leaves
    both loops. *)
Lemma scan_run_throws n limit s w s1 e s3 :
  queue s !! index s = Some w ->
  call_before W run w s = Some (Returned, s1) ->
  invoke run (watcher_run W w)
    (emit (EvRun w) (set_has (<[id w:=MNull]> (has s1)) s1)) = Some (Thrown e, s3) ->
  scan W run (S n) limit s = Some (Thrown e, s3) /\
  drain W run (S (S n)) limit s = Some (Thrown e, s3).
Proof.
  intros Hw Hb Hr.
  assert (Hs : scan W run (S n) limit s = Some (Thrown e, s3))
    by (simpl; by rewrite Hw, Hb, Hr).
  split; [done|].
  change (drain W run (S (S n)) limit s) with
    (if bool_decide (length (queue s) ≠ index s)
        || bool_decide (afterFlushCallbacks s ≠ [])
     then match scan W run (S n) limit s with
          | Some (Returned, s1) =>
              match afterFlushCallbacks s1 with
              | [] => drain W run (S n) limit s1
              | func :: rest =>
                  let s2 := emit (EvCallback func) (set_afterFlushCallbacks rest s1) in
                  match invoke run (fn_body W func) s2 with
                  | Some (Returned, s3) => drain W run (S n) limit s3
                  | Some (Thrown e, s3) =>
                      drain W run (S n) limit (emit (EvHandleError e callback_error_info) s3)
                  | None => None
                  end
              end
          | r => r
          end
     else Some (Returned, s)).
  apply lookup_lt_Some in Hw.
  rewrite bool_decide_eq_true_2 by lia. simpl orb. cbv iota. by rewrite Hs.
Qed.

(** With the cursor at the end and no callback left, the loops end. *)
Lemma drain_done n limit s :
  index s = length (queue s) -> afterFlushCallbacks s = [] ->
  drain W run (S n) limit s = Some (Returned, s).
Proof.
  intros Hi Ha. simpl. rewrite Ha, Hi.
  rewrite bool_decide_eq_false_2 by (intros H; by apply H).
  by rewrite bool_decide_eq_false_2 by (intros H; by apply H).
Qed.

(** A pass over the queue that returns, with no callback left. *)
Lemma drain_one_scan n limit s s' :
  index s <> length (queue s) ->
  scan W run (S n) limit s = Some (Returned, s') ->
  index s' = length (queue s') -> afterFlushCallbacks s' = [] ->
  drain W run (S (S n)) limit s = Some (Returned, s').
Proof.
  intros Hne Hs Hi Ha.
  change (drain W run (S (S n)) limit s) with
    (if bool_decide (length (queue s) ≠ index s)
        || bool_decide (afterFlushCallbacks s ≠ [])
     then match scan W run (S n) limit s with
          | Some (Returned, s1) =>
              match afterFlushCallbacks s1 with
              | [] => drain W run (S n) limit s1
              | func :: rest =>
                  let s2 := emit (EvCallback func) (set_afterFlushCallbacks rest s1) in
                  match invoke run (fn_body W func) s2 with
                  | Some (Returned, s3) => drain W run (S n) limit s3
                  | Some (Thrown e, s3) =>
                      drain W run (S n) limit (emit (EvHandleError e callback_error_info) s3)
                  | None => None
                  end
              end
          | r => r
          end
     else Some (Returned, s)).
  rewrite bool_decide_eq_true_2 by done. simpl orb. cbv iota.
  rewrite Hs, Ha. by apply drain_done.
Qed.
End Steps.

Lemma splice_position_skip q k wid n :
  (S k <= n)%nat -> (n <= length q)%nat ->
  (forall j x, (k < j < n)%nat -> q !! j = Some x -> (wid < id x)%Z) ->
  splice_position q k wid n = S k.
Proof.
  induction n as [|i IH]; intros Hk Hn Hq; [lia|]. simpl.
  destruct (decide (i = k)) as [->|Hne].
  - by rewrite Nat.ltb_irrefl.
  - destruct (lookup_lt_is_Some_2 q i) as [x Hx]; [lia|]. rewrite Hx.
    rewrite (proj2 (Nat.ltb_lt k i)) by lia.
    rewrite (proj2 (Z.ltb_lt wid (id x))) by (apply (Hq i x); [lia|done]).
    simpl. apply IH; [lia|lia|]. intros j y Hj. apply Hq. lia.
Qed.

(** ** A watcher that queues itself *)

Section Runaway.
Context {Ext : Type} (W : World Ext).
Variables (w : Watcher) (rest : list Watcher) (limit : Z).
Hypothesis dev : production W = false.
Hypothesis no_before : watcher_before W w = None.
Hypothesis requeues : forall e, (watcher_run W w e).2 = [CQueueWatcher w].
Hypothesis rest_above : Forall (fun x => (id w < id x)%Z) rest.
Implicit Type s : State Ext.

Lemma splice_behind_copies k :
  splice_in
    (splice_position (replicate (S k) w ++ rest) k (id w)
       (length (replicate (S k) w ++ rest)))
    w (replicate (S k) w ++ rest)
  = replicate (S (S k)) w ++ rest.
Proof.
  rewrite splice_position_skip.
  - unfold splice_in.
    rewrite take_app_length', drop_app_length' by (by rewrite length_replicate).
    rewrite (replicate_S_end (S k)). by rewrite <-app_assoc.
  - rewrite length_app, length_replicate. lia.
  - done.
  - intros j x [Hj _] Hx. rewrite lookup_app_r in Hx by (rewrite length_replicate; lia).
    rewrite Forall_forall in rest_above. apply rest_above.
    by eapply list_elem_of_lookup_2.
Qed.

(** One run of the watcher at the cursor, in front of [k] earlier copies
    of itself: it splices one more copy in behind the cursor. *)
Lemma runaway_run k s :
  flushing s = true -> waiting s = true ->
  queue s = replicate (S k) w ++ rest -> index s = k ->
  exists s3,
    (forall m, (2 <= m)%nat ->
       invoke (exec W m) (watcher_run W w)
         (emit (EvRun w) (set_has (<[id w:=MNull]> (has s)) s)) = Some (Returned, s3)) /\
    queue s3 = replicate (S (S k)) w ++ rest /\ index s3 = k /\
    has s3 !! id w = Some MTrue /\ circular s3 = circular s /\
    flushing s3 = true /\ waiting s3 = true /\ insideRun s3 = insideRun s /\
    afterFlushCallbacks s3 = afterFlushCallbacks s /\
    log s3 = log s ++ [EvRun w].
Proof.
  intros Hf Hw Hq Hi.
  pose proof (requeues (ext s)) as Hrun.
  destruct (watcher_run W w (ext s)) as [e cs] eqn:He. simpl in Hrun. subst cs.
  eexists. split.
  - intros [|[|m]] Hm; [lia|lia|]. unfold invoke. simpl. rewrite He. simpl.
    unfold queueWatcher. simpl. rewrite lookup_insert_eq. simpl. rewrite Hf.
    unfold requireFlush. simpl. rewrite Hw. reflexivity.
  - simpl. rewrite Hq, Hi, splice_behind_copies, lookup_insert_eq.
    by repeat split.
Qed.

(** The loop from a cursor on the watcher: it runs once more for every
    unit the limit is above the count, gives the warning and stops with
    the cursor at the end of the queue. *)
Lemma runaway_scan d : forall k s c,
  flushing s = true -> waiting s = true ->
  queue s = replicate (S k) w ++ rest -> index s = k ->
  default 0%Z (circular s !! id w) = c -> Z.to_nat (limit - c) = d ->
  exists s',
    (forall m n, (2 <= m)%nat -> (d + 1 <= n)%nat ->
       scan W (exec W m) n limit s = Some (Returned, s')) /\
    index s' = length (queue s') /\
    insideRun s' = insideRun s /\ flushing s' = true /\
    afterFlushCallbacks s' = afterFlushCallbacks s /\
    log s' = log s ++ replicate (S d) (EvRun w) ++ [EvWarn (loop_warning w) (vm w)].
Proof.
  induction d as [|d IH]; intros k s c Hf Hw Hq Hi Hc Hd.
  - destruct (runaway_run k s Hf Hw Hq Hi)
      as (s3 & Hr & Q3 & X3 & H3 & C3 & F3 & W3 & I3 & A3 & L3).
    eexists. split.
    + intros m [|n] Hm Hn; [lia|].
      rewrite (scan_step_requeued W _ n limit s w s s3 dev); try done.
      * assert (Hc3 : default 0%Z (circular s3 !! id w) = c) by (by rewrite C3).
        rewrite Hc3. rewrite (proj2 (Z.ltb_lt limit (c + 1))) by lia. reflexivity.
      * rewrite Hq, Hi. apply lookup_app_l_Some, lookup_replicate_2. lia.
      * unfold call_before. by rewrite no_before.
      * by apply Hr.
    + simpl. rewrite L3. by rewrite <-app_assoc.
  - destruct (runaway_run k s Hf Hw Hq Hi)
      as (s3 & Hr & Q3 & X3 & H3 & C3 & F3 & W3 & I3 & A3 & L3).
    set (s4 := set_index (S (index s3))
                 (set_circular (<[id w:=(c + 1)%Z]> (circular s3)) s3)).
    destruct (IH (S k) s4 (c + 1)%Z) as (s' & Hs & X' & I' & F' & A' & L');
      [done|done|done|by (simpl; rewrite X3)|by (simpl; rewrite lookup_insert_eq)|lia|].
    unfold s4 in I', A', L'. simpl in I', A', L'.
    exists s'. split; [|split; [done|split; [congruence|split; [done|split]]]].
    + intros m [|n] Hm Hn; [lia|].
      rewrite (scan_step_requeued W _ n limit s w s s3 dev); try done.
      * assert (Hc3 : default 0%Z (circular s3 !! id w) = c) by (by rewrite C3).
        rewrite Hc3. rewrite (proj2 (Z.ltb_ge limit (c + 1))) by lia.
        apply Hs; lia.
      * rewrite Hq, Hi. apply lookup_app_l_Some, lookup_replicate_2. lia.
      * unfold call_before. by rewrite no_before.
      * by apply Hr.
    + congruence.
    + rewrite L', L3. by rewrite <-app_assoc.
Qed.
End Runaway.

Lemma runs_replicate_run w n : runs (replicate n (EvRun w)) = replicate n w.
Proof. induction n; [done|]. simpl. by f_equal. Qed.

Lemma warnings_replicate_run w n : warnings (replicate n (EvRun w)) = [].
Proof. induction n; [done|]. exact IHn. Qed.

Lemma warnings_activated_events q : warnings (activated_events q) = [].
Proof. induction q; done. Qed.

Lemma warnings_updated_events {Ext : Type} (s : State Ext) q i :
  warnings (updated_events s q i) = [].
Proof.
  unfold updated_events. induction (filter _ _) as [|w l IH]; [done|]. exact IH.
Qed.

(** ** Order of execution *)

(** C1: when the watchers in the queue and the pending callbacks queue
    nothing while they run, a flush sorts the queue by ascending id and
    runs the watchers in exactly that order; watchers queued with ids 3,
    1, 2 run in the order 1, 2, 3. *)
Theorem C1_flush_runs_in_id_order {Ext : Type} (W : World Ext)
    (maxUpdateCount : option Z) (s : State Ext) :
  flushing s = false -> insideRun s = false ->
  (forall w, w ∈ queue s -> quiet_watcher W w) ->
  (forall f, f ∈ afterFlushCallbacks s -> quiet_fn W f) ->
  queue (flush_begin W s) = sort_queue (queue s) /\
  ascending (sort_queue (queue s)) /\
  sort_queue (queue s) ≡ₚ queue s /\
  (exists fuel0 s' l,
     log s' = log s ++ l /\ runs l = sort_queue (queue s) /\
     forall fuel, (fuel0 <= fuel)%nat ->
       flushSchedulerQueue W (exec W fuel) fuel maxUpdateCount s
         = Some (Returned, s')) /\
  (forall a b c, id a = 3%Z -> id b = 1%Z -> id c = 2%Z ->
     queue s = [a; b; c] -> sort_queue (queue s) = [b; c; a]).
Proof.
  intros Hf Hi Hq Hcb.
  split; [done|]. split; [apply sort_queue_ascending|].
  split; [apply sort_queue_perm|]. split.
  - destruct (flush_quiet W maxUpdateCount s Hf Hi Hq Hcb)
      as (fuel0 & s' & l & Hl & Hr & _ & _ & _ & _ & _ & Hfl).
    by exists fuel0, s', l.
  - intros a b c Ha Hb Hc Hqs. rewrite Hqs. simpl. rewrite Hb, Hc. simpl.
    by rewrite Ha, Hb, Hc.
Qed.

Lemma C1_flush_runs_in_id_order_witness :
  let W := Examples.inert in
  let s := Examples.queued [Examples.job 3; Examples.job 1; Examples.job 2] in
  exists fuel0 s' l,
    log s' = log s ++ l /\
    runs l = [Examples.job 1; Examples.job 2; Examples.job 3] /\
    forall fuel, (fuel0 <= fuel)%nat ->
      flushSchedulerQueue W (exec W fuel) fuel None s = Some (Returned, s').
Proof.
  intros W s.
  destruct (C1_flush_runs_in_id_order W None s) as (_ & _ & _ & H & _).
  - reflexivity.
  - reflexivity.
  - intros w _. split; [|exact I]. intros e. constructor.
  - intros f _. intros e. constructor.
  - exact H.
Defined.

(** ** Deduplication *)

(** C2: [queueWatcher] of a watcher whose id is marked in [has] changes
    nothing at all.  So, where the flush is deferred, queueing a watcher
    twice (or two watchers with one id) before the flush puts one entry in
    the queue, and a flush of quiet watchers runs the watcher once. *)
Theorem C2_enqueue_idempotent {Ext : Type} (W : World Ext)
    (run : list cmd -> State Ext -> Result Ext) (n : nat)
    (maxUpdateCount : option Z) (w w' : Watcher) (s : State Ext) :
  (has s !! id w = Some MTrue -> queueWatcher W run n w s = Some (Returned, s)) /\
  (production W = true \/ config_async W = true ->
   flushing s = false -> insideRun s = false ->
   is_nullish (has s !! id w) = true ->
   (forall x, x ∈ queue s -> id x <> id w) ->
   id w' = id w ->
   quiet_watcher W w ->
   (forall x, x ∈ queue s -> quiet_watcher W x) ->
   (forall f, f ∈ afterFlushCallbacks s -> quiet_fn W f) ->
   exists s1,
     queueWatcher W run n w s = Some (Returned, s1) /\
     queueWatcher W run n w' s1 = Some (Returned, s1) /\
     queue s1 = queue s ++ [w] /\
     exists fuel0 s' l,
       log s' = log s1 ++ l /\
       filter (fun x => id x = id w) (runs l) = [w] /\
       forall fuel, (fuel0 <= fuel)%nat ->
         flushSchedulerQueue W (exec W fuel) fuel maxUpdateCount s1
           = Some (Returned, s')).
Proof.
  split.
  { intros Hh. unfold queueWatcher. by rewrite Hh. }
  intros Hcfg Hf Hi Hnull Hfresh Hid Hw Hq Hcb.
  assert (Hsync : negb (production W) && negb (config_async W) = false)
    by (destruct Hcfg as [-> | ->]; by rewrite ?andb_false_r).
  assert (exists s1, queueWatcher W run n w s = Some (Returned, s1) /\
            queue s1 = queue s ++ [w] /\ has s1 !! id w = Some MTrue /\
            flushing s1 = false /\ insideRun s1 = false /\
            afterFlushCallbacks s1 = afterFlushCallbacks s)
    as (s1 & Hq1 & Hqueue & Hhas & Hf1 & Hi1 & Hcb1).
  { unfold queueWatcher. rewrite Hnull. simpl. rewrite Hf.
    unfold requireFlush. simpl. rewrite Hsync.
    destruct (waiting s); eexists; (split; [reflexivity|]); simpl;
      by rewrite lookup_insert_eq. }
  exists s1. split; [done|]. split.
  { unfold queueWatcher. by rewrite Hid, Hhas. }
  split; [done|].
  destruct (flush_quiet W maxUpdateCount s1 Hf1 Hi1)
    as (fuel0 & s' & l & Hl & Hr & _ & _ & _ & _ & _ & Hfl).
  { rewrite Hqueue. intros x [Hx| ->%list_elem_of_singleton]%elem_of_app; auto. }
  { by rewrite Hcb1. }
  exists fuel0, s', l. split; [done|]. split; [|done].
  apply Permutation_singleton_r.
  rewrite Hr, sort_queue_perm, Hqueue, filter_app, filter_cons.
  rewrite decide_True by done. rewrite filter_nil.
  replace (filter (fun x => id x = id w) (queue s)) with (@nil Watcher); [done|].
  symmetry. clear -Hfresh. induction (queue s) as [|x q IH]; [done|].
  rewrite filter_cons, decide_False by (apply Hfresh, list_elem_of_here).
  apply IH. intros y Hy. by apply Hfresh, list_elem_of_further.
Qed.

Lemma C2_enqueue_idempotent_witness :
  let W := Examples.inert in
  queueWatcher W (exec W 1) 1 (Examples.job 7) (Examples.queued [Examples.job 7])
    = Some (Returned, Examples.queued [Examples.job 7]) /\
  exists s1,
    queueWatcher W (exec W 1) 1 (Examples.job 7) Examples.idle = Some (Returned, s1) /\
    queueWatcher W (exec W 1) 1 (Examples.job 7) s1 = Some (Returned, s1) /\
    queue s1 = [Examples.job 7] /\
    exists fuel0 s' l,
      log s' = log s1 ++ l /\
      filter (fun x => id x = 7%Z) (runs l) = [Examples.job 7] /\
      forall fuel, (fuel0 <= fuel)%nat ->
        flushSchedulerQueue W (exec W fuel) fuel None s1 = Some (Returned, s').
Proof.
  intros W. split.
  { apply (C2_enqueue_idempotent W (exec W 1) 1 None (Examples.job 7)
             (Examples.job 7) (Examples.queued [Examples.job 7])).
    reflexivity. }
  destruct (C2_enqueue_idempotent W (exec W 1) 1 None (Examples.job 7)
              (Examples.job 7) Examples.idle) as [_ H].
  apply H.
  - right. reflexivity.
  - reflexivity.
  - reflexivity.
  - reflexivity.
  - intros x Hx. by apply elem_of_nil in Hx.
  - reflexivity.
  - split; [|exact I]. intros e. constructor.
  - intros x Hx. by apply elem_of_nil in Hx.
  - intros f Hx. by apply elem_of_nil in Hx.
Defined.

(** ** Queueing a watcher during a flush *)

(** C3 as stated fails: while an after-flush callback runs, the cursor is
    at the end of the queue, and the first watcher it queues goes in at
    the cursor, not after it; the next one goes in behind the first
    whatever its id.  Function 0 queues watchers 5 and 2, which then run
    in that order. *)
Lemma C3_counterexample :
  let W := Examples.late_callback in
  let t := set_flushing true (set_waiting true Examples.idle) in
  flushing t = true /\ is_nullish (has t !! 5%Z) = true /\
  splice_position (queue t) (index t) 5%Z (length (queue t)) = index t /\
  (exists t', queueWatcher W (exec W 1) 1 (Examples.job 5) t = Some (Returned, t') /\
              queue t' !! index t = Some (Examples.job 5)) /\
  (exists s', flushSchedulerQueue W (exec W 9) 9 None
                (set_afterFlushCallbacks [0%nat] (set_waiting true Examples.idle))
                = Some (Returned, s') /\
              runs (log s') = [Examples.job 5; Examples.job 2]).
Proof.
  intros W t. split; [done|]. split; [done|]. split; [done|]. split.
  - eexists. split; [vm_compute; reflexivity|]. reflexivity.
  - eexists. split; [vm_compute; reflexivity|]. vm_compute. reflexivity.
Qed.

(** C3, amended: [queueWatcher], called while a flush is active for an id
    not marked in [has], marks the id and splices the watcher in at the
    position [p] where the backward scan stops: every entry from [p] on
    has a greater id, the entry before [p] has not unless it is the entry
    at the cursor, [p] is after the cursor when the cursor is on an entry
    of the queue, and [p] is the end of the queue when the cursor is at the
    end.  The entries after the cursor, if sorted by ascending id, stay
    sorted.  So a watcher that, when run, queues a watcher with a smaller
    id (5 queues 2) is followed by that watcher in the same flush. *)
Theorem C3_insert_during_flush {Ext : Type} (W : World Ext) :
  (forall (run : list cmd -> State Ext -> Result Ext) (n : nat)
          (watcher : Watcher) (s : State Ext),
     flushing s = true -> is_nullish (has s !! id watcher) = true ->
     let p := splice_position (queue s) (index s) (id watcher) (length (queue s)) in
     (exists o s',
        queueWatcher W run n watcher s = Some (o, s') /\
        queue s' = take p (queue s) ++ watcher :: drop p (queue s) /\
        queue s' !! p = Some watcher /\
        has s' = <[id watcher:=MTrue]> (has s) /\ index s' = index s /\
        (ascending (drop (S (index s)) (queue s)) ->
         ascending (drop (S (index s)) (queue s')))) /\
     (p <= length (queue s))%nat /\
     ((index s < length (queue s))%nat -> (index s < p)%nat) /\
     ((length (queue s) <= index s)%nat -> p = length (queue s)) /\
     (forall j x, (p <= j)%nat -> queue s !! j = Some x -> (id watcher < id x)%Z) /\
     (forall x, (S (index s) < p)%nat -> queue s !! (p - 1)%nat = Some x ->
                (id x <= id watcher)%Z)) /\
  (forall (w5 w2 : Watcher) (maxUpdateCount : option Z) (s : State Ext),
     (id w2 < id w5)%Z ->
     watcher_before W w5 = None -> watcher_before W w2 = None ->
     (forall e, watcher_run W w5 e = (e, [CQueueWatcher w2])) ->
     (forall e, watcher_run W w2 e = (e, [])) ->
     flushing s = false -> insideRun s = false -> waiting s = true ->
     queue s = [w5] -> afterFlushCallbacks s = [] ->
     is_nullish (has s !! id w2) = true ->
     exists fuel0 s' l,
       log s' = log s ++ l /\ runs l = [w5; w2] /\
       forall fuel, (fuel0 <= fuel)%nat ->
         flushSchedulerQueue W (exec W fuel) fuel maxUpdateCount s
           = Some (Returned, s')).
Proof.
  split.
  - intros run n watcher s Hf Hnull p.
    destruct (splice_position_spec (queue s) (index s) (id watcher)
                (length (queue s))) as (H1 & H2 & H3 & H4); [lia|]. fold p in H1, H2, H3, H4.
    split; [|repeat split].
    + assert (exists o s', requireFlush W run n
                (set_queue (splice_in p watcher (queue s))
                   (set_has (<[id watcher:=MTrue]> (has s)) s)) = Some (o, s') /\
                queue s' = splice_in p watcher (queue s) /\
                has s' = <[id watcher:=MTrue]> (has s) /\ index s' = index s)
        as (o & s' & Hr & Hq & Hh & Hi).
      { unfold requireFlush. simpl. destruct (waiting s).
        - by eexists _, _.
        - destruct (negb (production W) && negb (config_async W)).
          + rewrite flush_guard_flushing by done. by eexists _, _.
          + by eexists _, _. }
      exists o, s'. unfold queueWatcher. rewrite Hnull. simpl. rewrite Hf.
      fold p. split; [done|]. split; [done|]. split.
      { rewrite Hq. by apply splice_in_lookup_eq. }
      split; [done|]. split; [done|].
      rewrite Hq. apply splice_keeps_ascending.
    + done.
    + lia.
    + lia.
    + intros j x Hj Hx. apply (H3 j x); [|done].
      apply lookup_lt_Some in Hx. lia.
    + done.
  - intros w5 w2 m s Hid Hb5 Hb2 Hr5 Hr2 Hf Hi Hw Hq Ha Hnull.
    set (sb := flush_begin W s).
    set (s3 := set_queue [w5; w2]
                 (set_has (<[id w2:=MTrue]> (<[id w5:=MNull]> (has s)))
                    (emit (EvRun w5) sb))).
    assert (Hqb : queue sb = [w5]) by (unfold sb; simpl; by rewrite Hq).
    assert (Hstep : forall k n limit, scan W (exec W (S (S k))) (S n) limit sb
                      = scan W (exec W (S (S k))) n limit (set_index 1 s3)).
    { intros k n limit.
      rewrite (scan_step W _ n limit sb w5 sb s3).
      - done.
      - by rewrite Hqb.
      - unfold call_before. by rewrite Hb5.
      - unfold invoke. rewrite Hr5. simpl. unfold queueWatcher. simpl.
        rewrite lookup_insert_ne by lia. rewrite Hnull. simpl.
        unfold requireFlush. simpl. rewrite Hw, Hq. simpl.
        destruct k; by destruct s.
      - right. unfold s3. simpl. rewrite lookup_insert_ne by lia.
        by rewrite lookup_insert_eq. }
    destruct (scan_quiet W (effective_limit m) 1 (set_index 1 s3))
      as (n0 & s5 & l5 & Q5 & X5 & A5 & F5 & I5 & W5 & L5 & R5 & Wn5 & E5).
    { done. }
    { simpl. lia. }
    { simpl. intros w ->%list_elem_of_singleton. split.
      - intros e. rewrite Hr2. constructor.
      - by rewrite Hb2. }
    simpl in Q5, X5, A5, F5, I5, W5, L5, R5.
    destruct (flush_finally_spec W s5) as (s' & Hfin & _ & _ & _ & _ & _ & _ & _ & _ & _ & Hl);
      [rewrite X5, Q5; simpl; lia|].
    exists (S (S (S (S n0)))), s', (EvRun w5 :: l5
       ++ activated_events (activatedChildren s5)
       ++ updated_events (resetSchedulerState W s5) (queue s5) (index s5)
       ++ (if devtools_enabled W then [EvDevtoolsFlush] else [])).
    split; [rewrite Hl, L5; by rewrite <-!app_assoc|].
    split.
    { change (runs (EvRun w5 :: ?l)) with (w5 :: runs l).
      rewrite !runs_app, R5, runs_activated_events, runs_updated_events.
      by destruct (devtools_enabled W). }
    intros fuel Hfuel.
    destruct fuel as [|[|n]]; [lia|lia|].
    unfold flushSchedulerQueue, flush_protected. rewrite Hf, Hi. fold sb.
    rewrite (drain_one_scan W _ n (effective_limit m) sb s5).
    + by rewrite Hfin.
    + rewrite Hqb. done.
    + rewrite Hstep. apply E5; lia.
    + by rewrite X5, Q5.
    + by rewrite A5, Ha.
Qed.

Lemma C3_insert_during_flush_witness :
  let W := Examples.growing in
  (exists o s',
     queueWatcher W (exec W 1) 1 (Examples.job 2)
       (set_flushing true (Examples.queued [Examples.job 5])) = Some (o, s') /\
     queue s' = [Examples.job 5; Examples.job 2]) /\
  (exists fuel0 s' l,
     log s' = log (Examples.queued [Examples.job 5]) ++ l /\
     runs l = [Examples.job 5; Examples.job 2] /\
     forall fuel, (fuel0 <= fuel)%nat ->
       flushSchedulerQueue W (exec W fuel) fuel None (Examples.queued [Examples.job 5])
         = Some (Returned, s')).
Proof.
  intros W. destruct (C3_insert_during_flush W) as [HA HB]. split.
  - destruct (HA (exec W 1) 1%nat (Examples.job 2)
               (set_flushing true (Examples.queued [Examples.job 5])))
      as ((o & s' & Hq & Hqueue & _) & _); [reflexivity|reflexivity|].
    exists o, s'. split; [exact Hq|exact Hqueue].
  - apply (HB (Examples.job 5) (Examples.job 2) None
              (Examples.queued [Examples.job 5])); try reflexivity.
Defined.

(** ** The loop warning *)

(** C4: in a development build, when the watcher at the cursor has run, is
    marked in [has] again, and its count for this flush goes above the
    limit, the loop gives the warning naming it, puts the cursor at the end
    of the queue and stops; with no callback pending the flush loops end
    there, and the [finally] block empties the queue, so that the entries
    given up are not run.  A watcher that queues itself whenever it runs
    is therefore run [limit + 1] times; then the warning is given, the
    watchers behind it are not run, and the flush returns. *)
Theorem C4_circular_update_abort {Ext : Type} (W : World Ext) :
  production W = false ->
  (forall (run : list cmd -> State Ext -> Result Ext) (n : nat) (limit : Z)
          (watcher : Watcher) (s s1 s3 : State Ext),
     queue s !! index s = Some watcher ->
     call_before W run watcher s = Some (Returned, s1) ->
     invoke run (watcher_run W watcher)
       (emit (EvRun watcher) (set_has (<[id watcher:=MNull]> (has s1)) s1))
       = Some (Returned, s3) ->
     has s3 !! id watcher = Some MTrue ->
     let count := (default 0 (circular s3 !! id watcher) + 1)%Z in
     (limit < count)%Z ->
     let s' :=
       set_index (length (queue s3))
         (emit (EvWarn (loop_warning watcher) (vm watcher))
            (set_circular (<[id watcher:=count]> (circular s3)) s3)) in
     scan W run (S n) limit s = Some (Returned, s') /\
     (afterFlushCallbacks s3 = [] ->
      drain W run (S (S n)) limit s = Some (Returned, s')) /\
     queue (flush_finally W s').2 = []) /\
  (forall (w : Watcher) (rest : list Watcher) (maxUpdateCount : option Z)
          (s : State Ext),
     watcher_before W w = None ->
     (forall e, (watcher_run W w e).2 = [CQueueWatcher w]) ->
     Forall (fun x => (id w < id x)%Z) rest ->
     flushing s = false -> insideRun s = false -> waiting s = true ->
     queue s = w :: rest -> afterFlushCallbacks s = [] ->
     circular s !! id w = None ->
     exists fuel0 s' l,
       log s' = log s ++ l /\
       runs l = replicate (S (Z.to_nat (effective_limit maxUpdateCount))) w /\
       warnings l = [(loop_warning w, vm w)] /\
       queue s' = [] /\ has s' = ∅ /\ flushing s' = false /\ waiting s' = false /\
       forall fuel, (fuel0 <= fuel)%nat ->
         flushSchedulerQueue W (exec W fuel) fuel maxUpdateCount s
           = Some (Returned, s')).
Proof.
  intros dev. split.
  - intros run n limit watcher s s1 s3 Hw Hb Hr Hh count Hc s'.
    assert (Hscan : scan W run (S n) limit s = Some (Returned, s')).
    { rewrite (scan_step_requeued W run n limit s watcher s1 s3 dev Hw Hb Hr Hh).
      fold count. by rewrite (proj2 (Z.ltb_lt limit count)) by done. }
    split; [done|]. split.
    + intros Ha. apply drain_one_scan; try done.
      apply lookup_lt_Some in Hw. lia.
    + destruct (flush_finally_spec W s') as (s'' & Hfin & Hq & _); [done|].
      rewrite Hfin. simpl. rewrite Hq. apply drop_all.
  - intros w rest m s Hb Hr Hrest Hf Hi Hw Hq Ha Hc.
    set (sb := flush_begin W s).
    assert (Hrest' : Forall (fun x => (id w < id x)%Z) (sort_queue rest))
      by (by rewrite sort_queue_perm).
    destruct (runaway_scan W w (sort_queue rest) (effective_limit m) dev Hb Hr Hrest'
                (Z.to_nat (effective_limit m)) 0%nat sb 0%Z)
      as (s1 & Hs & X1 & I1 & F1 & A1 & L1).
    { done. }
    { done. }
    { unfold sb. simpl. rewrite Hq. by apply sort_queue_cons_min. }
    { done. }
    { unfold sb. simpl. by rewrite Hc. }
    { f_equal. lia. }
    destruct (flush_finally_spec W s1)
      as (s' & Hfin & Hq' & _ & Hh' & _ & Hw' & Hf' & _ & _ & _ & Hl); [lia|].
    set (d := Z.to_nat (effective_limit m)) in *.
    exists (S (S (S d))), s',
      (replicate (S d) (EvRun w) ++ [EvWarn (loop_warning w) (vm w)]
       ++ activated_events (activatedChildren s1)
       ++ updated_events (resetSchedulerState W s1) (queue s1) (index s1)
       ++ (if devtools_enabled W then [EvDevtoolsFlush] else [])).
    split; [rewrite Hl, L1; change (log sb) with (log s); by rewrite <-!app_assoc|].
    split.
    { rewrite !runs_app, runs_replicate_run, runs_activated_events, runs_updated_events.
      destruct (devtools_enabled W); simpl; by rewrite app_nil_r. }
    split.
    { rewrite !warnings_app, warnings_replicate_run, warnings_activated_events,
        warnings_updated_events.
      by destruct (devtools_enabled W). }
    split; [rewrite Hq', X1; apply drop_all|].
    split; [done|]. split; [done|]. split; [done|].
    intros fuel Hfuel. destruct fuel as [|[|n]]; [lia|lia|].
    unfold flushSchedulerQueue, flush_protected. rewrite Hf, Hi. fold sb.
    rewrite (drain_one_scan W _ n (effective_limit m) sb s1).
    + by rewrite Hfin.
    + unfold sb. simpl. rewrite Hq. by rewrite sort_queue_length.
    + apply Hs; lia.
    + done.
    + rewrite A1. unfold sb. simpl. done.
Qed.

Lemma C4_circular_update_abort_witness :
  let W := Examples.runaway in
  let s := Examples.queued [Examples.job 1; Examples.job 9] in
  (exists t',
     drain W (exec W 3) 2 (-1)%Z (set_flushing true s) = Some (Returned, t') /\
     index t' = length (queue t') /\
     warnings (log t') = [(loop_warning (Examples.job 1), 1%nat)]) /\
  exists fuel0 s' l,
    log s' = log s ++ l /\
    runs l = replicate 101 (Examples.job 1) /\
    warnings l = [(loop_warning (Examples.job 1), 1%nat)] /\
    queue s' = [] /\
    forall fuel, (fuel0 <= fuel)%nat ->
      flushSchedulerQueue W (exec W fuel) fuel None s = Some (Returned, s').
Proof.
  intros W s.
  destruct (C4_circular_update_abort W eq_refl) as [H1 H]. split.
  { edestruct (H1 (exec W 3) 0%nat (-1)%Z (Examples.job 1) (set_flushing true s))
      as (_ & Hd & _).
    - reflexivity.
    - reflexivity.
    - vm_compute. reflexivity.
    - vm_compute. reflexivity.
    - vm_compute. reflexivity.
    - eexists. split; [apply Hd; reflexivity|]. split; vm_compute; reflexivity. }
  destruct (H (Examples.job 1) [Examples.job 9] None s)
    as (fuel0 & s' & l & Hl & Hr & Hw & Hq & _ & _ & _ & Hfl); try reflexivity.
  - repeat constructor.
  - exists fuel0, s', l. repeat split; assumption.
Defined.

(** ** An exception from a watcher *)

(** C5: when the [run] of the watcher at the cursor throws, the loops of
    the flush do not catch the exception.  And an exception that leaves the
    loops (the [before] or the [run] of a watcher threw; what a callback
    throws is caught) is thrown by the flush itself, after the [finally]
    block: the entries before the cursor are removed, [has] is emptied,
    [flushing] and [waiting] are cleared, the activated and updated hooks
    are called, and [insideRun] is as before the flush, so that the guards
    of the next flush pass. *)
Theorem C5_job_exception_cleanup {Ext : Type} (W : World Ext) :
  (forall (run : list cmd -> State Ext -> Result Ext) (n : nat) (limit : Z)
          (watcher : Watcher) (s s1 s3 : State Ext) (e : string),
     queue s !! index s = Some watcher ->
     call_before W run watcher s = Some (Returned, s1) ->
     invoke run (watcher_run W watcher)
       (emit (EvRun watcher) (set_has (<[id watcher:=MNull]> (has s1)) s1))
       = Some (Thrown e, s3) ->
     scan W run (S n) limit s = Some (Thrown e, s3) /\
     drain W run (S (S n)) limit s = Some (Thrown e, s3)) /\
  (forall (fuel : nat) (maxUpdateCount : option Z) (s s1 : State Ext) (e : string),
     flushing s = false -> insideRun s = false ->
     drain W (exec W fuel) fuel (effective_limit maxUpdateCount) (flush_begin W s)
       = Some (Thrown e, s1) ->
     exists s',
       flushSchedulerQueue W (exec W fuel) fuel maxUpdateCount s = Some (Thrown e, s') /\
       queue s' = drop (index s1) (queue s1) /\
       activatedChildren s' = [] /\ has s' = ∅ /\ index s' = 0%nat /\
       flushing s' = false /\ waiting s' = false /\ insideRun s' = false /\
       log s' = log s1 ++ activated_events (activatedChildren s1)
                  ++ updated_events s1 (queue s1) (index s1)
                  ++ (if devtools_enabled W then [EvDevtoolsFlush] else []) /\
       (forall run n m,
          flushSchedulerQueue W run n m s' = flush_protected W run n m s')).
Proof.
  split; [intros; by eapply scan_run_throws|].
  intros fuel maxUpdateCount s s1 e Hf Hi Hd.
  destruct (flushSchedulerQueue W (exec W fuel) fuel maxUpdateCount s)
    as [[o s']|] eqn:Hfl; unfold flushSchedulerQueue in Hfl; rewrite Hf, Hi in Hfl.
  - apply flush_protected_spec in Hfl as (s1' & Hd' & _ & _ & _ & Hq & Ha & Hh & Hw & Hf' & Hi' & Hx & Hl);
      [|done].
    rewrite Hd in Hd'. injection Hd' as <- <-.
    exists s'. repeat split; try done.
    intros run n m. unfold flushSchedulerQueue. by rewrite Hf', Hi'.
  - unfold flush_protected in Hfl. rewrite Hd in Hfl.
    by destruct (flush_finally W s1) as [[|?] ?].
Qed.

Lemma C5_job_exception_cleanup_witness :
  let W := Examples.throwing in
  let s := Examples.queued [Examples.job 3; Examples.job 1; Examples.job 2] in
  (exists t',
     drain W (exec W 3) 2 100%Z (set_flushing true (Examples.queued [Examples.job 2]))
       = Some (Thrown "boom"%string, t')) /\
  exists s',
    flushSchedulerQueue W (exec W 9) 9 None s = Some (Thrown "boom"%string, s') /\
    queue s' = [Examples.job 2; Examples.job 3] /\
    flushing s' = false /\ waiting s' = false /\ insideRun s' = false /\
    has s' = ∅ /\
    runs (log s') = [Examples.job 1; Examples.job 2] /\
    EvUpdated 1%nat ∈ log s'.
Proof.
  intros W s.
  destruct (C5_job_exception_cleanup W) as [H1 H]. split.
  { edestruct (H1 (exec W 3) 0%nat 100%Z (Examples.job 2)
                 (set_flushing true (Examples.queued [Examples.job 2]))) as [_ Hd].
    - reflexivity.
    - reflexivity.
    - vm_compute. reflexivity.
    - eexists. exact Hd. }
  edestruct (H 9%nat None s) as
    (s' & Hfl & Hq & _ & Hh & _ & Hf & Hw & Hi & Hl & _);
    [reflexivity|reflexivity|vm_compute; reflexivity|].
  exists s'. rewrite Hl. vm_compute in Hq.
  repeat split; try done.
  vm_compute. apply list_elem_of_further, list_elem_of_further, list_elem_of_further, list_elem_of_here.
Defined.

(** ** The reentrancy guard *)

(** C6 as stated fails: the error of a flush called while a flush is
    active is not always fatal.  When an after-flush callback calls
    [forceFlush], the call throws, but the flush that called the callback
    catches the error, passes it to [handleError] and returns. *)
Lemma C6_counterexample :
  let W := Examples.flushing_getter in
  let s := set_afterFlushCallbacks [0%nat] (set_waiting true Examples.idle) in
  forceFlush W (exec W 9) 9 None (set_flushing true s)
    = Some (Thrown already_flushing, set_flushing true s) /\
  exists s',
    flushSchedulerQueue W (exec W 9) 9 None s = Some (Returned, s') /\
    log s' = [EvCallback 0%nat; EvHandleError already_flushing callback_error_info].
Proof.
  split; [reflexivity|]. eexists. split; vm_compute; reflexivity.
Qed.

(** C6, amended: calling the flush while a flush is active, or while a
    wrapped getter is being evaluated, throws at once and changes nothing:
    the state after the call, trace included, is the state before it.  A
    wrapped function that calls [forceFlush] gets the error and the
    wrapper puts [insideRun] back.  The flush itself catches nothing, but
    the statement that calls an after-flush callback does: when a callback
    makes the call, the error is passed to [handleError] and the loop goes
    on with the callbacks that remain. *)
Theorem C6_reentrant_flush_throws {Ext : Type} (W : World Ext)
    (run : list cmd -> State Ext -> Result Ext) (n : nat)
    (maxUpdateCount : option Z) (s : State Ext) :
  (flushing s = true ->
   flushSchedulerQueue W run n maxUpdateCount s = Some (Thrown already_flushing, s)) /\
  (flushing s = false -> insideRun s = true ->
   flushSchedulerQueue W run n maxUpdateCount s = Some (Thrown running_a_watcher, s)) /\
  (forall f e rest,
     flushing s = false ->
     fn_body W f (ext s) = (e, CForceFlush maxUpdateCount :: rest) ->
     wrapWatcherGetter W (exec W (S n)) f s
       = Some (Thrown running_a_watcher, set_ext e s)) /\
  (forall f fs e rest limit,
     flushing s = true -> index s = length (queue s) ->
     afterFlushCallbacks s = f :: fs ->
     fn_body W f (ext s) = (e, CForceFlush maxUpdateCount :: rest) ->
     drain W (exec W (S n)) (S (S n)) limit s
       = drain W (exec W (S n)) (S n) limit
           (emit (EvHandleError already_flushing callback_error_info)
              (set_ext e (emit (EvCallback f) (set_afterFlushCallbacks fs s))))).
Proof.
  split; [|split; [|split]].
  - intros Hf. unfold flushSchedulerQueue. by rewrite Hf.
  - intros Hf Hi. unfold flushSchedulerQueue. by rewrite Hf, Hi.
  - intros f e rest Hf Hbody. unfold wrapWatcherGetter, invoke. simpl.
    rewrite Hbody. simpl. unfold forceFlush, flushSchedulerQueue. simpl.
    rewrite Hf. by destruct s.
  - intros f fs e rest limit Hf Hx Ha Hbody.
    change (drain W (exec W (S n)) (S (S n)) limit s) with
      (if bool_decide (length (queue s) ≠ index s)
          || bool_decide (afterFlushCallbacks s ≠ [])
       then match scan W (exec W (S n)) (S n) limit s with
            | Some (Returned, s1) =>
                match afterFlushCallbacks s1 with
                | [] => drain W (exec W (S n)) (S n) limit s1
                | func :: rest =>
                    let s2 := emit (EvCallback func) (set_afterFlushCallbacks rest s1) in
                    match invoke (exec W (S n)) (fn_body W func) s2 with
                    | Some (Returned, s3) => drain W (exec W (S n)) (S n) limit s3
                    | Some (Thrown e, s3) =>
                        drain W (exec W (S n)) (S n) limit
                          (emit (EvHandleError e callback_error_info) s3)
                    | None => None
                    end
                end
            | r => r
            end
       else Some (Returned, s)).
    rewrite Ha. rewrite (bool_decide_eq_true_2 (f :: fs ≠ [])) by done.
    rewrite orb_true_r.
    assert (Hs : scan W (exec W (S n)) (S n) limit s = Some (Returned, s)).
    { simpl. by rewrite (proj2 (lookup_ge_None _ _)) by lia. }
    rewrite Hs, Ha. cbv zeta. unfold invoke.
    change (ext (emit (EvCallback f) (set_afterFlushCallbacks fs s))) with (ext s).
    rewrite Hbody.
    change (exec W (S n) (CForceFlush maxUpdateCount :: rest)
              (set_ext e (emit (EvCallback f) (set_afterFlushCallbacks fs s))))
      with (match forceFlush W (exec W n) n maxUpdateCount
                    (set_ext e (emit (EvCallback f) (set_afterFlushCallbacks fs s))) with
            | Some (Returned, s') => exec W n rest s'
            | r => r
            end).
    unfold forceFlush, flushSchedulerQueue. simpl flushing. by rewrite Hf.
Qed.

Lemma C6_reentrant_flush_throws_witness :
  flushSchedulerQueue Examples.inert (exec Examples.inert 3) 3 None
      (set_flushing true Examples.idle)
    = Some (Thrown already_flushing, set_flushing true Examples.idle) /\
  flushSchedulerQueue Examples.inert (exec Examples.inert 3) 3 None
      (set_insideRun true Examples.idle)
    = Some (Thrown running_a_watcher, set_insideRun true Examples.idle) /\
  wrapWatcherGetter Examples.flushing_getter (exec Examples.flushing_getter 4)
      0%nat Examples.idle
    = Some (Thrown running_a_watcher, Examples.idle) /\
  drain Examples.flushing_getter (exec Examples.flushing_getter 4) 5 100
      (set_afterFlushCallbacks [0%nat] (set_flushing true Examples.idle))
    = Some (Returned,
            emit (EvHandleError already_flushing callback_error_info)
              (emit (EvCallback 0%nat) (set_flushing true Examples.idle))).
Proof.
  split; [|split; [|split]].
  - apply (C6_reentrant_flush_throws Examples.inert). reflexivity.
  - apply (C6_reentrant_flush_throws Examples.inert); reflexivity.
  - apply (C6_reentrant_flush_throws Examples.flushing_getter
             (exec Examples.flushing_getter 3) 3 None Examples.idle
           ) with (rest := []); reflexivity.
  - rewrite (proj2 (proj2 (proj2 (C6_reentrant_flush_throws Examples.flushing_getter
               (exec Examples.flushing_getter 3) 3 None
               (set_afterFlushCallbacks [0%nat] (set_flushing true Examples.idle))))))
      with (f := 0%nat) (fs := []) (e := tt) (rest := []); reflexivity.
Defined.

(** ** Resetting the state *)

(** C7: [resetSchedulerState] empties the queue, the activated queue and
    the cursor when the cursor is at the end; otherwise it drops the
    entries before the cursor, keeps the rest in order and puts the cursor
    at 0.  Either way [has] is emptied, so that a watcher still in the
    queue is queued a second time by the next [queueWatcher] (shown where
    that call only requests a tick). *)
Theorem C7_reset_scheduler_state {Ext : Type} (W : World Ext) (s : State Ext) :
  let s' := resetSchedulerState W s in
  (index s = length (queue s) ->
   queue s' = [] /\ activatedChildren s' = [] /\ index s' = 0%nat) /\
  (index s <> length (queue s) ->
   queue s' = drop (index s) (queue s) /\ index s' = 0%nat) /\
  has s' = ∅ /\
  (forall run n w,
     w ∈ queue s' -> production W = true \/ config_async W = true ->
     exists s'', queueWatcher W run n w s' = Some (Returned, s'') /\
                 queue s'' = queue s' ++ [w]).
Proof.
  intros s'.
  destruct (reset_clears W s) as (Hhas & Hw & Hf). fold s' in Hhas, Hw, Hf.
  split; [|split; [|split; [done|]]].
  - intros He. unfold s', resetSchedulerState. rewrite decide_True by done.
    by destruct (production W).
  - intros He. unfold s', resetSchedulerState. rewrite decide_False by done.
    by destruct (production W).
  - clearbody s'. intros run n w _ Hcfg.
    unfold queueWatcher. rewrite Hhas, lookup_empty. simpl. rewrite Hf.
    unfold requireFlush. simpl. rewrite Hw.
    replace (negb (production W) && negb (config_async W)) with false
      by (destruct Hcfg as [-> | ->]; by rewrite ?andb_false_r).
    eexists. split; [reflexivity|done].
Qed.

Lemma C7_reset_scheduler_state_witness :
  let s := set_index 1 (set_queue [Examples.job 1; Examples.job 2]
             (set_has {[ 2%Z := MTrue ]} Examples.idle)) in
  let s' := resetSchedulerState Examples.inert s in
  queue (resetSchedulerState Examples.inert (set_index 2 s)) = [] /\
  queue s' = [Examples.job 2] /\ has s' = ∅ /\
  exists s'',
    queueWatcher Examples.inert (exec Examples.inert 1) 1 (Examples.job 2) s'
      = Some (Returned, s'') /\
    queue s'' = [Examples.job 2; Examples.job 2].
Proof.
  intros s s'.
  destruct (C7_reset_scheduler_state Examples.inert s) as (_ & H2 & H3 & H4).
  split; [|split; [|split]].
  - destruct (C7_reset_scheduler_state Examples.inert (set_index 2 s)) as (H1 & _).
    apply H1. reflexivity.
  - apply H2. simpl. lia.
  - exact H3.
  - apply (H4 (exec Examples.inert 1) 1%nat (Examples.job 2)).
    + apply list_elem_of_here.
    + right. reflexivity.
Defined.

(** ** The updated hooks *)

(** C8 as stated fails: when the loop is cut short by the warning, the
    cursor is put at the end of the queue, and the entries that were never
    run get their updated hook as well.  Here watcher 1 requeues itself,
    the limit is 1, and watcher 9 is never run. *)
Lemma C8_counterexample :
  let W := Examples.runaway in
  let s := Examples.queued [Examples.job 9; Examples.job 1] in
  exists s',
    flushSchedulerQueue W (exec W 9) 9 (Some 1%Z) s = Some (Returned, s') /\
    runs (log s') = [Examples.job 1; Examples.job 1] /\
    EvUpdated (vm (Examples.job 9)) ∈ log s'.
Proof.
  intros W s. eexists. split; [vm_compute; reflexivity|].
  split; [vm_compute; reflexivity|].
  vm_compute. do 4 apply list_elem_of_further. apply list_elem_of_here.
Qed.

(** C8, amended: after the loop of a flush has ended with the cursor at
    [endIndex], the updated hook is called for the entries of the queue at
    positions below [endIndex], last position first, and only for an entry
    that is the [_watcher] of its component while the component is mounted
    and not destroyed; entries at or after [endIndex] get none.  If no loop
    warning was given during the flush, these entries are the watchers run
    in this flush, in the order run; a watcher that threw is left out. *)
Theorem C8_updated_hooks {Ext : Type} (W : World Ext) (fuel : nat)
    (maxUpdateCount : option Z) (s s' : State Ext) (o : outcome) :
  flushing s = false -> insideRun s = false ->
  flushSchedulerQueue W (exec W fuel) fuel maxUpdateCount s = Some (o, s') ->
  exists s1 l,
    drain W (exec W fuel) fuel (effective_limit maxUpdateCount) (flush_begin W s)
      = Some (o, s1) /\
    log s1 = log s ++ l /\
    log s' = log s1 ++ activated_events (activatedChildren s1)
               ++ ((fun w => EvUpdated (vm w)) <$>
                     filter (fun w => live s1 w) (reverse (take (index s1) (queue s1))))
               ++ (if devtools_enabled W then [EvDevtoolsFlush] else []) /\
    (warnings l = [] -> o = Returned -> runs l = take (index s1) (queue s1)) /\
    (warnings l = [] -> o <> Returned ->
       runs l = take (index s1) (queue s1) \/
       exists w, queue s1 !! index s1 = Some w /\
                 runs l = take (index s1) (queue s1) ++ [w]).
Proof.
  intros Hf Hi. unfold flushSchedulerQueue. rewrite Hf, Hi.
  intros (s1 & Hd & [_ _ _ (l & Hl & Htr)] & _ & _ & _ & _ & _ & _ & _ & _ & _ & Hlog)%flush_protected_spec;
    [|done].
  exists s1, l. repeat split; try done.
  - intros Hw ->. by apply Htr.
  - intros Hw Ho. destruct o as [|e]; [done|].
    destruct (Htr Hw) as [?|[Hr Hlt]]; [by left|right].
    destruct (lookup_lt_is_Some_2 (queue s1) (index s1)) as [w Hw1]; [done|].
    exists w. split; [done|]. rewrite Hr. by erewrite take_S_r.
Qed.

Lemma C8_updated_hooks_witness :
  let W := Examples.inert in
  let s := Examples.queued [Examples.job 3; Examples.job 1; Examples.job 2] in
  exists s',
    flushSchedulerQueue W (exec W 9) 9 None s = Some (Returned, s') /\
    log s' = log s ++ [EvRun (Examples.job 1); EvRun (Examples.job 2);
                       EvRun (Examples.job 3);
                       EvUpdated 3%nat; EvUpdated 2%nat; EvUpdated 1%nat].
Proof.
  intros W s.
  destruct (flushSchedulerQueue W (exec W 9) 9 None s) as [[o s']|] eqn:Hfl;
    [|vm_compute in Hfl; discriminate Hfl].
  destruct (C8_updated_hooks W 9 None s s' o eq_refl eq_refl Hfl)
    as (s1 & l & Hd & Hl & Hlog & _).
  vm_compute in Hd. injection Hd as <- <-.
  exists s'. split; [done|]. rewrite Hlog. vm_compute. reflexivity.
Defined.

(** ** Requesting a flush *)

(** C9 as stated fails: in a production build with [config.async]
    switched off, [requireFlush] does not run the flush but requests a
    tick. *)
Lemma C9_counterexample :
  let W := Examples.production_sync in
  waiting Examples.idle = false /\ config_async W = false /\
  requireFlush W (exec W 5) 5 Examples.idle
    = Some (Returned, emit EvNextTick (set_waiting true Examples.idle)) /\
  requireFlush W (exec W 5) 5 Examples.idle
    <> flushSchedulerQueue W (exec W 5) 5 None (set_waiting true Examples.idle).
Proof.
  repeat split. intros H.
  apply (f_equal (fun r => match r with Some (_, s) => log s | None => [] end)) in H.
  vm_compute in H. discriminate H.
Qed.

(** C9, amended: [requireFlush] does nothing when [waiting] is set.
    Otherwise it sets [waiting] and then, in a development build with
    [config.async] switched off, runs the flush at once; in every other
    case (a production build included) it passes the flush to [nextTick].
    The reset at the end of a flush clears [waiting]. *)
Theorem C9_require_flush {Ext : Type} (W : World Ext)
    (run : list cmd -> State Ext -> Result Ext) (n : nat) (s : State Ext) :
  (waiting s = true -> requireFlush W run n s = Some (Returned, s)) /\
  (waiting s = false -> production W = false -> config_async W = false ->
   requireFlush W run n s = flushSchedulerQueue W run n None (set_waiting true s)) /\
  (waiting s = false -> production W = true \/ config_async W = true ->
   requireFlush W run n s = Some (Returned, emit EvNextTick (set_waiting true s))) /\
  waiting (resetSchedulerState W s) = false /\
  waiting (flush_finally W s).2 = false.
Proof.
  unfold requireFlush. split; [|split; [|split; [|split]]].
  - by intros ->.
  - by intros -> -> ->.
  - intros -> [-> | ->]; by rewrite ?andb_false_r.
  - apply reset_clears.
  - unfold flush_finally.
    pose proof (callActivatedHooks_spec (activatedChildren s) (resetSchedulerState W s))
      as (_ & _ & _ & _ & Hw & _).
    destruct (reset_clears W s) as (_ & Hr & _).
    assert (Hu : forall q i (t : State Ext), waiting (callUpdatedHooks q i t).2 = waiting t).
    { intros q i. induction i as [|i IH]; intros t; simpl; [done|].
      destruct (q !! i); [|done]. destruct (live t w); by rewrite IH. }
    specialize (Hu (queue s) (index s)
                  (callActivatedHooks (activatedChildren s) (resetSchedulerState W s))).
    destruct (callUpdatedHooks _ _ _) as [[|e] t]; simpl in *.
    + destruct (devtools_enabled W); simpl; congruence.
    + congruence.
Qed.

Lemma C9_require_flush_witness :
  requireFlush Examples.development_sync (exec Examples.development_sync 1) 1
      Examples.idle
    = flushSchedulerQueue Examples.development_sync
        (exec Examples.development_sync 1) 1 None (set_waiting true Examples.idle) /\
  requireFlush Examples.inert (exec Examples.inert 1) 1
      (set_waiting true Examples.idle)
    = Some (Returned, set_waiting true Examples.idle) /\
  requireFlush Examples.inert (exec Examples.inert 1) 1 Examples.idle
    = Some (Returned, emit EvNextTick (set_waiting true Examples.idle)).
Proof.
  split; [|split].
  - apply (C9_require_flush Examples.development_sync); reflexivity.
  - apply (C9_require_flush Examples.inert). reflexivity.
  - apply (C9_require_flush Examples.inert); [reflexivity|]. right. reflexivity.
Defined.

(** ** The falsy loop limit *)

(** C10: a missing limit and the limit [0] both stand for
    [MAX_UPDATE_COUNT = 100]; [forceFlush(0)] is [forceFlush()]. *)
Theorem C10_falsy_limit_is_default {Ext : Type} (W : World Ext)
    (run : list cmd -> State Ext -> Result Ext) (n : nat) (s : State Ext) :
  effective_limit (Some 0%Z) = 100%Z /\ effective_limit None = 100%Z /\
  forceFlush W run n (Some 0%Z) s = forceFlush W run n None s /\
  forceFlush W run n None s = forceFlush W run n (Some MAX_UPDATE_COUNT) s /\
  flushSchedulerQueue W run n (Some 0%Z) s = flushSchedulerQueue W run n None s.
Proof. by repeat split. Qed.

(** ** What a flush keeps *)

Lemma ticks_only l :
  Forall (fun e => e = EvNextTick) l ->
  runs l = [] /\ warnings l = [] /\ callbacks l = [] /\ activations l = [] /\
  reported l = [].
Proof. induction 1 as [|e l -> _ IH]; [done|]. exact IH. Qed.

Lemma activations_app l1 l2 : activations (l1 ++ l2) = activations l1 ++ activations l2.
Proof. apply omap_app. Qed.

Lemma callbacks_app l1 l2 : callbacks (l1 ++ l2) = callbacks l1 ++ callbacks l2.
Proof. apply omap_app. Qed.

Lemma reported_app l1 l2 : reported (l1 ++ l2) = reported l1 ++ reported l2.
Proof. apply omap_app. Qed.

Lemma splice_in_sublist p w q : q `sublist_of` splice_in p w q.
Proof.
  unfold splice_in. rewrite <-(take_drop p q) at 1.
  apply sublist_app; [done|]. by apply sublist_cons.
Qed.

Section Frame.
Context {Ext : Type} (W : World Ext).
Implicit Type s : State Ext.

Lemma steady_refl s : steady s s.
Proof. split; try done. exists []. by rewrite app_nil_r. Qed.

Lemma steady_trans s1 s2 s3 : steady s1 s2 -> steady s2 s3 -> steady s1 s3.
Proof.
  intros [? ? ? ? (l2 & Hl2 & H2)] [? ? ? ? (l3 & Hl3 & H3)].
  split; [congruence|by etrans|by etrans|by etrans|].
  exists (l2 ++ l3). rewrite Hl3, Hl2, app_assoc. split; [done|by apply Forall_app].
Qed.

Lemma requireFlush_steady run n s o s' :
  flushing s = true -> requireFlush W run n s = Some (o, s') -> steady s s'.
Proof.
  intros Hf. unfold requireFlush. destruct (waiting s).
  - intros [= <- <-]. apply steady_refl.
  - destruct (negb (production W) && negb (config_async W)).
    + rewrite flush_guard_flushing by done. intros [= <- <-].
      split; try done. exists []. by rewrite app_nil_r.
    + intros [= <- <-]. split; try done. exists [EvNextTick]. by repeat constructor.
Qed.

Lemma exec_cmd_steady run n c s o s' :
  (forall cs s o s', flushing s = true -> run cs s = Some (o, s') -> steady s s') ->
  flushing s = true -> exec_cmd W run n c s = Some (o, s') -> steady s s'.
Proof.
  intros Hrun Hf. destruct c; simpl.
  - unfold queueWatcher. destruct (is_nullish _); [|intros [= <- <-]; apply steady_refl].
    simpl. rewrite Hf. intros H%requireFlush_steady; [|done].
    eapply steady_trans; [|exact H]. split; simpl; try done.
    + apply splice_in_sublist.
    + exists []. by rewrite app_nil_r.
  - unfold afterFlush. intros H%requireFlush_steady; [|done].
    eapply steady_trans; [|exact H]. split; simpl; try done.
    + by apply prefix_app_r.
    + exists []. by rewrite app_nil_r.
  - intros [= <- <-]. split; simpl; try done.
    + by apply prefix_app_r.
    + exists []. by rewrite app_nil_r.
  - unfold forceFlush. rewrite flush_guard_flushing by done.
    intros [= <- <-]. apply steady_refl.
  - unfold wrapWatcherGetter, invoke. simpl.
    destruct (fn_body W f (ext s)) as [e cs].
    destruct (run cs _) as [[o1 s1]|] eqn:Hr; [|done].
    intros [= <- <-]. apply Hrun in Hr as []; [|done]. by split.
  - intros [= <- <-]. split; try done. exists []. by rewrite app_nil_r.
  - intros [= <- <-]. apply steady_refl.
Qed.

Lemma exec_steady fuel cs s o s' :
  flushing s = true -> exec W fuel cs s = Some (o, s') -> steady s s'.
Proof.
  revert cs s o s'. induction fuel as [|n IH]; intros cs s o s' Hf; [done|].
  simpl. destruct cs as [|c cs]; [intros [= <- <-]; apply steady_refl|].
  destruct (exec_cmd W (exec W n) n c s) as [[o1 s1]|] eqn:Hc; [|done].
  pose proof (exec_cmd_nested W _ _ _ _ _ _ (exec_nested W n) Hf Hc) as Hn.
  apply exec_cmd_steady in Hc; [|exact IH|done].
  destruct o1.
  - intros H. eapply steady_trans; [exact Hc|]. eapply IH; [|exact H].
    destruct Hn. congruence.
  - by intros [= <- <-].
Qed.

Lemma kept_trans o s1 s2 s3 :
  kept W Returned s1 s2 -> kept W o s2 s3 -> kept W o s1 s3.
Proof.
  intros [? ? ? ? (l2 & x2 & Hl2 & Ha2 & Hc2 & Hw2) _]
         [? ? ? ? (l3 & x3 & Hl3 & Ha3 & Hc3 & Hw3) ?].
  split; [done|congruence|by etrans|by etrans| |done].
  exists (l2 ++ l3), (x2 ++ x3). rewrite Hl3, Hl2, app_assoc. split; [done|].
  rewrite activations_app, Ha2, Ha3. split; [done|]. split.
  - rewrite callbacks_app, <-app_assoc, Hc3, !app_assoc. by rewrite Hc2.
  - intros Hp. by rewrite warnings_app, Hw2, Hw3.
Qed.

Lemma steady_kept s s' : flushing s' = true -> steady s s' -> kept W Returned s s'.
Proof.
  intros Hf [? ? ? [k Hk] (l & Hl & (_ & Hw & Hc & Ha & _)%ticks_only)].
  split; try done. exists l, k. by rewrite Hc, Ha, Hw, Hk.
Qed.

(** A statement of the loops that calls a collaborator other than a
    callback or an activated hook. *)
Lemma emit_kept e s :
  flushing s = true -> activations [e] = [] -> callbacks [e] = [] ->
  (production W = true -> warnings [e] = []) ->
  kept W Returned s (emit e s).
Proof.
  intros Hf Ha Hc Hw. split; try done.
  exists [e], []. by rewrite Ha, Hc, app_nil_r.
Qed.

Lemma kept_thrown e s s' :
  kept W Returned s s' -> is_Some (queue s' !! index s') -> kept W (Thrown e) s s'.
Proof. intros [] ?. by split. Qed.

Lemma kept_refl s : flushing s = true -> kept W Returned s s.
Proof. intros. apply steady_kept; [done|apply steady_refl]. Qed.

(** The loops, for scripts run by [run] that keep to [nested] and
    [steady]. *)
Section Loops.
Variable run : list cmd -> State Ext -> Result Ext.
Hypothesis run_nested :
  forall cs s o s', flushing s = true -> run cs s = Some (o, s') -> nested s s'.
Hypothesis run_steady :
  forall cs s o s', flushing s = true -> run cs s = Some (o, s') -> steady s s'.

Lemma invoke_kept f s o s' :
  flushing s = true -> invoke run f s = Some (o, s') -> kept W Returned s s'.
Proof.
  intros Hf Hr. pose proof (invoke_nested run run_nested _ _ _ _ Hf Hr) as [Hf' _ _ _ _ _ _].
  unfold invoke in Hr. destruct (f (ext s)) as [e cs].
  apply run_steady in Hr as []; [|done].
  apply steady_kept; [congruence|by split].
Qed.

Lemma call_before_kept w s o s' :
  flushing s = true -> call_before W run w s = Some (o, s') -> kept W Returned s s'.
Proof.
  unfold call_before. intros Hf. destruct (watcher_before W w).
  - intros H%invoke_kept; [|done].
    eapply kept_trans; [|exact H]. by apply emit_kept.
  - intros [= <- <-]. by apply kept_refl.
Qed.

Lemma scan_kept n limit s o s' :
  flushing s = true -> scan W run n limit s = Some (o, s') -> kept W o s s'.
Proof.
  revert s. induction n as [|n IH]; intros s Hf; [done|]. simpl.
  destruct (queue s !! index s) as [w|] eqn:Hw.
  2:{ intros [= <- <-]. by apply kept_refl. }
  destruct (call_before W run w s) as [[o1 s1]|] eqn:Hb; [|done].
  pose proof (call_before_nested W run run_nested _ _ _ _ Hf Hb) as Hn1.
  pose proof (call_before_kept _ _ _ _ Hf Hb) as Hk1.
  assert (Hf1 : flushing s1 = true) by (by destruct Hk1).
  assert (Hw1 : queue s1 !! index s1 = Some w).
  { destruct Hn1. rewrite nested_index0. apply nested_lookup0; [lia|done]. }
  destruct o1 as [|e].
  2:{ intros [= <- <-]. apply kept_thrown; [done|by eexists]. }
  set (s2 := emit (EvRun w) (set_has (<[id w:=MNull]> (has s1)) s1)).
  assert (Hk2 : kept W Returned s1 s2).
  { eapply (kept_trans _ _ (set_has (<[id w:=MNull]> (has s1)) s1)).
    - apply steady_kept; [done|]. split; try done. exists []. by rewrite app_nil_r.
    - by apply emit_kept. }
  assert (Hf2 : flushing s2 = true) by done.
  destruct (invoke run (watcher_run W w) s2) as [[o3 s3]|] eqn:Hr; [|done].
  pose proof (invoke_nested run run_nested _ _ _ _ Hf2 Hr) as Hn3.
  pose proof (invoke_kept _ _ _ _ Hf2 Hr) as Hk3.
  assert (Hf3 : flushing s3 = true) by (by destruct Hk3).
  assert (Hw3 : queue s3 !! index s3 = Some w).
  { destruct Hn3. simpl in *. rewrite nested_index0. apply nested_lookup0; [lia|done]. }
  assert (Hk : forall o' t, kept W o' s3 t -> kept W o' s t).
  { intros o' t Ht. eapply kept_trans; [exact Hk1|]. eapply kept_trans; [exact Hk2|].
    by eapply kept_trans; [exact Hk3|]. }
  destruct o3 as [|e].
  2:{ intros [= <- <-]. apply Hk, kept_thrown; [by apply kept_refl|by eexists]. }
  assert (Hnext : forall c, kept W Returned s3 (set_index (S (index s3)) (set_circular c s3))).
  { intros c. apply steady_kept; [done|]. split; try done. exists []. by rewrite app_nil_r. }
  assert (Hnext' : kept W Returned s3 (set_index (S (index s3)) s3)).
  { apply steady_kept; [done|]. split; try done. exists []. by rewrite app_nil_r. }
  destruct (production W) eqn:Hp; simpl.
  - intros H. apply Hk. eapply kept_trans; [exact Hnext'|]. by apply IH.
  - destruct (negb (is_nullish (has s3 !! id w))).
    + destruct (_ <? _)%Z.
      * intros [= <- <-]. apply Hk. split; try done.
        eexists [_], []. simpl. rewrite app_nil_r. repeat split. congruence.
      * intros H. apply Hk. eapply kept_trans; [apply Hnext|]. by apply IH.
    + intros H. apply Hk. eapply kept_trans; [exact Hnext'|]. by apply IH.
Qed.

Lemma drain_kept n limit s o s' :
  flushing s = true -> drain W run n limit s = Some (o, s') -> kept W o s s'.
Proof.
  revert s. induction n as [|n IH]; intros s Hf; [done|]. simpl.
  destruct (bool_decide _ || bool_decide _).
  2:{ intros [= <- <-]. by apply kept_refl. }
  destruct (scan W run n limit s) as [[[|e] s1]|] eqn:Hs; [| |done].
  2:{ intros [= <- <-]. by apply scan_kept in Hs. }
  apply scan_kept in Hs; [|done]. pose proof Hs as [Hf1 _ _ _ _ _].
  destruct (afterFlushCallbacks s1) as [|func rest] eqn:Ha.
  { intros H. eapply kept_trans; [exact Hs|]. by apply IH. }
  set (s2 := emit (EvCallback func) (set_afterFlushCallbacks rest s1)).
  assert (Hk2 : kept W Returned s1 s2).
  { split; try done. exists [EvCallback func], []. simpl.
    by rewrite Ha, app_nil_r. }
  assert (Hf2 : flushing s2 = true) by done.
  destruct (invoke run (fn_body W func) s2) as [[o3 s3]|] eqn:Hr; [|done].
  pose proof (invoke_kept _ _ _ _ Hf2 Hr) as Hk3.
  assert (Hf3 : flushing s3 = true) by (by destruct Hk3).
  destruct o3 as [|e]; intros H.
  - eapply kept_trans; [exact Hs|]. eapply kept_trans; [exact Hk2|].
    eapply kept_trans; [exact Hk3|]. by apply IH.
  - eapply kept_trans; [exact Hs|]. eapply kept_trans; [exact Hk2|].
    eapply kept_trans; [exact Hk3|].
    eapply kept_trans; [|apply IH; [|exact H]; done].
    by apply emit_kept.
Qed.
End Loops.
End Frame.

(** ** The [finally] block and the component heap *)

Section FinallyHeap.
Context {Ext : Type} (W : World Ext).
Implicit Type s : State Ext.

Lemma callActivatedHooks_heap q s :
  let s' := callActivatedHooks q s in
  currentFlushTimestamp s' = currentFlushTimestamp s /\ ext s' = ext s /\
  (forall c, c ∈ q -> _inactive (vm_of s' c) = true) /\
  (forall c, c ∉ q -> vm_of s' c = vm_of s c) /\
  (forall c, _watcher (vm_of s' c) = _watcher (vm_of s c) /\
             _isMounted (vm_of s' c) = _isMounted (vm_of s c) /\
             _isDestroyed (vm_of s' c) = _isDestroyed (vm_of s c)).
Proof.
  revert s. induction q as [|a q IH]; intros s; simpl.
  - repeat split; try done. by intros c ?%elem_of_nil.
  - set (s1 := emit (EvActivate a true) (set_vm a (set_inactive true (vm_of s a)) s)).
    destruct (IH s1) as (Ht & He & Hin & Hout & Hsame).
    assert (Ha : forall c, vm_of s1 c =
              if decide (a = c) then set_inactive true (vm_of s c) else vm_of s c).
    { intros c. unfold s1, vm_of. simpl. destruct (decide (a = c)) as [->|].
      - by rewrite lookup_insert_eq.
      - by rewrite lookup_insert_ne. }
    split; [by rewrite Ht|]. split; [by rewrite He|]. split; [|split].
    + intros c Hc. destruct (decide (c ∈ q)) as [|Hq]; [by apply Hin|].
      apply elem_of_cons in Hc as [->|]; [|done].
      rewrite Hout, Ha by done. by rewrite decide_True.
    + intros c [Hne Hq]%not_elem_of_cons. rewrite Hout, Ha by done.
      by rewrite decide_False.
    + intros c. destruct (Hsame c) as (-> & -> & ->). rewrite Ha.
      by destruct (decide (a = c)).
Qed.

Lemma vm_of_reset s c : vm_of (resetSchedulerState W s) c = vm_of s c.
Proof.
  unfold resetSchedulerState.
  by destruct (decide (index s = length (queue s))), (production W).
Qed.

(** The component heap, the timestamp and the program's state after the
    [finally] block. *)
Lemma flush_finally_heap s s' :
  (index s <= length (queue s))%nat ->
  flush_finally W s = (Returned, s') ->
  currentFlushTimestamp s' = currentFlushTimestamp s /\ ext s' = ext s /\
  (forall c, c ∈ activatedChildren s -> _inactive (vm_of s' c) = true) /\
  (forall c, c ∉ activatedChildren s -> vm_of s' c = vm_of s c) /\
  (forall c, _watcher (vm_of s' c) = _watcher (vm_of s c) /\
             _isMounted (vm_of s' c) = _isMounted (vm_of s c) /\
             _isDestroyed (vm_of s' c) = _isDestroyed (vm_of s c)).
Proof.
  intros Hle. unfold flush_finally. rewrite callUpdatedHooks_spec by done.
  pose proof (callActivatedHooks_heap (activatedChildren s) (resetSchedulerState W s))
    as (Ht & He & Hin & Hout & Hsame).
  set (s2 := callActivatedHooks (activatedChildren s) (resetSchedulerState W s)) in *.
  assert (Hr : currentFlushTimestamp (resetSchedulerState W s) = currentFlushTimestamp s
               /\ ext (resetSchedulerState W s) = ext s).
  { unfold resetSchedulerState.
    by destruct (decide (index s = length (queue s))), (production W). }
  destruct Hr as [Hrt Hre].
  intros [= <-].
  assert (Hv : forall c,
    vm_of (if devtools_enabled W
           then emit EvDevtoolsFlush (emit_all (updated_events s2 (queue s) (index s)) s2)
           else emit_all (updated_events s2 (queue s) (index s)) s2) c = vm_of s2 c)
    by (intros c; by destruct (devtools_enabled W)).
  split; [destruct (devtools_enabled W); simpl; congruence|].
  split; [destruct (devtools_enabled W); simpl; congruence|].
  split; [|split].
  - intros c Hc. rewrite Hv. by apply Hin.
  - intros c Hc. rewrite Hv, Hout by done. apply vm_of_reset.
  - intros c. rewrite Hv. destruct (Hsame c) as (-> & -> & ->).
    by rewrite vm_of_reset.
Qed.

Lemma activations_activated_events q : activations (activated_events q) = q.
Proof. induction q as [|c q IH]; [done|]. simpl. by f_equal. Qed.

Lemma activations_updated_events s q i : activations (updated_events s q i) = [].
Proof.
  unfold updated_events. induction (filter _ _) as [|w l IH]; [done|]. exact IH.
Qed.

Lemma callbacks_activated_events q : callbacks (activated_events q) = [].
Proof. induction q; done. Qed.

Lemma callbacks_updated_events s q i : callbacks (updated_events s q i) = [].
Proof.
  unfold updated_events. induction (filter _ _) as [|w l IH]; [done|]. exact IH.
Qed.

(** Every flush that gets past the guards, with what it keeps. *)
Lemma flush_protected_kept fuel m s o s' :
  insideRun s = false ->
  flush_protected W (exec W fuel) fuel m s = Some (o, s') ->
  exists s1,
    kept W o (flush_begin W s) s1 /\ flush_inv (log s) o s1 /\
    (o = Returned -> index s1 = length (queue s1) /\ afterFlushCallbacks s1 = []) /\
    flush_finally W s1 = (Returned, s') /\
    queue s' = drop (index s1) (queue s1) /\
    afterFlushCallbacks s' = afterFlushCallbacks s1 /\
    log s' = log s1 ++ activated_events (activatedChildren s1)
               ++ updated_events s1 (queue s1) (index s1)
               ++ (if devtools_enabled W then [EvDevtoolsFlush] else []).
Proof.
  intros Hi Hfl.
  apply flush_protected_spec in Hfl
    as (s1 & Hd & Hinv & Hret & Hfin & Hq & _ & _ & _ & _ & _ & _ & Hl); [|done].
  exists s1. split.
  { eapply (drain_kept W _ (exec_nested W fuel) (exec_steady W fuel)); [|exact Hd]. done. }
  split; [done|]. split; [done|]. split; [done|]. split; [done|]. split; [|done].
  destruct (flush_finally_spec W s1) as (s2 & Hfin2 & _ & _ & _ & _ & _ & _ & _ & _ & Ha & _);
    [by destruct Hinv|].
  rewrite Hfin in Hfin2. by injection Hfin2 as ->.
Qed.
End FinallyHeap.

(** ** The watcher that threw *)

Section Thrower.
Context {Ext : Type} (W : World Ext).
Implicit Type s : State Ext.
Variable run : list cmd -> State Ext -> Result Ext.
Hypothesis run_nested :
  forall cs s o s', flushing s = true -> run cs s = Some (o, s') -> nested s s'.
Hypothesis run_steady :
  forall cs s o s', flushing s = true -> run cs s = Some (o, s') -> steady s s'.

Lemma invoke_ticks f s o s' :
  flushing s = true -> invoke run f s = Some (o, s') ->
  exists l, log s' = log s ++ l /\ Forall (fun e => e = EvNextTick) l.
Proof.
  unfold invoke. destruct (f (ext s)) as [e cs]. intros Hf Hr.
  by apply run_steady in Hr as [_ _ _ _ ?].
Qed.

(** When the pass over the queue throws, the last [before] or [run] that
    the trace shows is that of the entry at the cursor, and the watchers
    run before it are the entries before the cursor. *)
Lemma scan_thrown l0 limit e : forall n s s',
  flush_inv l0 Returned s -> scan W run n limit s = Some (Thrown e, s') ->
  exists w l1 ev l2,
    queue s' !! index s' = Some w /\
    log s' = l0 ++ l1 ++ ev :: l2 /\
    (ev = EvBefore w \/ ev = EvRun w) /\
    Forall (fun x => x = EvNextTick) l2 /\
    (warnings l1 = [] -> runs l1 = take (index s') (queue s')).
Proof.
  induction n as [|n IH]; intros s s' Hinv; [done|]. simpl.
  destruct (queue s !! index s) as [w|] eqn:Hw; [|done].
  assert (Hf : flushing s = true) by (by destruct Hinv).
  destruct (call_before W run w s) as [[[|e1] s1]|] eqn:Hb; [| |done]; last first.
  { intros [= <- <-].
    pose proof (call_before_nested W run run_nested _ _ _ _ Hf Hb) as Hn1.
    unfold call_before in Hb. destruct (watcher_before W w) as [f|]; [|done].
    apply invoke_ticks in Hb as (l2 & Hl2 & Ht2); [|done].
    destruct Hinv as [_ _ Hle (l & Hl & Hruns)].
    pose proof (nested_take _ _ Hn1 Hle) as Htake.
    destruct Hn1 as [_ Hidx _ _ _ Hlk _].
    exists w, l, (EvBefore w), l2.
    split; [rewrite Hidx; apply Hlk; [lia|done]|].
    split; [rewrite Hl2; simpl; rewrite Hl; by rewrite <-!app_assoc|].
    split; [by left|]. split; [done|].
    intros Hwn. rewrite Hidx, Htake. by apply Hruns. }
  assert (Hn1 : nested s s1) by (eapply call_before_nested; [exact run_nested|done..]).
  pose proof (flush_inv_nested _ _ _ Hinv Hn1) as Hinv1.
  assert (Hw1 : queue s1 !! index s1 = Some w).
  { destruct Hn1. rewrite nested_index0. apply nested_lookup0; [lia|done]. }
  set (s2 := emit (EvRun w) (set_has (<[id w:=MNull]> (has s1)) s1)).
  destruct (invoke run (watcher_run W w) s2) as [[o3 s3]|] eqn:Hr; [|done].
  assert (Hf2 : flushing s2 = true) by (by destruct Hinv1).
  assert (Hn3 : nested s2 s3) by (eapply invoke_nested; [exact run_nested|done..]).
  assert (Hlt : (index s1 < length (queue s1))%nat) by (by eapply lookup_lt_Some).
  pose proof (nested_take_S s2 s3 Hn3 Hlt) as Htake3.
  destruct o3 as [|e3].
  - assert (Htr3 : exists l, log s3 = l0 ++ l /\
              (warnings l = [] -> runs l = take (S (index s3)) (queue s3))).
    { destruct Hinv1 as [_ _ _ (l1 & Hl1 & Hr1)].
      destruct Hn3 as [_ Hi3 _ _ _ _ (l3 & Hl3 & Hr3 & Hw3)]. simpl in *.
      exists (l1 ++ EvRun w :: l3). split.
      { rewrite Hl3, Hl1. by rewrite <-!app_assoc. }
      rewrite runs_app, warnings_app.
      change (runs (EvRun w :: l3)) with (w :: runs l3).
      change (warnings (EvRun w :: l3)) with (warnings l3).
      rewrite Hr3, Hw3, app_nil_r. intros Hw'. rewrite Hr1 by done.
      rewrite Hi3, Htake3. by erewrite take_S_r. }
    assert (Hf3 : flushing s3 = true /\ insideRun s3 = false /\
                  (index s3 < length (queue s3))%nat).
    { destruct Hinv1, Hn3. simpl in *. repeat split; [congruence..|lia]. }
    destruct Hf3 as (Hf3 & Hir3 & Hlt3).
    destruct (negb (production W) && negb (is_nullish (has s3 !! id w))).
    + destruct (_ <? _)%Z; [done|].
      apply IH. split; simpl; [done|done|lia|].
      destruct Htr3 as (l & ? & ?). by exists l.
    + apply IH. split; simpl; [done|done|lia|].
      destruct Htr3 as (l & ? & ?). by exists l.
  - intros [= <- <-].
    apply invoke_ticks in Hr as (l2 & Hl2 & Ht2); [|done].
    destruct Hinv1 as [_ _ Hle1 (l1 & Hl1 & Hr1)].
    assert (Htake : take (index s1) (queue s3) = take (index s1) (queue s1)).
    { apply (nested_take s2 s3 Hn3). simpl. lia. }
    destruct Hn3 as [_ Hi3 _ _ _ Hlk3 _]. simpl in *.
    exists w, l1, (EvRun w), l2.
    split; [rewrite Hi3; apply Hlk3; [lia|done]|].
    split; [rewrite Hl2, Hl1; by rewrite <-!app_assoc|].
    split; [by right|]. split; [done|].
    intros Hwn. rewrite Hi3, Htake. by apply Hr1.
Qed.

Lemma drain_thrown l0 limit e : forall n s s',
  flush_inv l0 Returned s -> drain W run n limit s = Some (Thrown e, s') ->
  exists w l1 ev l2,
    queue s' !! index s' = Some w /\
    log s' = l0 ++ l1 ++ ev :: l2 /\
    (ev = EvBefore w \/ ev = EvRun w) /\
    Forall (fun x => x = EvNextTick) l2 /\
    (warnings l1 = [] -> runs l1 = take (index s') (queue s')).
Proof.
  induction n as [|n IH]; intros s s' Hinv; [done|]. simpl.
  destruct (bool_decide _ || bool_decide _); [|done].
  destruct (scan W run n limit s) as [[[|e1] s1]|] eqn:Hs; [| |done]; last first.
  { intros [= <- <-]. by eapply scan_thrown. }
  apply (scan_inv W run run_nested l0) in Hs as [Hinv1 _]; [|done].
  destruct (afterFlushCallbacks s1) as [|func rest]; [by apply IH|].
  set (s2 := emit (EvCallback func) (set_afterFlushCallbacks rest s1)).
  assert (Hinv2 : flush_inv l0 Returned s2).
  { eapply flush_inv_nested; [exact Hinv1|].
    eapply (nested_trans _ (set_afterFlushCallbacks rest s1)); [|by apply nested_emit].
    split; try done. by exists []; rewrite app_nil_r. }
  destruct (invoke run (fn_body W func) s2) as [[[|e3] s3]|] eqn:Hr; [| |done].
  - apply IH. eapply flush_inv_nested; [exact Hinv2|].
    eapply invoke_nested; [exact run_nested|by destruct Hinv2|done].
  - apply IH. eapply flush_inv_nested; [exact Hinv2|].
    eapply nested_trans;
      [eapply invoke_nested; [exact run_nested|by destruct Hinv2|done]|].
    by apply nested_emit.
Qed.
End Thrower.

(** ** Further properties of a flush, for every program *)



(** A flush that returns without having given a loop warning has run
    every entry of the queue as it stood at the end, in queue order; that
    queue contains the sorted queue of the start as a subsequence.  So
    every watcher queued before the flush has run, and those watchers ran
    in ascending order of id, whatever was queued meanwhile. *)
Theorem flush_runs_every_queued_watcher {Ext : Type} (W : World Ext) (fuel : nat)
    (maxUpdateCount : option Z) (s s' : State Ext) :
  flushing s = false -> insideRun s = false ->
  flushSchedulerQueue W (exec W fuel) fuel maxUpdateCount s = Some (Returned, s') ->
  exists l q,
    log s' = log s ++ l /\ sort_queue (queue s) `sublist_of` q /\
    (warnings l = [] -> runs l = q).
Proof.
  intros Hf Hi. unfold flushSchedulerQueue. rewrite Hf, Hi.
  intros (s1 & Hk & [_ _ _ (l & Hl & Htr)] & Hret & _ & _ & _ & Hlog)%flush_protected_kept;
    [|done].
  destruct (Hret eq_refl) as [Hx _].
  exists (l ++ activated_events (activatedChildren s1)
            ++ updated_events s1 (queue s1) (index s1)
            ++ (if devtools_enabled W then [EvDevtoolsFlush] else [])), (queue s1).
  split; [rewrite Hlog, Hl; by rewrite <-!app_assoc|]. split; [by destruct Hk|].
  rewrite !warnings_app, !runs_app, warnings_activated_events, warnings_updated_events,
    runs_activated_events, runs_updated_events.
  intros Hw. rewrite Htr.
  - rewrite Hx, firstn_all. destruct (devtools_enabled W); simpl; by rewrite app_nil_r.
  - destruct (devtools_enabled W); simpl in Hw; by rewrite app_nil_r in Hw.
Qed.

Lemma flush_runs_every_queued_watcher_witness :
  exists s' l q,
    flushSchedulerQueue Examples.busy (exec Examples.busy 20) 20 None
      Examples.busy_start = Some (Returned, s') /\
    log s' = log Examples.busy_start ++ l /\
    [Examples.job 1; Examples.job 4] `sublist_of` q /\
    (warnings l = [] -> runs l = q).
Proof.
  destruct (flushSchedulerQueue Examples.busy (exec Examples.busy 20) 20 None
              Examples.busy_start) as [[[|e] s']|] eqn:Hfl;
    [|vm_compute in Hfl; discriminate Hfl|vm_compute in Hfl; discriminate Hfl].
  destruct (flush_runs_every_queued_watcher Examples.busy 20 None Examples.busy_start s')
    as (l & q & H); [reflexivity|reflexivity|exact Hfl|].
  exists s', l, q. split; [reflexivity|exact H].
Defined.

(** A production build never calls [warn], and so never gives up the
    entries of a queue: a flush there that returns has run every entry. *)
Theorem production_flush_never_warns {Ext : Type} (W : World Ext) (fuel : nat)
    (maxUpdateCount : option Z) (s s' : State Ext) (o : outcome) :
  production W = true ->
  flushing s = false -> insideRun s = false ->
  flushSchedulerQueue W (exec W fuel) fuel maxUpdateCount s = Some (o, s') ->
  exists l,
    log s' = log s ++ l /\ warnings l = [] /\
    (o = Returned ->
     exists q, runs l = q /\ sort_queue (queue s) `sublist_of` q).
Proof.
  intros Hp Hf Hi. unfold flushSchedulerQueue. rewrite Hf, Hi.
  intros (s1 & Hk & [_ _ _ (l & Hl & Htr)] & Hret & _ & _ & _ & Hlog)%flush_protected_kept;
    [|done].
  destruct Hk as [_ _ _ Hq (l' & x & Hl' & _ & _ & Hw) _].
  assert (l' = l) as ->.
  { change (log (flush_begin W s)) with (log s) in Hl'. rewrite Hl in Hl'.
    by apply app_inv_head in Hl'. }
  specialize (Hw Hp).
  exists (l ++ activated_events (activatedChildren s1)
            ++ updated_events s1 (queue s1) (index s1)
            ++ (if devtools_enabled W then [EvDevtoolsFlush] else [])).
  split; [rewrite Hlog, Hl; by rewrite <-!app_assoc|].
  rewrite !warnings_app, !runs_app, warnings_activated_events, warnings_updated_events,
    runs_activated_events, runs_updated_events, Hw.
  split; [by destruct (devtools_enabled W)|].
  intros ->. destruct (Hret eq_refl) as [Hx _]. exists (queue s1).
  split; [|done]. rewrite (Htr Hw), Hx, firstn_all.
  destruct (devtools_enabled W); simpl; by rewrite app_nil_r.
Qed.

Lemma production_flush_never_warns_witness :
  let W := Examples.world true true
             (fun w => if (id w =? 1)%Z then [CQueueWatcher (Examples.job 3)] else [])
             (fun _ => []) in
  exists o s' l,
    flushSchedulerQueue W (exec W 9) 9 None
      (Examples.queued [Examples.job 2; Examples.job 1]) = Some (o, s') /\
    log s' = log (Examples.queued [Examples.job 2; Examples.job 1]) ++ l /\
    warnings l = [] /\
    (o = Returned ->
     exists q, runs l = q /\ [Examples.job 1; Examples.job 2] `sublist_of` q).
Proof.
  intros W.
  destruct (flushSchedulerQueue W (exec W 9) 9 None
              (Examples.queued [Examples.job 2; Examples.job 1]))
    as [[o s']|] eqn:Hfl; [|vm_compute in Hfl; discriminate Hfl].
  destruct (production_flush_never_warns W 9 None
              (Examples.queued [Examples.job 2; Examples.job 1]) s' o)
    as (l & H); [reflexivity|reflexivity|reflexivity|exact Hfl|].
  exists o, s', l. split; [reflexivity|exact H].
Defined.

(** A flush reads the clock once, when it starts: when it is over,
    [currentFlushTimestamp] is that reading, whatever the watchers and
    callbacks did. *)
Theorem flush_timestamp_is_start_time {Ext : Type} (W : World Ext) (fuel : nat)
    (maxUpdateCount : option Z) (s s' : State Ext) (o : outcome) :
  flushing s = false -> insideRun s = false ->
  flushSchedulerQueue W (exec W fuel) fuel maxUpdateCount s = Some (o, s') ->
  currentFlushTimestamp s' = getNow W (ext s).
Proof.
  intros Hf Hi. unfold flushSchedulerQueue. rewrite Hf, Hi.
  intros (s1 & Hk & Hinv & _ & Hfin & _)%flush_protected_kept; [|done].
  apply flush_finally_heap in Hfin as (-> & _); [|by destruct Hinv].
  by destruct Hk as [_ -> _ _ _ _].
Qed.

Lemma flush_timestamp_is_start_time_witness :
  let W := mkWorld nat false true false (fun e => Z.of_nat e) (fun _ => None)
             (fun w e => (S e, [])) (fun f e => (e, [])) in
  let s := mkState nat [Examples.job 2; Examples.job 1] [] ∅ ∅ true false false 0 []
             0%Z ∅ 40%nat [] in
  exists o s',
    flushSchedulerQueue W (exec W 9) 9 None s = Some (o, s') /\
    currentFlushTimestamp s' = 40%Z /\ ext s' = 42%nat.
Proof.
  intros W s.
  destruct (flushSchedulerQueue W (exec W 9) 9 None s) as [[o s']|] eqn:Hfl;
    [|vm_compute in Hfl; discriminate Hfl].
  exists o, s'. split; [reflexivity|]. split.
  - apply (flush_timestamp_is_start_time W 9 None s s' o); [reflexivity|reflexivity|exact Hfl].
  - vm_compute in Hfl. by injection Hfl as <- <-.
Defined.

(** When a flush throws, no watcher is lost.  The last [before] or [run]
    that the trace of the loops shows is that of a watcher [w], the one
    that threw; the queue that [resetSchedulerState] then leaves starts
    with [w], followed by the entries not yet reached.  Unless a loop
    warning was given before [w] started, the watchers run before it, [w]
    and the entries behind it are a queue that contains every watcher
    queued at the start. *)
Theorem flush_exception_leaves_pending_entries {Ext : Type} (W : World Ext)
    (fuel : nat) (maxUpdateCount : option Z) (s s' : State Ext) (e : string) :
  flushing s = false -> insideRun s = false ->
  flushSchedulerQueue W (exec W fuel) fuel maxUpdateCount s = Some (Thrown e, s') ->
  exists s1 w rest l1 ev l2 q,
    drain W (exec W fuel) fuel (effective_limit maxUpdateCount) (flush_begin W s)
      = Some (Thrown e, s1) /\
    log s1 = log s ++ l1 ++ ev :: l2 /\
    (ev = EvBefore w \/ ev = EvRun w) /\
    Forall (fun x => x = EvNextTick) l2 /\
    queue (resetSchedulerState W s1) = w :: rest /\
    sort_queue (queue s) `sublist_of` q /\
    (warnings l1 = [] -> runs l1 ++ w :: rest = q).
Proof.
  intros Hf Hi. unfold flushSchedulerQueue. rewrite Hf, Hi. intros Hfl.
  apply flush_protected_spec in Hfl as (s1 & Hd & _); [|done].
  assert (Hk : kept W (Thrown e) (flush_begin W s) s1).
  { eapply (drain_kept W _ (exec_nested W fuel) (exec_steady W fuel)); [|exact Hd].
    done. }
  destruct Hk as [_ _ _ Hsub _ _].
  destruct (drain_thrown W _ (exec_nested W fuel) (exec_steady W fuel) (log s) _ _ _ _ _
              (flush_begin_inv W s Hi) Hd)
    as (w & l1 & ev & l2 & Hw & Hl & Hev & Ht & Hr).
  exists s1, w, (drop (S (index s1)) (queue s1)), l1, ev, l2, (queue s1).
  split; [done|]. split; [done|]. split; [done|]. split; [done|].
  split.
  { unfold resetSchedulerState.
    destruct (decide (index s1 = length (queue s1))) as [Hx|Hx].
    - apply lookup_lt_Some in Hw. lia.
    - destruct (production W); simpl; by apply drop_S. }
  split; [done|].
  intros Hwn. rewrite (Hr Hwn), <-(drop_S _ _ _ Hw). apply take_drop.
Qed.

Lemma flush_exception_leaves_pending_entries_witness :
  let W := Examples.throwing in
  let s := Examples.queued [Examples.job 3; Examples.job 1; Examples.job 2] in
  exists s' s1 w rest l1 ev l2,
    flushSchedulerQueue W (exec W 9) 9 None s = Some (Thrown "boom"%string, s') /\
    log s1 = log s ++ l1 ++ ev :: l2 /\
    (ev = EvBefore w \/ ev = EvRun w) /\
    queue (resetSchedulerState W s1) = w :: rest.
Proof.
  intros W s.
  destruct (flushSchedulerQueue W (exec W 9) 9 None s) as [[[|e] s']|] eqn:Hfl;
    [vm_compute in Hfl; discriminate Hfl| |vm_compute in Hfl; discriminate Hfl].
  assert (e = "boom"%string) as -> by (vm_compute in Hfl; by injection Hfl as <- _).
  destruct (flush_exception_leaves_pending_entries W 9 None s s' "boom"%string
              eq_refl eq_refl Hfl)
    as (s1 & w & rest & l1 & ev & l2 & q & _ & Hl & Hev & _ & Hq & _).
  exists s', s1, w, rest, l1, ev, l2. split; [reflexivity|].
  split; [exact Hl|]. split; [exact Hev|exact Hq].
Defined.

(** A flush when nothing is queued (no watcher, no callback, no component
    to activate) calls no hook and runs nothing: it returns, having taken
    the timestamp and cleared [waiting], and the trace gets the devtools
    event at most.  Nothing is queued in the state it leaves either, so a
    further flush does nothing again. *)
Theorem flush_of_empty_queue_runs_nothing {Ext : Type} (W : World Ext)
    (run : list cmd -> State Ext -> Result Ext) (n : nat)
    (maxUpdateCount : option Z) (s : State Ext) :
  flushing s = false -> insideRun s = false ->
  queue s = [] -> afterFlushCallbacks s = [] -> activatedChildren s = [] ->
  exists s',
    flushSchedulerQueue W run (S n) maxUpdateCount s = Some (Returned, s') /\
    log s' = log s ++ (if devtools_enabled W then [EvDevtoolsFlush] else []) /\
    waiting s' = false /\ currentFlushTimestamp s' = getNow W (ext s) /\
    flushing s' = false /\ insideRun s' = false /\
    queue s' = [] /\ afterFlushCallbacks s' = [] /\ activatedChildren s' = [].
Proof.
  intros Hf Hi Hq Ha Hc.
  unfold flushSchedulerQueue, flush_protected. rewrite Hf, Hi.
  rewrite drain_done by (simpl; by rewrite ?Hq).
  destruct (flush_finally_spec W (flush_begin W s))
    as (s' & Hfin & Hq' & Hc' & _ & _ & Hw & Hf' & Hi' & _ & Ha' & Hl); [simpl; lia|].
  pose proof Hfin as (Ht & _)%flush_finally_heap; [|simpl; lia].
  rewrite Hfin. exists s'. split; [done|]. split.
  { rewrite Hl. simpl. rewrite Hc. reflexivity. }
  split; [done|]. split; [by rewrite Ht|]. split; [done|]. split; [by rewrite Hi'|].
  split; [rewrite Hq'; simpl; by rewrite Hq|]. split; [by rewrite Ha'|]. done.
Qed.

Lemma flush_of_empty_queue_runs_nothing_witness :
  let W := Examples.busy in
  let s := set_waiting true Examples.idle in
  exists s',
    forceFlush W (exec W 1) 1 None s = Some (Returned, s') /\
    log s' = log s /\ waiting s' = false.
Proof.
  intros W s.
  destruct (flush_of_empty_queue_runs_nothing W (exec W 1) 0%nat None s)
    as (s' & Hfl & Hl & Hw & _); try reflexivity.
  exists s'. split; [exact Hfl|]. split; [|exact Hw].
  rewrite Hl. reflexivity.
Defined.

(** ** Calls made while a flush is active *)

(** While a flush is active, no sequence of calls of the exported
    functions runs a watcher or calls a hook (the only collaborator called
    is [nextTick]), moves the cursor, changes a flag other than [waiting],
    a counter or the timestamp, removes an entry of the queue, or touches
    the entries up to the cursor. *)
Theorem calls_during_flush_disturb_nothing {Ext : Type} (W : World Ext) (fuel : nat)
    (cs : list cmd) (s s' : State Ext) (o : outcome) :
  flushing s = true ->
  exec W fuel cs s = Some (o, s') ->
  isFlushing s' = true /\ index s' = index s /\ insideRun s' = insideRun s /\
  circular s' = circular s /\ currentFlushTimestamp s' = currentFlushTimestamp s /\
  queue s `sublist_of` queue s' /\
  (forall i w, (i <= index s)%nat -> queue s !! i = Some w -> queue s' !! i = Some w) /\
  activatedChildren s `prefix_of` activatedChildren s' /\
  afterFlushCallbacks s `prefix_of` afterFlushCallbacks s' /\
  exists l, log s' = log s ++ l /\ Forall (fun e => e = EvNextTick) l.
Proof.
  intros Hf Hex.
  pose proof (exec_nested W _ _ _ _ _ Hf Hex) as [].
  pose proof (exec_steady W _ _ _ _ _ Hf Hex) as [].
  unfold isFlushing. repeat split; try done. congruence.
Qed.

Lemma calls_during_flush_disturb_nothing_witness :
  let W := Examples.busy in
  let s := set_index 1 (set_flushing true
             (Examples.queued [Examples.job 1; Examples.job 4; Examples.job 6])) in
  exists o s',
    exec W 9 [CQueueWatcher (Examples.job 5); CForceFlush None; CAfterFlush 0%nat] s
      = Some (o, s') /\
    isFlushing s' = true /\ index s' = 1%nat /\
    queue s !! 1%nat = Some (Examples.job 4) /\ queue s' !! 1%nat = Some (Examples.job 4).
Proof.
  intros W s.
  destruct (exec W 9 [CQueueWatcher (Examples.job 5); CForceFlush None; CAfterFlush 0%nat] s)
    as [[o s']|] eqn:Hex; [|vm_compute in Hex; discriminate Hex].
  destruct (calls_during_flush_disturb_nothing W 9 _ s s' o eq_refl Hex)
    as (Hf & Hi & _ & _ & _ & _ & Hl & _).
  exists o, s'. split; [reflexivity|]. split; [exact Hf|]. split; [exact Hi|].
  split; [reflexivity|]. apply Hl; [simpl; lia|reflexivity].
Defined.

(** ** Calls made inside a wrapped getter *)

Section Inside.
Context {Ext : Type} (W : World Ext).
Implicit Type s : State Ext.

(** What holds of a state reached from [s] by calls that run no flush. *)
Lemma flush_guard_inside run n m s :
  insideRun s = true ->
  exists e, flushSchedulerQueue W run n m s = Some (Thrown e, s).
Proof.
  intros Hi. unfold flushSchedulerQueue. rewrite Hi.
  destruct (flushing s); by eexists.
Qed.

Lemma exec_inside fuel cs s o s' :
  insideRun s = true -> exec W fuel cs s = Some (o, s') ->
  insideRun s' = true /\ flushing s' = flushing s /\ index s' = index s /\
  exists l, log s' = log s ++ l /\ Forall (fun e => e = EvNextTick) l.
Proof.
  revert cs s o s'. induction fuel as [|n IH]; intros cs s o s' Hi; [done|].
  simpl. destruct cs as [|c cs].
  { intros [= <- <-]. repeat split; try done. exists []. by rewrite app_nil_r. }
  assert (Hreq : forall t o1 t1, insideRun t = true ->
            requireFlush W (exec W n) n t = Some (o1, t1) ->
            insideRun t1 = true /\ flushing t1 = flushing t /\ index t1 = index t /\
            exists l, log t1 = log t ++ l /\ Forall (fun e => e = EvNextTick) l).
  { intros t o1 t1 Ht. unfold requireFlush. destruct (waiting t).
    - intros [= <- <-]. repeat split; try done. exists []. by rewrite app_nil_r.
    - destruct (negb (production W) && negb (config_async W)).
      + destruct (flush_guard_inside (exec W n) n None (set_waiting true t)) as [e ->];
          [done|].
        intros [= <- <-]. repeat split; try done. exists []. by rewrite app_nil_r.
      + intros [= <- <-]. repeat split; try done. exists [EvNextTick].
        by repeat constructor. }
  assert (Hcmd : forall o1 s1, exec_cmd W (exec W n) n c s = Some (o1, s1) ->
            insideRun s1 = true /\ flushing s1 = flushing s /\ index s1 = index s /\
            exists l, log s1 = log s ++ l /\ Forall (fun e => e = EvNextTick) l).
  { intros o1 s1. destruct c; simpl.
    - unfold queueWatcher. destruct (is_nullish _).
      + simpl. intros H.
        assert (exists q, requireFlush W (exec W n) n
                  (set_queue q (set_has (<[id w:=MTrue]> (has s)) s)) = Some (o1, s1))
          as [q Hq] by (destruct (flushing s); eauto).
        apply Hreq in Hq; [|done]. exact Hq.
      + intros [= <- <-]. repeat split; try done. exists []. by rewrite app_nil_r.
    - unfold afterFlush. by intros H%Hreq.
    - intros [= <- <-]. repeat split; try done. exists []. by rewrite app_nil_r.
    - unfold forceFlush.
      destruct (flush_guard_inside (exec W n) n maxUpdateCount s) as [e ->]; [done|].
      intros [= <- <-]. repeat split; try done. exists []. by rewrite app_nil_r.
    - unfold wrapWatcherGetter, invoke. simpl.
      destruct (fn_body W f (ext s)) as [e cs'].
      destruct (exec W n cs' _) as [[o2 s2]|] eqn:Hr; [|done].
      intros [= <- <-]. apply IH in Hr as (? & ? & ? & ?); [|done]. simpl in *.
      by repeat split.
    - intros [= <- <-]. repeat split; try done. exists []. by rewrite app_nil_r.
    - intros [= <- <-]. repeat split; try done. exists []. by rewrite app_nil_r. }
  destruct (exec_cmd W (exec W n) n c s) as [[o1 s1]|] eqn:Hc; [|done].
  destruct (Hcmd o1 s1 eq_refl) as (Hi1 & Hf1 & Hx1 & l1 & Hl1 & Ht1).
  destruct o1.
  - intros (? & ? & ? & l2 & Hl2 & Ht2)%IH; [|done].
    split; [done|]. split; [congruence|]. split; [congruence|].
    exists (l1 ++ l2). rewrite Hl2, Hl1, app_assoc. split; [done|by apply Forall_app].
  - intros [= <- <-]. repeat split; try done. by exists l1.
Qed.
End Inside.

(** While the function that [wrapWatcherGetter(f)] returns is running,
    every attempt to flush is refused: whatever [f] calls, no watcher runs
    and no hook is called (the only collaborator called is [nextTick]),
    and the cursor and [flushing] stay as they are.  When it returns or
    throws, [insideRun] is what it was before the call. *)
Theorem wrapped_getter_runs_no_watcher {Ext : Type} (W : World Ext) (fuel : nat)
    (f : Fn) (s s' : State Ext) (o : outcome) :
  wrapWatcherGetter W (exec W fuel) f s = Some (o, s') ->
  insideRun s' = insideRun s /\ isFlushing s' = isFlushing s /\ index s' = index s /\
  exists l, log s' = log s ++ l /\ Forall (fun e => e = EvNextTick) l.
Proof.
  unfold wrapWatcherGetter, invoke. simpl.
  destruct (fn_body W f (ext s)) as [e cs].
  destruct (exec W fuel cs _) as [[o1 s1]|] eqn:Hr; [|done].
  intros [= <- <-]. apply exec_inside in Hr as (? & ? & ? & ?); [|done].
  by repeat split.
Qed.

Lemma wrapped_getter_runs_no_watcher_witness :
  let W := Examples.eager_getter in
  exists o s',
    wrapWatcherGetter W (exec W 9) 0%nat Examples.idle = Some (o, s') /\
    o = Thrown running_a_watcher /\ queue s' = [Examples.job 7] /\
    insideRun s' = false /\ isFlushing s' = false /\ log s' = [].
Proof.
  intros W.
  destruct (wrapWatcherGetter W (exec W 9) 0%nat Examples.idle) as [[o s']|] eqn:Hw;
    [|vm_compute in Hw; discriminate Hw].
  destruct (wrapped_getter_runs_no_watcher W 9 0%nat Examples.idle s' o Hw)
    as (Hi & Hf & _ & _).
  exists o, s'. split; [reflexivity|].
  split; [vm_compute in Hw; by injection Hw as <- _|].
  split; [vm_compute in Hw; by injection Hw as _ <-|].
  split; [exact Hi|]. split; [exact Hf|].
  vm_compute in Hw. by injection Hw as _ <-.
Defined.

(** ** Queueing outside a flush *)

Section Batch.
Context {Ext : Type} (W : World Ext).
Implicit Type s : State Ext.
Hypothesis deferred : production W = true \/ config_async W = true.

Lemma batched_refl s : flushing s = false -> batched s s.
Proof.
  intros Hf. unfold batched. split_and!; try done.
  - destruct (waiting s); simpl; by rewrite app_nil_r.
  - by intros [?|?].
Qed.

Lemma batched_trans s1 s2 s3 : batched s1 s2 -> batched s2 s3 -> batched s1 s3.
Proof.
  intros (? & ? & ? & Hw2 & Hl2 & ? & ? & Hq2 & ?) (? & ? & ? & Hw3 & Hl3 & ? & ? & Hq3 & ?).
  unfold batched.
  split; [done|]. split; [congruence|]. split; [congruence|]. split; [auto|].
  split.
  - rewrite Hl3, Hl2, <-app_assoc. f_equal.
    destruct (waiting s1), (waiting s2), (waiting s3); simpl; try done;
      try (by specialize (Hw2 eq_refl)); by specialize (Hw3 eq_refl).
  - split; [by etrans|]. split; [by etrans|]. split; [|auto].
    intros Hne.
    destruct (decide (queue s2 = queue s1)) as [Eq|]; [|auto].
    destruct (decide (afterFlushCallbacks s2 = afterFlushCallbacks s1)) as [Ea|]; [|auto].
    apply Hq3. rewrite Eq, Ea. exact Hne.
Qed.

Lemma requireFlush_batched run n s :
  flushing s = false ->
  exists s', requireFlush W run n s = Some (Returned, s') /\ waiting s' = true /\
             batched s s'.
Proof.
  intros Hf. unfold requireFlush.
  replace (negb (production W) && negb (config_async W)) with false
    by (destruct deferred as [-> | ->]; by rewrite ?andb_false_r).
  destruct (waiting s) eqn:Hw.
  - exists s. split; [done|]. split; [done|]. by apply batched_refl.
  - eexists. split; [reflexivity|]. split; [done|].
    unfold batched. split_and!; simpl; try done. by rewrite Hw.
Qed.

Lemma exec_cmd_batched run n c s :
  flushing s = false -> enqueue_only c = true ->
  exists s', exec_cmd W run n c s = Some (Returned, s') /\ batched s s'.
Proof.
  intros Hf Hc. destruct c; try discriminate Hc; simpl.
  - unfold queueWatcher. destruct (is_nullish (has s !! id w)) eqn:Hn.
    + simpl. rewrite Hf.
      set (s1 := set_queue (queue s ++ [w]) (set_has (<[id w:=MTrue]> (has s)) s)).
      destruct (requireFlush_batched run n s1)
        as (s' & -> & Hw' & (? & ? & ? & ? & Hl & Hq & ? & _ & Hd)); [done|].
      exists s'. split; [done|]. unfold batched. split_and!; try done.
      * etrans; [|exact Hq]. by apply prefix_app_r.
      * intros Hdd. apply Hd. destruct Hdd as [Hnd Hiff]. split; simpl.
        -- rewrite fmap_app. simpl.
           apply NoDup_app. split; [done|]. split; [|apply NoDup_singleton].
           intros i Hi ->%list_elem_of_singleton. apply Hiff in Hi.
           by rewrite Hi in Hn.
        -- intros i. rewrite fmap_app, elem_of_app. simpl.
           destruct (decide (i = id w)) as [->|Hne].
           ++ rewrite lookup_insert_eq. split; [intros _; right; apply list_elem_of_here|done].
           ++ rewrite lookup_insert_ne by done. rewrite Hiff. split; [by left|].
              intros [?| ?%list_elem_of_singleton]; done.
    + exists s. split; [done|]. by apply batched_refl.
  - unfold afterFlush.
    set (s1 := set_afterFlushCallbacks (afterFlushCallbacks s ++ [f]) s).
    destruct (requireFlush_batched run n s1)
      as (s' & -> & Hw' & (? & ? & ? & ? & Hl & ? & Ha & _ & Hd)); [done|].
    exists s'. split; [done|]. unfold batched. split_and!; try done.
    etrans; [|exact Ha]. by apply prefix_app_r.
  - eexists. split; [reflexivity|]. unfold batched. split_and!; simpl; try done.
    + destruct (waiting s); simpl; by rewrite app_nil_r.
    + by intros [?|?].
  - eexists. split; [reflexivity|]. unfold batched. split_and!; simpl; try done.
    + destruct (waiting s); simpl; by rewrite app_nil_r.
    + by intros [?|?].
Qed.

Lemma exec_batched cs : forall s,
  flushing s = false -> Forall (fun c => enqueue_only c = true) cs ->
  exists s', batched s s' /\
    forall fuel, (length cs < fuel)%nat -> exec W fuel cs s = Some (Returned, s').
Proof.
  induction cs as [|c cs IH]; intros s Hf Hcs.
  - exists s. split; [by apply batched_refl|]. intros [|n] ?; [simpl in *; lia|done].
  - apply Forall_cons in Hcs as [Hc Hcs].
    assert (exists s1, batched s s1 /\
              forall run n, exec_cmd W run n c s = Some (Returned, s1))
      as (s1 & Hb1 & Hc1).
    { destruct (exec_cmd_batched (fun _ _ => None) 0 c s Hf Hc) as (s1 & Hs1 & Hb).
      exists s1. split; [done|]. intros run n.
      destruct (exec_cmd_batched run n c s Hf Hc) as (s1' & Hs1' & _).
      rewrite Hs1'. f_equal. f_equal.
      revert Hs1 Hs1'. destruct c; try discriminate Hc; simpl.
      - unfold queueWatcher, requireFlush. simpl.
        replace (negb (production W) && negb (config_async W)) with false
          by (destruct deferred as [-> | ->]; by rewrite ?andb_false_r).
        destruct (is_nullish _); rewrite ?Hf; simpl; destruct (waiting s); congruence.
      - unfold afterFlush, requireFlush. simpl.
        replace (negb (production W) && negb (config_async W)) with false
          by (destruct deferred as [-> | ->]; by rewrite ?andb_false_r).
        destruct (waiting s); congruence.
      - congruence.
      - congruence. }
    destruct (IH s1) as (s' & Hb' & Hex); [by destruct Hb1|done|].
    exists s'. split; [by eapply batched_trans|].
    intros [|n] Hlen; [simpl in *; lia|]. simpl. rewrite Hc1.
    apply Hex. simpl in Hlen. lia.
Qed.
End Batch.

(** In a build that defers the flush, any sequence of calls of
    [queueWatcher], [afterFlush] and [queueActivatedComponent] made
    outside a flush returns without running anything; it calls [nextTick]
    once if no flush was pending and one is now, and not at all otherwise;
    a flush is pending whenever a watcher or a callback was added; and the
    queue stays free of duplicate ids and in step with [has]. *)
Theorem queueing_outside_flush_requests_one_tick {Ext : Type} (W : World Ext)
    (cs : list cmd) (s : State Ext) :
  production W = true \/ config_async W = true ->
  flushing s = false ->
  Forall (fun c => enqueue_only c = true) cs ->
  exists s',
    (forall fuel, (length cs < fuel)%nat -> exec W fuel cs s = Some (Returned, s')) /\
    isFlushing s' = false /\
    (waiting s = true -> waiting s' = true) /\
    log s' = log s ++ (if negb (waiting s) && waiting s' then [EvNextTick] else []) /\
    queue s `prefix_of` queue s' /\
    afterFlushCallbacks s `prefix_of` afterFlushCallbacks s' /\
    (queue s' <> queue s \/ afterFlushCallbacks s' <> afterFlushCallbacks s ->
     waiting s' = true) /\
    (dedup_ok s -> dedup_ok s').
Proof.
  intros Hd Hf Hcs.
  destruct (exec_batched W Hd cs s Hf Hcs) as (s' & Hb & Hex).
  exists s'. split; [done|]. destruct Hb as (? & _ & _ & ? & ? & ? & ? & ? & ?).
  by split_and!.
Qed.

Lemma queueing_outside_flush_requests_one_tick_witness :
  let W := Examples.inert in
  let cs := [CQueueWatcher (Examples.job 3); CQueueWatcher (Examples.job 1);
             CQueueWatcher (Examples.job 3); CAfterFlush 0%nat;
             CQueueActivatedComponent 5%nat] in
  exists s',
    (forall fuel, (5 < fuel)%nat -> exec W fuel cs Examples.idle = Some (Returned, s')) /\
    log s' = [EvNextTick] /\ waiting s' = true /\
    queue s' = [Examples.job 3; Examples.job 1] /\ dedup_ok s'.
Proof.
  intros W cs.
  destruct (queueing_outside_flush_requests_one_tick W cs Examples.idle)
    as (s' & Hex & _ & _ & Hl & _ & _ & _ & Hd).
  - right. reflexivity.
  - reflexivity.
  - repeat constructor.
  - assert (Hs : exec W 6 cs Examples.idle = Some (Returned, s')) by (apply Hex; simpl; lia).
    vm_compute in Hs. injection Hs as <-.
    eexists. split; [exact Hex|]. split; [reflexivity|]. split; [reflexivity|].
    split; [reflexivity|]. apply Hd. split.
    + constructor.
    + intros i. simpl. rewrite lookup_empty. split; [done|]. by intros ?%elem_of_nil.
Defined.

(** ** A build that does not defer the flush *)

(** In a development build with [config.async] off, [queueWatcher] and
    [afterFlush], called while no flush is active or pending, flush before
    they return: with quiet watchers and callbacks, the watcher runs with
    the rest of the queue, in ascending order of id, the callback is
    called, and nothing is left queued or pending. *)
Theorem synchronous_build_flushes_at_once {Ext : Type} (W : World Ext)
    (s : State Ext) :
  production W = false -> config_async W = false ->
  flushing s = false -> insideRun s = false -> waiting s = false ->
  (forall x, x ∈ queue s -> quiet_watcher W x) ->
  (forall f, f ∈ afterFlushCallbacks s -> quiet_fn W f) ->
  (forall w, is_nullish (has s !! id w) = true -> quiet_watcher W w ->
     exists fuel0 s' l,
       log s' = log s ++ l /\ runs l = sort_queue (queue s ++ [w]) /\
       queue s' = [] /\ waiting s' = false /\
       forall fuel, (fuel0 <= fuel)%nat ->
         queueWatcher W (exec W fuel) fuel w s = Some (Returned, s')) /\
  (forall f, quiet_fn W f ->
     exists fuel0 s' l,
       log s' = log s ++ l /\ runs l = sort_queue (queue s) /\
       f ∈ callbacks l /\ afterFlushCallbacks s' = [] /\ waiting s' = false /\
       forall fuel, (fuel0 <= fuel)%nat ->
         afterFlush W (exec W fuel) fuel f s = Some (Returned, s')).
Proof.
  intros Hp Ha Hf Hi Hw Hq Hcb. split.
  - intros w Hn Hqw.
    set (s2 := set_waiting true
                 (set_queue (queue s ++ [w]) (set_has (<[id w:=MTrue]> (has s)) s))).
    destruct (flush_quiet W None s2)
      as (fuel0 & s' & l & Hl & Hr & _ & Hq' & _ & _ & Hw' & Hfl); [done|done| |done|].
    { simpl. intros x [Hx| ->%list_elem_of_singleton]%elem_of_app; auto. }
    exists fuel0, s', l. split; [done|]. split; [done|]. split; [done|]. split; [done|].
    intros fuel Hfuel. unfold queueWatcher. rewrite Hn. simpl. rewrite Hf.
    unfold requireFlush. simpl. rewrite Hw, Hp, Ha. simpl. by apply Hfl.
  - intros f Hqf.
    set (s2 := set_waiting true
                 (set_afterFlushCallbacks (afterFlushCallbacks s ++ [f]) s)).
    destruct (flush_quiet W None s2)
      as (fuel0 & s' & l & Hl & Hr & _ & _ & _ & _ & Hw' & Hfl); [done|done|done| |].
    { simpl. intros x [Hx| ->%list_elem_of_singleton]%elem_of_app; auto. }
    pose proof (Hfl fuel0 (le_n _)) as Hfl0.
    unfold flushSchedulerQueue in Hfl0. simpl in Hfl0. rewrite Hf, Hi in Hfl0.
    apply flush_protected_kept in Hfl0
      as (s1 & Hk & _ & Hret & _ & _ & Hcb' & Hlog); [|done].
    destruct Hk as [_ _ _ _ (l1 & extra & Hl1 & _ & Hc & _) _].
    destruct (Hret eq_refl) as [_ Ha1]. rewrite Ha1, app_nil_r in Hc.
    change (log (flush_begin W s2)) with (log s) in Hl1.
    change (afterFlushCallbacks (flush_begin W s2))
      with (afterFlushCallbacks s ++ [f]) in Hc.
    assert (Hll : l = l1 ++ activated_events (activatedChildren s1)
                    ++ updated_events s1 (queue s1) (index s1)
                    ++ (if devtools_enabled W then [EvDevtoolsFlush] else [])).
    { change (log s2) with (log s) in Hl. rewrite Hlog, Hl1, <-app_assoc in Hl.
      by apply app_inv_head in Hl. }
    exists fuel0, s', l. split; [done|]. split; [done|]. split.
    { rewrite Hll, callbacks_app, Hc. apply elem_of_app. left.
      apply elem_of_app. left. apply elem_of_app. right. apply list_elem_of_here. }
    split; [by rewrite Hcb'|]. split; [done|].
    intros fuel Hfuel. unfold afterFlush, requireFlush. simpl.
    rewrite Hw, Hp, Ha. simpl. by apply Hfl.
Qed.

Lemma synchronous_build_flushes_at_once_witness :
  let W := Examples.development_sync in
  (exists fuel0 s' l,
     log s' = l /\ runs l = [Examples.job 4] /\ queue s' = [] /\ waiting s' = false /\
     forall fuel, (fuel0 <= fuel)%nat ->
       queueWatcher W (exec W fuel) fuel (Examples.job 4) Examples.idle
         = Some (Returned, s')) /\
  (exists fuel0 s' l,
     log s' = l /\ 3%nat ∈ callbacks l /\ afterFlushCallbacks s' = [] /\
     forall fuel, (fuel0 <= fuel)%nat ->
       afterFlush W (exec W fuel) fuel 3%nat Examples.idle = Some (Returned, s')).
Proof.
  intros W.
  destruct (synchronous_build_flushes_at_once W Examples.idle) as [H1 H2];
    try reflexivity.
  - intros x Hx. by apply elem_of_nil in Hx.
  - intros f Hx. by apply elem_of_nil in Hx.
  - split.
    + destruct (H1 (Examples.job 4)) as (fuel0 & s' & l & Hl & Hr & Hq & Hw & Hfl).
      * reflexivity.
      * split; [|exact I]. intros e. constructor.
      * exists fuel0, s', l. repeat split; assumption.
    + destruct (H2 3%nat) as (fuel0 & s' & l & Hl & _ & Hc & Ha & _ & Hfl).
      * intros e. constructor.
      * exists fuel0, s', l. repeat split; assumption.
Defined.

(** ** A callback that queues a watcher *)

Section QuietPartial.
Context {Ext : Type} (W : World Ext).
Implicit Type s : State Ext.

Lemma exec_quiet_calm fuel : forall cs s o s',
  Forall (fun c => quiet_cmd c = true) cs ->
  exec W fuel cs s = Some (o, s') -> o = Returned /\ calm s s'.
Proof.
  induction fuel as [|n IH]; intros cs s o s' Hq; [done|]. simpl.
  destruct cs as [|c cs]; [intros [= <- <-]; by split|].
  apply Forall_cons in Hq as [Hc Hq].
  assert (exists s1, exec_cmd W (exec W n) n c s = Some (Returned, s1) /\ calm s s1)
    as (s1 & -> & Hc1).
  { destruct c; try discriminate Hc; eexists; (split; [reflexivity|]); by split. }
  intros [-> Hc2]%IH; [|done]. split; [done|by eapply calm_trans].
Qed.

Lemma invoke_quiet_calm m f s o s' :
  quiet_script f -> invoke (exec W m) f s = Some (o, s') -> o = Returned /\ calm s s'.
Proof.
  intros Hq. unfold invoke. specialize (Hq (ext s)).
  destruct (f (ext s)) as [e cs]. simpl in Hq.
  intros [-> []]%exec_quiet_calm; [|done]. split; [done|by split].
Qed.

(** An id that is not marked in [has] is not marked after a pass of quiet
    watchers, and the pass calls no callback. *)
Lemma scan_quiet_has m n limit i : forall s o s',
  (forall w, w ∈ drop (index s) (queue s) -> quiet_watcher W w) ->
  scan W (exec W m) n limit s = Some (o, s') ->
  (is_nullish (has s !! i) = true -> is_nullish (has s' !! i) = true) /\
  exists l, log s' = log s ++ l /\ callbacks l = [].
Proof.
  induction n as [|n IH]; intros s o s' Hq; [done|]. simpl.
  destruct (queue s !! index s) as [w|] eqn:Hw.
  2:{ intros [= _ <-]. split; [done|]. exists []. by rewrite app_nil_r. }
  assert (Hwq : quiet_watcher W w).
  { apply Hq. apply list_elem_of_lookup. exists 0%nat.
    by rewrite lookup_drop, Nat.add_0_r. }
  destruct (call_before W (exec W m) w s) as [[o1 s1]|] eqn:Hb; [|done].
  assert (o1 = Returned /\ queue s1 = queue s /\ index s1 = index s /\ has s1 = has s
          /\ exists l1, log s1 = log s ++ l1 /\ callbacks l1 = [])
    as (-> & Q1 & X1 & H1 & l1 & L1 & C1).
  { revert Hb. unfold call_before. destruct Hwq as [_ Hbq].
    destruct (watcher_before W w) as [f|].
    - intros [-> []]%invoke_quiet_calm; [|done]. repeat split; try done.
      by exists [EvBefore w].
    - intros [= <- <-]. repeat split; try done. exists []. by rewrite app_nil_r. }
  destruct (invoke (exec W m) (watcher_run W w) _) as [[o3 s3]|] eqn:Hr; [|done].
  apply invoke_quiet_calm in Hr as [-> []]; [|by destruct Hwq]. simpl in *.
  assert (Hnull : is_nullish (has s3 !! id w) = true).
  { rewrite calm_has0. by rewrite lookup_insert_eq. }
  rewrite Hnull, andb_false_r. intros H. apply IH in H as (Hn' & l & Hl & Hc); simpl.
  - split.
    + intros Hn. apply Hn'. simpl. rewrite calm_has0, H1.
      destruct (decide (id w = i)) as [->|].
      * by rewrite lookup_insert_eq.
      * by rewrite lookup_insert_ne.
    + exists (l1 ++ EvRun w :: l). simpl in Hl.
      rewrite Hl, calm_log0, L1, <-!app_assoc. split; [done|].
      rewrite callbacks_app, C1. exact Hc.
  - rewrite calm_queue0, calm_index0, Q1, X1. intros x Hx. apply Hq.
    rewrite (drop_S _ _ _ Hw). by apply list_elem_of_further.
Qed.

(** One turn of the outer loop that calls a callback. *)
Lemma drain_callback_step run n limit s s1 func rest s3 :
  scan W run n limit s = Some (Returned, s1) ->
  afterFlushCallbacks s <> [] ->
  afterFlushCallbacks s1 = func :: rest ->
  invoke run (fn_body W func)
    (emit (EvCallback func) (set_afterFlushCallbacks rest s1)) = Some (Returned, s3) ->
  drain W run (S n) limit s = drain W run n limit s3.
Proof.
  intros Hs Hne Ha Hr. simpl.
  rewrite (bool_decide_eq_true_2 (afterFlushCallbacks s ≠ [])) by done.
  by rewrite orb_true_r, Hs, Ha, Hr.
Qed.
End QuietPartial.

(** A watcher queued by an after-flush callback runs in the same flush:
    with quiet watchers in the queue and one callback pending that queues
    a quiet watcher [w] not marked in [has], the flush runs the queue in
    ascending order of id, then calls the callback, then runs [w], and
    returns with nothing left. *)
Theorem callback_queued_watcher_runs_in_same_flush {Ext : Type} (W : World Ext)
    (maxUpdateCount : option Z) (f : Fn) (w : Watcher) (s : State Ext) :
  flushing s = false -> insideRun s = false -> waiting s = true ->
  (forall x, x ∈ queue s -> quiet_watcher W x) ->
  afterFlushCallbacks s = [f] ->
  (forall e, fn_body W f e = (e, [CQueueWatcher w])) ->
  quiet_watcher W w ->
  is_nullish (has s !! id w) = true ->
  exists fuel0 s' l1 l2,
    log s' = log s ++ l1 ++ EvCallback f :: l2 /\
    runs l1 = sort_queue (queue s) /\ callbacks l1 = [] /\
    runs l2 = [w] /\ callbacks l2 = [] /\
    queue s' = [] /\ afterFlushCallbacks s' = [] /\
    forall fuel, (fuel0 <= fuel)%nat ->
      flushSchedulerQueue W (exec W fuel) fuel maxUpdateCount s = Some (Returned, s').
Proof.
  intros Hf Hi Hw Hq Ha Hbody Hwq Hn.
  set (limit := effective_limit maxUpdateCount).
  set (sb := flush_begin W s).
  assert (Hqb : forall x, x ∈ drop (index sb) (queue sb) -> quiet_watcher W x).
  { simpl. intros x Hx. apply Hq. by rewrite <-(sort_queue_perm (queue s)). }
  destruct (scan_quiet W limit _ sb eq_refl) as
    (n1 & s1 & l1 & Q1 & X1 & A1 & F1 & I1 & W1 & L1 & R1 & _ & E1); [simpl; lia|done|].
  destruct (scan_quiet_has W n1 n1 limit (id w) sb Returned s1 Hqb)
    as (Hn1 & l1' & L1' & C1); [by apply E1|]. specialize (Hn1 Hn).
  assert (l1' = l1) as -> by (rewrite L1 in L1'; by apply app_inv_head in L1').
  clear L1'.
  set (s2 := emit (EvCallback f) (set_afterFlushCallbacks [] s1)).
  set (s3 := set_queue (queue s1 ++ [w]) (set_has (<[id w:=MTrue]> (has s1)) s2)).
  assert (E3 : forall m, (2 <= m)%nat ->
            invoke (exec W m) (fn_body W f) s2 = Some (Returned, s3)).
  { intros [|[|m]] Hm; [lia|lia|]. unfold invoke. rewrite Hbody. simpl.
    unfold queueWatcher. simpl. rewrite Hn1. simpl. rewrite F1.
    change (flushing sb) with true. cbv iota.
    destruct (splice_position_spec (queue s1) (index s1) (id w) (length (queue s1)))
      as (Hp1 & Hp2 & _); [lia|].
    replace (splice_position (queue s1) (index s1) (id w) (length (queue s1)))
      with (length (queue s1)) by (rewrite X1, <-Q1 in *; lia).
    unfold splice_in. rewrite firstn_all, drop_all.
    unfold requireFlush. simpl. rewrite W1.
    change (waiting sb) with (waiting s). rewrite Hw.
    unfold s3, s2. by destruct s1. }
  assert (Hq3 : forall x, x ∈ drop (index s3) (queue s3) -> quiet_watcher W x).
  { simpl. rewrite X1, <-Q1, drop_app_length. by intros x ->%list_elem_of_singleton. }
  destruct (scan_quiet W limit 1 s3) as
    (n5 & s5 & l5 & Q5 & X5 & A5 & F5 & I5 & W5 & L5 & R5 & _ & E5); [| |done|].
  { simpl. rewrite X1, Q1, length_app. simpl. lia. }
  { simpl. rewrite X1, Q1, length_app. lia. }
  destruct (scan_quiet_has W (S n5) (S n5) limit (id w) s3 Returned s5 Hq3)
    as (_ & l5' & L5' & C5); [apply E5; lia|].
  assert (l5' = l5) as -> by (rewrite L5 in L5'; by apply app_inv_head in L5').
  clear L5'.
  assert (R5' : runs l5 = [w]).
  { rewrite R5. simpl. by rewrite X1, <-Q1, drop_app_length. }
  assert (X5' : (index s5 <= length (queue s5))%nat) by (rewrite X5, Q5; lia).
  destruct (flush_finally_spec W s5 X5') as
    (s' & Efin & Qf & _ & _ & _ & _ & _ & _ & _ & Af & Lf).
  set (tail := activated_events (activatedChildren s5)
                ++ updated_events (resetSchedulerState W s5) (queue s5) (index s5)
                ++ (if devtools_enabled W then [EvDevtoolsFlush] else [])) in Lf.
  assert (Rt : runs tail = []).
  { unfold tail. rewrite !runs_app, runs_activated_events, runs_updated_events.
    by destruct (devtools_enabled W). }
  assert (Ct : callbacks tail = []).
  { unfold tail.
    rewrite !callbacks_app, callbacks_activated_events, callbacks_updated_events.
    by destruct (devtools_enabled W). }
  exists (S (S (S (n1 + n5)))), s', l1, (l5 ++ tail).
  split; [rewrite Lf, L5; simpl; rewrite L1; simpl; by rewrite <-!app_assoc|].
  split; [by rewrite R1|].
  split; [done|].
  split; [by rewrite runs_app, R5', Rt|].
  split; [by rewrite callbacks_app, C5, Ct|].
  split; [rewrite Qf, X5, Q5; apply drop_all|].
  split; [by rewrite Af, A5|].
  intros [|[|[|k]]] Hk; [lia|lia|lia|].
  unfold flushSchedulerQueue, flush_protected. rewrite Hf, Hi.
  fold sb. fold limit.
  rewrite (drain_callback_step W (exec W (S (S (S k)))) (S (S k)) limit sb s1 f [] s3).
  - rewrite (drain_one_scan W (exec W (S (S (S k)))) k limit s3 s5).
    + by rewrite Efin.
    + simpl. rewrite X1, Q1, length_app. simpl. lia.
    + apply E5; lia.
    + by rewrite X5, Q5.
    + by rewrite A5.
  - apply E1; lia.
  - simpl. by rewrite Ha.
  - rewrite A1. simpl. exact Ha.
  - apply E3. lia.
Qed.

Lemma callback_queued_watcher_runs_in_same_flush_witness :
  let W := Examples.requeueing_callback in
  let s := set_afterFlushCallbacks [0%nat]
             (Examples.queued [Examples.job 3; Examples.job 1]) in
  exists fuel0 s' l1 l2,
    log s' = log s ++ l1 ++ EvCallback 0%nat :: l2 /\
    runs l1 = [Examples.job 1; Examples.job 3] /\
    runs l2 = [Examples.job 2] /\
    forall fuel, (fuel0 <= fuel)%nat ->
      flushSchedulerQueue W (exec W fuel) fuel None s = Some (Returned, s').
Proof.
  intros W s.
  destruct (callback_queued_watcher_runs_in_same_flush W None 0%nat (Examples.job 2) s)
    as (fuel0 & s' & l1 & l2 & Hl & H1 & _ & H2 & _ & _ & _ & Hfl).
  - reflexivity.
  - reflexivity.
  - reflexivity.
  - intros x _. split; [|exact I]. intros e. constructor.
  - reflexivity.
  - intros e. reflexivity.
  - split; [|exact I]. intros e. constructor.
  - vm_compute. reflexivity.
  - exists fuel0, s', l1, l2. repeat split; assumption.
Defined.

(** ** Watchers that queue each other *)

Section Mutual.
Context {Ext : Type} (W : World Ext).
Variables a b : Watcher.
Hypothesis distinct : id a <> id b.
Hypothesis a_before : watcher_before W a = None.
Hypothesis b_before : watcher_before W b = None.
Hypothesis a_run : forall e, watcher_run W a e = (e, [CQueueWatcher b]).
Hypothesis b_run : forall e, watcher_run W b e = (e, [CQueueWatcher a]).

(** With one of the two watchers as the last entry, at the cursor, the
    pass over the queue does not end. *)
Lemma scan_mutual m limit : forall n x y (s : State Ext),
  (x = a /\ y = b) \/ (x = b /\ y = a) ->
  flushing s = true -> waiting s = true ->
  queue s !! index s = Some x -> length (queue s) = S (index s) ->
  is_nullish (has s !! id y) = true ->
  scan W (exec W m) n limit s = None.
Proof.
  induction n as [|n IH]; intros x y s Hxy Hf Hw Hx Hlen Hy; [done|].
  assert (Hne : id x <> id y) by (destruct Hxy as [[-> ->]|[-> ->]]; congruence).
  assert (Hb : watcher_before W x = None) by (by destruct Hxy as [[-> _]|[-> _]]).
  assert (Hr : forall e, watcher_run W x e = (e, [CQueueWatcher y])).
  { destruct Hxy as [[-> ->]|[-> ->]]; done. }
  simpl. rewrite Hx. unfold call_before. rewrite Hb. unfold invoke. rewrite Hr.
  destruct m as [|m]; [done|]. simpl.
  unfold queueWatcher. simpl. rewrite lookup_insert_ne by done. rewrite Hy, Hf.
  destruct (splice_position_spec (queue s) (index s) (id y) (length (queue s)))
    as (Hp1 & Hp2 & _); [lia|].
  replace (splice_position (queue s) (index s) (id y) (length (queue s)))
    with (length (queue s)) by lia.
  unfold splice_in. rewrite firstn_all, drop_all.
  unfold requireFlush. simpl. rewrite Hw.
  destruct m as [|m]; [done|]. simpl.
  rewrite lookup_insert_ne by done. rewrite lookup_insert_eq. simpl.
  rewrite andb_false_r.
  apply (IH y x); simpl.
  - destruct Hxy as [[-> ->]|[-> ->]]; auto.
  - done.
  - done.
  - rewrite <-Hlen. by rewrite lookup_app_r, Nat.sub_diag.
  - rewrite length_app. simpl. lia.
  - rewrite lookup_insert_ne by done. by rewrite lookup_insert_eq.
Qed.
End Mutual.

(** The update limit counts only the runs in which a watcher queued
    itself again.  Two watchers of which each queues the other when run
    are never counted: a flush that starts with one of them queued does
    not end, in a development build either.  (No bound on the number of
    steps lets it return or throw.) *)
Theorem mutual_requeue_is_not_limited {Ext : Type} (W : World Ext)
    (maxUpdateCount : option Z) (a b : Watcher) (s : State Ext) :
  id a <> id b ->
  watcher_before W a = None -> watcher_before W b = None ->
  (forall e, watcher_run W a e = (e, [CQueueWatcher b])) ->
  (forall e, watcher_run W b e = (e, [CQueueWatcher a])) ->
  flushing s = false -> insideRun s = false -> waiting s = true ->
  queue s = [a] -> is_nullish (has s !! id b) = true ->
  forall fuel,
    flushSchedulerQueue W (exec W fuel) fuel maxUpdateCount s = None.
Proof.
  intros Hne Ha Hb Har Hbr Hf Hi Hw Hq Hn fuel.
  unfold flushSchedulerQueue, flush_protected. rewrite Hf, Hi.
  destruct fuel as [|n]; [done|].
  assert (Hs : scan W (exec W (S n)) n (effective_limit maxUpdateCount)
                 (flush_begin W s) = None).
  { apply (scan_mutual W a b Hne Ha Hb Har Hbr (S n) _ n a b); simpl;
      rewrite ?Hq; auto. }
  cbn [drain].
  rewrite (bool_decide_eq_true_2 (length (queue (flush_begin W s)) ≠ _))
    by (simpl; by rewrite Hq).
  by rewrite orb_true_l, Hs.
Qed.

Lemma mutual_requeue_is_not_limited_witness :
  let W := Examples.mutual in
  flushSchedulerQueue W (exec W 1000) 1000 None (Examples.queued [Examples.job 1])
    = None.
Proof.
  intros W.
  apply (mutual_requeue_is_not_limited W None (Examples.job 1) (Examples.job 2)).
  - simpl. lia.
  - reflexivity.
  - reflexivity.
  - intros e. reflexivity.
  - intros e. reflexivity.
  - reflexivity.
  - reflexivity.
  - reflexivity.
  - reflexivity.
  - vm_compute. reflexivity.
Defined.

(** ** Entries waiting behind the cursor *)

Section Pending.
Context {Ext : Type} (W : World Ext).
Implicit Type s : State Ext.

Lemma pending_ok_frame k s s' :
  queue s' = queue s -> has s' = has s -> pending_ok k s -> pending_ok k s'.
Proof. unfold pending_ok. by intros -> ->. Qed.

Lemma requireFlush_frame run n s o s' :
  flushing s = true -> requireFlush W run n s = Some (o, s') ->
  queue s' = queue s /\ has s' = has s.
Proof.
  intros Hf. unfold requireFlush. destruct (waiting s); [by intros [= <- <-]|].
  destruct (negb (production W) && negb (config_async W)).
  - rewrite flush_guard_flushing by done. by intros [= <- <-].
  - by intros [= <- <-].
Qed.

(** Splicing in a watcher whose id is not marked. *)
Lemma splice_pending k p w s :
  (k <= p <= length (queue s))%nat ->
  is_nullish (has s !! id w) = true ->
  pending_ok k s ->
  pending_ok k (set_queue (splice_in p w (queue s))
                  (set_has (<[id w:=MTrue]> (has s)) s)).
Proof.
  intros Hp Hn [Hnd Hm]. unfold pending_ok, splice_in. simpl.
  assert (Hd : drop k (queue s) = drop k (take p (queue s)) ++ drop p (queue s)).
  { rewrite <-(take_drop p (queue s)) at 1.
    apply drop_app_le. rewrite length_take. lia. }
  rewrite drop_app_le by (rewrite length_take; lia).
  assert (Hfresh : id w ∉ id <$> drop k (queue s)).
  { intros (x & Hx & Hin)%list_elem_of_fmap. apply Hm in Hin.
    rewrite Hx, Hin in Hn. done. }
  split.
  - rewrite Hd in Hnd, Hfresh. rewrite fmap_app in *. simpl.
    apply NoDup_app in Hnd as (H1 & H2 & H3).
    apply NoDup_app. split; [done|]. split.
    + intros x Hx [->|Hx']%elem_of_cons; [|by eapply H2].
      apply Hfresh. apply elem_of_app. by left.
    + constructor; [|done]. intros Hx. apply Hfresh. apply elem_of_app. by right.
  - intros x Hx.
    assert (Hx' : x = w \/ x ∈ drop k (queue s)).
    { rewrite Hd. apply elem_of_app in Hx as [Hx|[->|Hx]%elem_of_cons]; auto.
      - right. apply elem_of_app. by left.
      - right. apply elem_of_app. by right. }
    destruct (decide (id x = id w)) as [->|Hne]; [by rewrite lookup_insert_eq|].
    rewrite lookup_insert_ne by done. destruct Hx' as [->|Hx']; [done|]. by apply Hm.
Qed.

Lemma exec_cmd_pending run n c k s o s' :
  (forall cs s o s', flushing s = true ->
     (k <= S (index s))%nat -> (k <= length (queue s))%nat -> pending_ok k s ->
     run cs s = Some (o, s') -> pending_ok k s') ->
  flushing s = true ->
  (k <= S (index s))%nat -> (k <= length (queue s))%nat -> pending_ok k s ->
  exec_cmd W run n c s = Some (o, s') -> pending_ok k s'.
Proof.
  intros Hrun Hf Hk1 Hk2 Hp. destruct c; simpl.
  - unfold queueWatcher. destruct (is_nullish _) eqn:Hn; [|by intros [= <- <-]].
    simpl. rewrite Hf. intros [Hq Hh]%requireFlush_frame; [|done].
    eapply pending_ok_frame; [exact Hq|exact Hh|].
    apply splice_pending; [|done|done].
    destruct (splice_position_spec (queue s) (index s) (id w) (length (queue s)))
      as (H1 & H2 & _); [lia|]. lia.
  - unfold afterFlush. intros [Hq Hh]%requireFlush_frame; [|done].
    by eapply pending_ok_frame.
  - by intros [= <- <-].
  - unfold forceFlush. rewrite flush_guard_flushing by done. by intros [= <- <-].
  - unfold wrapWatcherGetter, invoke. simpl.
    destruct (fn_body W f (ext s)) as [e cs].
    destruct (run cs _) as [[o1 s1]|] eqn:Hr; [|done].
    intros [= <- <-]. apply Hrun in Hr; done.
  - by intros [= <- <-].
  - by intros [= <- <-].
Qed.

Lemma exec_pending fuel k : forall cs s o s',
  flushing s = true ->
  (k <= S (index s))%nat -> (k <= length (queue s))%nat -> pending_ok k s ->
  exec W fuel cs s = Some (o, s') -> pending_ok k s'.
Proof.
  induction fuel as [|n IH]; intros cs s o s' Hf Hk1 Hk2 Hp; [done|].
  simpl. destruct cs as [|c cs]; [by intros [= <- <-]|].
  destruct (exec_cmd W (exec W n) n c s) as [[o1 s1]|] eqn:Hc; [|done].
  pose proof (exec_cmd_nested W _ _ _ _ _ _ (exec_nested W n) Hf Hc) as [].
  apply exec_cmd_pending with (k := k) in Hc; try done.
  destruct o1.
  - apply IH; [congruence|lia|lia|done].
  - by intros [= <- <-].
Qed.

Lemma invoke_pending m k f s o s' :
  flushing s = true ->
  (k <= S (index s))%nat -> (k <= length (queue s))%nat -> pending_ok k s ->
  invoke (exec W m) f s = Some (o, s') -> pending_ok k s'.
Proof.
  unfold invoke. destruct (f (ext s)) as [e cs]. intros Hf Hk1 Hk2 Hp.
  by apply exec_pending.
Qed.

Lemma pending_ok_end k s : (length (queue s) <= k)%nat -> pending_ok k s.
Proof.
  intros Hk. unfold pending_ok. rewrite drop_ge by done. split; [constructor|].
  intros w Hw. by apply elem_of_nil in Hw.
Qed.

(** When the entry at position [k] is unmarked, the entries behind it are
    in order from [S k] on. *)
Lemma pending_ok_next k w s :
  queue s !! k = Some w -> pending_ok k s ->
  pending_ok (S k) (set_has (<[id w:=MNull]> (has s)) s).
Proof.
  intros Hw [Hnd Hm]. unfold pending_ok. simpl.
  rewrite (drop_S _ _ _ Hw) in Hnd, Hm. simpl in Hnd.
  apply NoDup_cons in Hnd as [Hfresh Hnd]. split; [done|].
  intros x Hx. rewrite lookup_insert_ne.
  - apply Hm. by apply list_elem_of_further.
  - intros Heq. apply Hfresh. rewrite Heq. by apply list_elem_of_fmap_2.
Qed.

(** The pass over the queue keeps the entries from the cursor on in
    order; when it throws, those behind the cursor. *)
Lemma scan_pending m limit : forall n s o s',
  flushing s = true -> (index s <= length (queue s))%nat -> pending_ok (index s) s ->
  scan W (exec W m) n limit s = Some (o, s') ->
  flushing s' = true /\ (index s' <= length (queue s'))%nat /\
  match o with
  | Returned => pending_ok (index s') s'
  | Thrown _ => NoDup (id <$> drop (S (index s')) (queue s'))
  end.
Proof.
  induction n as [|n IH]; intros s o s' Hf Hi Hp; [done|]. simpl.
  destruct (queue s !! index s) as [w|] eqn:Hw; [|by intros [= <- <-]].
  assert (Hlt : (index s < length (queue s))%nat) by (by eapply lookup_lt_Some).
  destruct (call_before W (exec W m) w s) as [[o1 s1]|] eqn:Hb; [|done].
  pose proof (call_before_nested W _ (exec_nested W m) _ _ _ _ Hf Hb) as N1.
  assert (P1 : pending_ok (index s) s1).
  { revert Hb. unfold call_before. destruct (watcher_before W w).
    - apply invoke_pending; simpl; try done; lia.
    - by intros [= <- <-]. }
  assert (Hw1 : queue s1 !! index s = Some w).
  { destruct N1. by apply nested_lookup0. }
  assert (F1 : flushing s1 = true) by (destruct N1; congruence).
  assert (X1 : index s1 = index s) by (by destruct N1).
  assert (Hlt1 : (index s < length (queue s1))%nat) by (by eapply lookup_lt_Some).
  destruct o1; last first.
  { intros [= <- <-]. split; [done|]. split; [lia|]. rewrite X1.
    destruct P1 as [P1 _]. rewrite (drop_S _ _ _ Hw1) in P1.
    by apply NoDup_cons in P1 as []. }
  set (s2 := emit (EvRun w) (set_has (<[id w:=MNull]> (has s1)) s1)).
  destruct (invoke (exec W m) (watcher_run W w) s2) as [[o3 s3]|] eqn:Hr; [|done].
  assert (F2 : flushing s2 = true) by done.
  pose proof (invoke_nested _ (exec_nested W m) _ _ _ _ F2 Hr) as N3.
  assert (P3 : pending_ok (S (index s)) s3).
  { eapply invoke_pending; [exact F2| | | |exact Hr]; simpl; try lia.
    by apply (pending_ok_next (index s) w s1). }
  assert (F3 : flushing s3 = true) by (destruct N3; congruence).
  assert (X3 : index s3 = index s) by (destruct N3; simpl in *; congruence).
  assert (Hlt3 : (index s < length (queue s3))%nat).
  { destruct N3. simpl in *. lia. }
  destruct o3; last first.
  { intros [= <- <-]. split; [done|]. split; [lia|]. rewrite X3. by destruct P3. }
  destruct (negb (production W) && negb (is_nullish (has s3 !! id w))).
  - destruct (_ <? _)%Z.
    + intros [= <- <-]. simpl. split; [done|]. split; [lia|].
      by apply pending_ok_end.
    + apply IH; simpl; try done; [lia|]. rewrite X3. exact P3.
  - apply IH; simpl; try done; [lia|]. rewrite X3. exact P3.
Qed.

Lemma drain_pending m limit : forall n s o s',
  flushing s = true -> (index s <= length (queue s))%nat -> pending_ok (index s) s ->
  drain W (exec W m) n limit s = Some (o, s') ->
  match o with
  | Returned => pending_ok (index s') s'
  | Thrown _ => NoDup (id <$> drop (S (index s')) (queue s'))
  end.
Proof.
  induction n as [|n IH]; intros s o s' Hf Hi Hp; [done|]. simpl.
  destruct (_ || _); [|by intros [= <- <-]].
  destruct (scan W (exec W m) n limit s) as [[o1 s1]|] eqn:Hs; [|done].
  apply scan_pending in Hs as (F1 & X1 & P1); try done.
  destruct o1; [|by intros [= <- <-]].
  destruct (afterFlushCallbacks s1) as [|func rest]; [by apply IH|].
  set (s2 := emit (EvCallback func) (set_afterFlushCallbacks rest s1)).
  destruct (invoke (exec W m) (fn_body W func) s2) as [[o3 s3]|] eqn:Hr; [|done].
  assert (F2 : flushing s2 = true) by done.
  pose proof (invoke_nested _ (exec_nested W m) _ _ _ _ F2 Hr) as N3.
  assert (P3 : pending_ok (index s1) s3).
  { eapply invoke_pending; [exact F2| | | |exact Hr]; simpl; try done; lia. }
  assert (F3 : flushing s3 = true) by (destruct N3; congruence).
  assert (X3 : index s3 = index s1) by (destruct N3; simpl in *; congruence).
  assert (Hle3 : (index s1 <= length (queue s3))%nat).
  { destruct N3. simpl in *. lia. }
  destruct o3; apply IH; simpl; try done; try lia; by rewrite X3.
Qed.
End Pending.

(** The state that queueing watchers of distinct ids leaves. *)
Lemma queued_dedup_ok (ws : list Watcher) :
  NoDup (id <$> ws) -> dedup_ok (Examples.queued ws).
Proof.
  intros Hnd. split; [done|]. intros i. simpl.
  rewrite <-elem_of_list_to_map by (by rewrite <-list_fmap_compose).
  rewrite !list_elem_of_fmap. split.
  - intros (w & [= ->] & Hw). by exists w.
  - intros (w & -> & Hw). by exists w.
Qed.

(** While a flush is active, no sequence of calls puts an id twice among
    the entries that wait behind the cursor: if the entries from position
    [k] on (the cursor or, while a watcher runs, the position behind it)
    have distinct ids and are marked in [has], they still are after the
    calls.  A watcher that is waiting is not queued a second time. *)
Theorem calls_during_flush_keep_pending_unique {Ext : Type} (W : World Ext)
    (fuel : nat) (cs : list cmd) (k : nat) (s s' : State Ext) (o : outcome) :
  flushing s = true ->
  (k <= S (index s))%nat -> (k <= length (queue s))%nat ->
  pending_ok k s ->
  exec W fuel cs s = Some (o, s') ->
  pending_ok k s'.
Proof. apply exec_pending. Qed.

Lemma calls_during_flush_keep_pending_unique_witness :
  let W := Examples.inert in
  let s := set_index 1 (set_flushing true
             (Examples.queued [Examples.job 1; Examples.job 4; Examples.job 6])) in
  exists o s',
    exec W 9 [CQueueWatcher (Examples.job 6); CQueueWatcher (Examples.job 5);
              CQueueWatcher (Examples.job 5)] s = Some (o, s') /\
    queue s' = [Examples.job 1; Examples.job 4; Examples.job 5; Examples.job 6] /\
    pending_ok 2 s'.
Proof.
  intros W s.
  destruct (exec W 9 [CQueueWatcher (Examples.job 6); CQueueWatcher (Examples.job 5);
                      CQueueWatcher (Examples.job 5)] s)
    as [[o s']|] eqn:Hex; [|vm_compute in Hex; discriminate Hex].
  exists o, s'. split; [reflexivity|].
  split; [vm_compute in Hex; by injection Hex as _ <-|].
  refine (calls_during_flush_keep_pending_unique W 9 _ 2 s s' o eq_refl _ _ _ Hex).
  - simpl. lia.
  - simpl. lia.
  - split; simpl.
    + apply NoDup_singleton.
    + intros w ->%list_elem_of_singleton. reflexivity.
Defined.

(** When a flush of a queue without duplicate ids throws, the entries
    left in the queue behind the one that threw have distinct ids. *)
Theorem flush_exception_leaves_distinct_entries {Ext : Type} (W : World Ext)
    (fuel : nat) (maxUpdateCount : option Z) (s s' : State Ext) (e : string) :
  flushing s = false -> insideRun s = false ->
  dedup_ok s ->
  flushSchedulerQueue W (exec W fuel) fuel maxUpdateCount s = Some (Thrown e, s') ->
  exists w rest, queue s' = w :: rest /\ NoDup (id <$> rest).
Proof.
  intros Hf Hi [Hnd Hm] Hfl.
  unfold flushSchedulerQueue in Hfl. rewrite Hf, Hi in Hfl.
  apply flush_protected_spec in Hfl as (s1 & Hd & _ & _ & _ & Hq & _); [|done].
  assert (Hk : kept W (Thrown e) (flush_begin W s) s1).
  { eapply (drain_kept W _ (exec_nested W fuel) (exec_steady W fuel)); [|exact Hd].
    done. }
  destruct (kept_cursor _ _ _ _ Hk) as [w Hw]; [done|].
  exists w, (drop (S (index s1)) (queue s1)).
  split; [rewrite Hq; by apply drop_S|].
  apply drain_pending in Hd; simpl; try done; try lia.
  unfold pending_ok. simpl. rewrite (sort_queue_perm (queue s)). split; [done|].
  intros x Hx. apply Hm. apply list_elem_of_fmap_2.
  by rewrite <-(sort_queue_perm (queue s)).
Qed.

Lemma flush_exception_leaves_distinct_entries_witness :
  let W := Examples.throwing in
  let s := Examples.queued [Examples.job 3; Examples.job 1; Examples.job 2] in
  exists s' w rest,
    flushSchedulerQueue W (exec W 9) 9 None s = Some (Thrown "boom"%string, s') /\
    queue s' = w :: rest /\ NoDup (id <$> rest).
Proof.
  intros W s.
  destruct (flushSchedulerQueue W (exec W 9) 9 None s) as [[[|e] s']|] eqn:Hfl;
    [vm_compute in Hfl; discriminate Hfl| |vm_compute in Hfl; discriminate Hfl].
  assert (e = "boom"%string) as -> by (vm_compute in Hfl; by injection Hfl as <- _).
  destruct (flush_exception_leaves_distinct_entries W 9 None s s' "boom"%string)
    as (w & rest & H); [reflexivity|reflexivity| |exact Hfl|].
  - apply queued_dedup_ok. apply (bool_decide_unpack _). vm_compute. reflexivity.
  - exists s', w, rest. split; [reflexivity|exact H].
Defined.

(** ** Watchers that post work, callbacks that may throw *)

Lemma registered_app cs1 cs2 : registered (cs1 ++ cs2) = registered cs1 ++ registered cs2.
Proof. apply omap_app. Qed.

Lemma activated_app cs1 cs2 : activated (cs1 ++ cs2) = activated cs1 ++ activated cs2.
Proof. apply omap_app. Qed.

Lemma performed_posting cs :
  Forall (fun c => posting_cmd c = true) cs -> performed cs = cs /\ thrown cs = None.
Proof.
  induction 1 as [|c cs Hc _ [IH1 IH2]]; [done|].
  destruct c; try discriminate Hc; simpl; by rewrite IH1, IH2.
Qed.

Lemma runs_run_events q : runs (EvRun <$> q) = q.
Proof. induction q as [|w q IH]; [done|]. simpl. by rewrite <-IH at 2. Qed.

Lemma callbacks_run_events q : callbacks (EvRun <$> q) = [].
Proof. by induction q. Qed.

Lemma reported_run_events q : reported (EvRun <$> q) = [].
Proof. by induction q. Qed.

Lemma activations_run_events q : activations (EvRun <$> q) = [].
Proof. by induction q. Qed.

Lemma reported_activated_events q : reported (activated_events q) = [].
Proof. by induction q. Qed.

Lemma reported_updated_events {Ext : Type} (s : State Ext) q i :
  reported (updated_events s q i) = [].
Proof. unfold updated_events. by induction (filter _ _). Qed.

(** The trace of the callbacks. *)
Lemma callback_events_trace (body : Fn -> list cmd) (cbs : list Fn) :
  let l := concat ((fun f => callback_events f (body f)) <$> cbs) in
  runs l = [] /\ callbacks l = cbs /\ activations l = [] /\
  reported l = omap (fun f => (fun e => (e, callback_error_info)) <$> thrown (body f)) cbs.
Proof.
  induction cbs as [|f cbs (IH1 & IH2 & IH3 & IH4)]; [done|].
  cbv zeta. rewrite fmap_cons, concat_cons.
  rewrite runs_app, callbacks_app, activations_app, reported_app, IH1, IH2, IH3, IH4.
  unfold callback_events.
  destruct (thrown (body f)) eqn:Ht; simpl; rewrite ?Ht; done.
Qed.

Section Scripted.
Context {Ext : Type} (W : World Ext).
Implicit Type s : State Ext.

Lemma set_ext_same s : set_ext (ext s) s = s.
Proof. by destruct s. Qed.

(** A script of posting calls and throws, run while a flush is pending. *)
Lemma exec_posted : forall cs s,
  waiting s = true ->
  Forall (fun c => posting_cmd c || plain_cmd c = true) cs ->
  exists s', posted (performed cs) s s' /\
    forall fuel, (length cs < fuel)%nat -> exec W fuel cs s = Some (ending cs, s').
Proof.
  induction cs as [|c cs IH]; intros s Hw Hcs.
  - exists s. split.
    + split; try done; simpl; by rewrite app_nil_r.
    + intros [|n] ?; [simpl in *; lia|done].
  - apply Forall_cons in Hcs as [Hc Hcs].
    destruct c as [w|f|c|m|f|c v|e]; try discriminate Hc.
    + set (s1 := set_afterFlushCallbacks (afterFlushCallbacks s ++ [f]) s).
      destruct (IH s1 Hw Hcs) as (s' & [] & Hex).
      exists s'. split.
      * split; simpl in *; try congruence.
        by rewrite posted_callbacks0, <-app_assoc.
      * intros [|n] Hlen; [simpl in *; lia|]. simpl.
        unfold afterFlush, requireFlush. simpl. rewrite Hw.
        apply Hex. simpl in Hlen. lia.
    + set (s1 := queueActivatedComponent c s).
      destruct (IH s1 Hw Hcs) as (s' & [] & Hex).
      exists s'. split.
      * split; simpl in *; try congruence.
        by rewrite posted_activated0, <-app_assoc.
      * intros [|n] Hlen; [simpl in *; lia|]. simpl.
        apply Hex. simpl in Hlen. lia.
    + set (s1 := set_vm c v s).
      destruct (IH s1 Hw Hcs) as (s' & [] & Hex).
      exists s'. split.
      * split; simpl in *; congruence.
      * intros [|n] Hlen; [simpl in *; lia|]. simpl.
        apply Hex. simpl in Hlen. lia.
    + exists s. split.
      * split; try done; simpl; by rewrite app_nil_r.
      * intros [|n] Hlen; [simpl in *; lia|]. done.
Qed.

Variable script : Watcher -> list cmd.
Variable body : Fn -> list cmd.

(** The pass over the queue, when the watchers left have no [before] and
    their [run] posts: each runs, in queue order, and what they post is
    appended. *)
Lemma scan_posting limit k : forall s,
  (length (queue s) - index s = k)%nat ->
  (index s <= length (queue s))%nat ->
  waiting s = true ->
  (forall w, w ∈ drop (index s) (queue s) ->
     watcher_before W w = None /\
     (forall e, watcher_run W w e = (e, script w)) /\
     Forall (fun c => posting_cmd c = true) (script w)) ->
  exists n0 s',
    queue s' = queue s /\ index s' = length (queue s) /\
    waiting s' = true /\ flushing s' = flushing s /\ insideRun s' = insideRun s /\
    afterFlushCallbacks s' = afterFlushCallbacks s
      ++ concat ((fun w => registered (script w)) <$> drop (index s) (queue s)) /\
    activatedChildren s' = activatedChildren s
      ++ concat ((fun w => activated (script w)) <$> drop (index s) (queue s)) /\
    log s' = log s ++ (EvRun <$> drop (index s) (queue s)) /\
    forall m n, (n0 <= m)%nat -> (n0 <= n)%nat ->
      scan W (exec W m) n limit s = Some (Returned, s').
Proof.
  induction k as [|k IH]; intros s Hk Hle Hw Hq.
  - exists 1%nat, s. rewrite drop_ge by lia. simpl. rewrite !app_nil_r.
    repeat split; try done; [lia|].
    intros m [|n] _ Hn; [lia|]. simpl.
    by rewrite (proj2 (lookup_ge_None _ _)) by lia.
  - destruct (lookup_lt_is_Some_2 (queue s) (index s)) as [w Hlk]; [lia|].
    destruct (Hq w) as (Hb & Hr & Hp).
    { apply list_elem_of_lookup. exists 0%nat. by rewrite lookup_drop, Nat.add_0_r. }
    set (s2 := emit (EvRun w) (set_has (<[id w:=MNull]> (has s)) s)).
    destruct (exec_posted (script w) s2) as (s3 & P3 & E3); [done| |].
    { eapply Forall_impl; [exact Hp|]. simpl. by intros c ->. }
    destruct (performed_posting _ Hp) as [Hperf Hthr].
    rewrite Hperf in P3. destruct P3. simpl in *.
    set (s4 := set_index (S (index s3)) s3).
    destruct (IH s4) as (n5 & s5 & Q5 & X5 & W5 & F5 & I5 & A5 & C5 & L5 & E5).
    { simpl. rewrite posted_queue0, posted_index0. lia. }
    { simpl. rewrite posted_queue0, posted_index0. lia. }
    { simpl. congruence. }
    { simpl. rewrite posted_queue0, posted_index0. intros x Hx. apply Hq.
      rewrite (drop_S _ _ _ Hlk). by apply list_elem_of_further. }
    simpl in *. rewrite posted_queue0, posted_index0 in *.
    exists (S (Nat.max (S (length (script w))) n5)), s5.
    rewrite (drop_S _ _ _ Hlk). simpl.
    split; [done|]. split; [done|]. split; [done|].
    split; [congruence|]. split; [congruence|].
    split; [rewrite A5, posted_callbacks0; by rewrite <-app_assoc|].
    split; [rewrite C5, posted_activated0; by rewrite <-app_assoc|].
    split; [rewrite L5, posted_log0; by rewrite <-app_assoc|].
    intros m [|n] Hm Hn; [lia|]. simpl. rewrite Hlk.
    unfold call_before. rewrite Hb. unfold invoke. rewrite Hr.
    change (set_ext (ext s) (emit (EvRun w) (set_has (<[id w:=MNull]> (has s)) s)))
      with (set_ext (ext s2) s2).
    rewrite set_ext_same, E3 by lia.
    unfold ending. rewrite Hthr.
    assert (Hnull : is_nullish (has s3 !! id w) = true).
    { rewrite posted_has0. by rewrite lookup_insert_eq. }
    rewrite Hnull, andb_false_r. apply E5; lia.
Qed.

(** The callbacks, when the cursor is at the end of the queue and their
    bodies register nothing and queue no watcher: each is called, in
    order, and what it throws is passed to [handleError]. *)
Lemma drain_plain limit : forall cbs s,
  afterFlushCallbacks s = cbs ->
  index s = length (queue s) ->
  waiting s = true ->
  (forall f, f ∈ cbs ->
     (forall e, fn_body W f e = (e, body f)) /\
     Forall (fun c => plain_cmd c = true) (body f)) ->
  exists n0 s',
    queue s' = queue s /\ index s' = index s /\
    flushing s' = flushing s /\ insideRun s' = insideRun s /\
    afterFlushCallbacks s' = [] /\
    activatedChildren s' = activatedChildren s
      ++ concat ((fun f => activated (performed (body f))) <$> cbs) /\
    log s' = log s ++ concat ((fun f => callback_events f (body f)) <$> cbs) /\
    forall m n, (n0 <= m)%nat -> (n0 <= n)%nat ->
      drain W (exec W m) n limit s = Some (Returned, s').
Proof.
  induction cbs as [|func rest IH]; intros s Hcbs Hi Hw Hf.
  - exists 1%nat, s. simpl. rewrite !app_nil_r. repeat split; try done.
    intros m [|n] _ Hn; [lia|]. by apply drain_done.
  - destruct (Hf func) as [Hbody Hplain]; [apply list_elem_of_here|].
    set (s2 := emit (EvCallback func) (set_afterFlushCallbacks rest s)).
    destruct (exec_posted (body func) s2) as (s3 & P3 & E3); [done| |].
    { eapply Forall_impl; [exact Hplain|]. simpl. intros c ->. apply orb_true_r. }
    assert (Hreg : registered (performed (body func)) = []).
    { clear -Hplain. induction Hplain as [|c cs Hc _ IH]; [done|].
      destruct c; try discriminate Hc; done. }
    destruct P3. rewrite Hreg, app_nil_r in posted_callbacks0. simpl in *.
    set (s4 := match thrown (body func) with
               | Some e => emit (EvHandleError e callback_error_info) s3
               | None => s3
               end).
    assert (H4 : queue s4 = queue s /\ index s4 = index s /\ waiting s4 = true /\
                 flushing s4 = flushing s /\ insideRun s4 = insideRun s /\
                 afterFlushCallbacks s4 = rest /\
                 activatedChildren s4 = activatedChildren s
                   ++ activated (performed (body func)) /\
                 log s4 = log s ++ callback_events func (body func)).
    { unfold s4, callback_events. destruct (thrown (body func)); simpl;
        rewrite ?posted_log0, <-?app_assoc; repeat split; congruence. }
    destruct H4 as (Q4 & X4 & W4 & F4 & I4 & A4 & C4 & L4).
    destruct (IH s4) as (n5 & s5 & Q5 & X5 & F5 & I5 & A5 & C5 & L5 & E5).
    { done. }
    { congruence. }
    { done. }
    { intros f ?. by apply Hf, list_elem_of_further. }
    exists (S (S (Nat.max (S (length (body func))) n5))), s5. simpl.
    split; [congruence|]. split; [congruence|]. split; [congruence|].
    split; [congruence|]. split; [done|].
    split; [rewrite C5, C4; by rewrite <-app_assoc|].
    split; [rewrite L5, L4; by rewrite <-app_assoc|].
    intros m [|n] Hm Hn; [lia|]. simpl.
    rewrite Hcbs. rewrite (bool_decide_eq_true_2 (func :: rest ≠ [])) by done.
    rewrite orb_true_r.
    destruct n as [|n]; [lia|].
    assert (Hs : scan W (exec W m) (S n) limit s = Some (Returned, s)).
    { simpl. by rewrite (proj2 (lookup_ge_None _ _)) by lia. }
    rewrite Hs, Hcbs. fold s2. unfold invoke. rewrite Hbody.
    change (ext s) with (ext s2). rewrite set_ext_same, E3 by lia.
    unfold ending. unfold s4 in E5.
    destruct (thrown (body func)); apply E5; lia.
Qed.

Lemma drain_S run limit n s :
  drain W run (S n) limit s =
  if bool_decide (length (queue s) ≠ index s)
     || bool_decide (afterFlushCallbacks s ≠ [])
  then match scan W run n limit s with
       | Some (Returned, s1) =>
           match afterFlushCallbacks s1 with
           | [] => drain W run n limit s1
           | func :: rest =>
               let s2 := emit (EvCallback func) (set_afterFlushCallbacks rest s1) in
               match invoke run (fn_body W func) s2 with
               | Some (Returned, s3) => drain W run n limit s3
               | Some (Thrown e, s3) =>
                   drain W run n limit (emit (EvHandleError e callback_error_info) s3)
               | None => None
               end
           end
       | r => r
       end
  else Some (Returned, s).
Proof. reflexivity. Qed.

(** A pass over the queue that returns with the cursor at the end,
    followed by the rest of the loop. *)
Lemma drain_after_scan run limit n s s1 s2 :
  scan W run n limit s = Some (Returned, s1) ->
  index s1 = length (queue s1) ->
  drain W run n limit s1 = Some (Returned, s2) ->
  drain W run (S n) limit s1 = Some (Returned, s2) ->
  drain W run (S n) limit s = Some (Returned, s2).
Proof.
  intros Hs Hi Hd Hd'. rewrite drain_S in Hd' |- *.
  assert (Hs1 : scan W run n limit s1 = Some (Returned, s1)).
  { destruct n as [|n]; [done|]. simpl.
    by rewrite (proj2 (lookup_ge_None _ _)) by lia. }
  rewrite Hs1 in Hd'. rewrite Hs.
  destruct (bool_decide (length (queue s) ≠ index s)
            || bool_decide (afterFlushCallbacks s ≠ [])) eqn:Hc.
  - destruct (afterFlushCallbacks s1) as [|func rest] eqn:Ha; [exact Hd|].
    rewrite (bool_decide_eq_true_2 (func :: rest ≠ [])) in Hd' by done.
    by rewrite orb_true_r in Hd'.
  - apply orb_false_iff in Hc as [Hc1%bool_decide_eq_false Hc2%bool_decide_eq_false].
    apply dec_stable in Hc1. apply dec_stable in Hc2.
    assert (Hs0 : scan W run n limit s = Some (Returned, s)).
    { destruct n as [|n]; [done|]. simpl.
      by rewrite (proj2 (lookup_ge_None _ _)) by lia. }
    rewrite Hs0 in Hs. injection Hs as <-.
    rewrite Hc2, <-Hc1 in Hd'.
    rewrite bool_decide_eq_false_2 in Hd' by (intros H; by apply H).
    by rewrite bool_decide_eq_false_2 in Hd' by (intros H; by apply H).
Qed.

(** The whole flush of such a program. *)
Lemma flush_scripted (m : option Z) s :
  flushing s = false -> insideRun s = false -> waiting s = true ->
  (forall w, w ∈ queue s ->
     watcher_before W w = None /\
     (forall e, watcher_run W w e = (e, script w)) /\
     Forall (fun c => posting_cmd c = true) (script w)) ->
  let q := sort_queue (queue s) in
  let cbs := afterFlushCallbacks s ++ concat ((fun w => registered (script w)) <$> q) in
  (forall f, f ∈ cbs ->
     (forall e, fn_body W f e = (e, body f)) /\
     Forall (fun c => plain_cmd c = true) (body f)) ->
  exists fuel0 s' l,
    log s' = log s ++ l /\
    runs l = q /\ callbacks l = cbs /\
    reported l
      = omap (fun f => (fun e => (e, callback_error_info)) <$> thrown (body f)) cbs /\
    activations l
      = activatedChildren s ++ concat ((fun w => activated (script w)) <$> q)
          ++ concat ((fun f => activated (performed (body f))) <$> cbs) /\
    queue s' = [] /\ afterFlushCallbacks s' = [] /\
    forall fuel, (fuel0 <= fuel)%nat ->
      flushSchedulerQueue W (exec W fuel) fuel m s = Some (Returned, s').
Proof.
  intros Hf Hi Hw Hq q cbs Hcb.
  set (limit := effective_limit m).
  set (sb := flush_begin W s).
  destruct (scan_posting limit _ sb eq_refl)
    as (n1 & s1 & Q1 & X1 & W1 & F1 & I1 & A1 & C1 & L1 & E1); [simpl; lia|done| |].
  { simpl. intros w Hx. apply Hq. by rewrite <-(sort_queue_perm (queue s)). }
  simpl in Q1, X1, F1, I1, A1, C1, L1. fold q in Q1, X1, A1, C1, L1. fold cbs in A1.
  destruct (drain_plain limit cbs s1 A1)
    as (n2 & s2 & Q2 & X2 & F2 & I2 & A2 & C2 & L2 & E2); [congruence|done|done|].
  destruct (flush_finally_spec W s2) as
    (s' & Efin & Qf & _ & _ & _ & _ & _ & _ & _ & Af & Lf);
    [rewrite X2, X1, Q2, Q1; lia|].
  set (tail := activated_events (activatedChildren s2)
                ++ updated_events (resetSchedulerState W s2) (queue s2) (index s2)
                ++ (if devtools_enabled W then [EvDevtoolsFlush] else [])) in Lf.
  destruct (callback_events_trace body cbs) as (T1 & T2 & T3 & T4).
  exists (S (S (Nat.max n1 n2))), s',
    ((EvRun <$> q) ++ concat ((fun f => callback_events f (body f)) <$> cbs) ++ tail).
  split; [rewrite Lf, L2, L1; by rewrite <-!app_assoc|].
  split.
  { unfold tail.
    rewrite !runs_app, runs_run_events, T1, runs_activated_events, runs_updated_events.
    destruct (devtools_enabled W); simpl; by rewrite app_nil_r. }
  split.
  { unfold tail.
    rewrite !callbacks_app, callbacks_run_events, T2, callbacks_activated_events,
      callbacks_updated_events.
    destruct (devtools_enabled W); simpl; by rewrite app_nil_r. }
  split.
  { unfold tail.
    rewrite !reported_app, reported_run_events, T4, reported_activated_events,
      reported_updated_events.
    destruct (devtools_enabled W); simpl; by rewrite app_nil_r. }
  split.
  { unfold tail.
    rewrite !activations_app, activations_run_events, T3, activations_activated_events,
      activations_updated_events.
    destruct (devtools_enabled W); simpl; rewrite app_nil_r, C2, C1;
      by rewrite <-app_assoc. }
  split; [rewrite Qf, X2, X1, Q2, Q1; apply drop_all|].
  split; [by rewrite Af|].
  intros [|n] Hn; [lia|].
  unfold flushSchedulerQueue, flush_protected. rewrite Hf, Hi.
  fold sb. fold limit.
  rewrite (drain_after_scan (exec W (S n)) limit n sb s1 s2).
  - by rewrite Efin.
  - apply E1; lia.
  - congruence.
  - apply E2; lia.
  - apply E2; lia.
Qed.
End Scripted.

(** ** What a flush does with the work posted to it *)

(** A flush gives the activated hook to every component queued for
    activation, once each and in the order queued: first those queued
    before the flush, then those that the watchers queue during their
    runs, then those that the callbacks queue (a callback that throws:
    up to its throw).  This holds of a pending flush whose watchers have
    no [before] and, in [run], call [afterFlush], [queueActivatedComponent]
    or write to a component, and whose callbacks queue components, write
    to components or throw; such a flush returns.  (The hooks are
    collaborators: the trace records that they are called, and what they
    do is not part of the statement.) *)
Theorem flush_activates_queued_components {Ext : Type} (W : World Ext)
    (maxUpdateCount : option Z) (script : Watcher -> list cmd)
    (body : Fn -> list cmd) (s : State Ext) :
  flushing s = false -> insideRun s = false -> waiting s = true ->
  (forall w, w ∈ queue s ->
     watcher_before W w = None /\
     (forall e, watcher_run W w e = (e, script w)) /\
     Forall (fun c => posting_cmd c = true) (script w)) ->
  let q := sort_queue (queue s) in
  let cbs := afterFlushCallbacks s ++ concat ((fun w => registered (script w)) <$> q) in
  (forall f, f ∈ cbs ->
     (forall e, fn_body W f e = (e, body f)) /\
     Forall (fun c => plain_cmd c = true) (body f)) ->
  exists fuel0 s' l,
    log s' = log s ++ l /\
    activations l
      = activatedChildren s ++ concat ((fun w => activated (script w)) <$> q)
          ++ concat ((fun f => activated (performed (body f))) <$> cbs) /\
    forall fuel, (fuel0 <= fuel)%nat ->
      flushSchedulerQueue W (exec W fuel) fuel maxUpdateCount s = Some (Returned, s').
Proof.
  intros Hf Hi Hw Hq q cbs Hcb.
  destruct (flush_scripted W script body maxUpdateCount s Hf Hi Hw Hq Hcb)
    as (fuel0 & s' & l & Hl & _ & _ & _ & Ha & _ & _ & Hfl).
  by exists fuel0, s', l.
Qed.

Lemma flush_activates_queued_components_witness :
  let W := Examples.posting in
  let s := Examples.posting_start in
  exists fuel0 s' l,
    log s' = log s ++ l /\
    activations l = [5; 7; 8; 9]%nat /\
    forall fuel, (fuel0 <= fuel)%nat ->
      flushSchedulerQueue W (exec W fuel) fuel None s = Some (Returned, s').
Proof.
  intros W s.
  destruct (flush_activates_queued_components W None
              Examples.posting_script Examples.posting_body s)
    as (fuel0 & s' & l & Hl & Ha & Hfl).
  - reflexivity.
  - reflexivity.
  - reflexivity.
  - intros w _. split; [reflexivity|]. split; [intros e; reflexivity|].
    unfold Examples.posting_script.
    destruct (id w =? 1)%Z; [repeat constructor|].
    destruct (id w =? 2)%Z; repeat constructor.
  - intros f _. split; [intros e; reflexivity|].
    destruct f as [|[|f]]; repeat constructor.
  - exists fuel0, s', l. split; [exact Hl|]. split; [|exact Hfl].
    rewrite Ha. reflexivity.
Defined.

(** No after-flush callback is lost or called twice: a flush calls, once
    each and in the order registered, the callbacks pending at its start
    and then those that the watchers register during their runs, and none
    is pending when it returns.  This holds of a pending flush whose
    watchers have no [before] and, in [run], call [afterFlush],
    [queueActivatedComponent] or write to a component, and whose callbacks
    queue components, write to components or throw. *)
Theorem flush_calls_each_callback_once {Ext : Type} (W : World Ext)
    (maxUpdateCount : option Z) (script : Watcher -> list cmd)
    (body : Fn -> list cmd) (s : State Ext) :
  flushing s = false -> insideRun s = false -> waiting s = true ->
  (forall w, w ∈ queue s ->
     watcher_before W w = None /\
     (forall e, watcher_run W w e = (e, script w)) /\
     Forall (fun c => posting_cmd c = true) (script w)) ->
  let q := sort_queue (queue s) in
  let cbs := afterFlushCallbacks s ++ concat ((fun w => registered (script w)) <$> q) in
  (forall f, f ∈ cbs ->
     (forall e, fn_body W f e = (e, body f)) /\
     Forall (fun c => plain_cmd c = true) (body f)) ->
  exists fuel0 s' l,
    log s' = log s ++ l /\
    runs l = q /\ callbacks l = cbs /\ afterFlushCallbacks s' = [] /\
    forall fuel, (fuel0 <= fuel)%nat ->
      flushSchedulerQueue W (exec W fuel) fuel maxUpdateCount s = Some (Returned, s').
Proof.
  intros Hf Hi Hw Hq q cbs Hcb.
  destruct (flush_scripted W script body maxUpdateCount s Hf Hi Hw Hq Hcb)
    as (fuel0 & s' & l & Hl & Hr & Hc & _ & _ & _ & Ha & Hfl).
  by exists fuel0, s', l.
Qed.

Lemma flush_calls_each_callback_once_witness :
  let W := Examples.posting in
  let s := Examples.posting_start in
  exists fuel0 s' l,
    log s' = log s ++ l /\
    runs l = [Examples.job 1; Examples.job 2] /\
    callbacks l = [1; 0; 2]%nat /\
    forall fuel, (fuel0 <= fuel)%nat ->
      flushSchedulerQueue W (exec W fuel) fuel None s = Some (Returned, s').
Proof.
  intros W s.
  destruct (flush_calls_each_callback_once W None
              Examples.posting_script Examples.posting_body s)
    as (fuel0 & s' & l & Hl & Hr & Hc & _ & Hfl).
  - reflexivity.
  - reflexivity.
  - reflexivity.
  - intros w _. split; [reflexivity|]. split; [intros e; reflexivity|].
    unfold Examples.posting_script.
    destruct (id w =? 1)%Z; [repeat constructor|].
    destruct (id w =? 2)%Z; repeat constructor.
  - intros f _. split; [intros e; reflexivity|].
    destruct f as [|[|f]]; repeat constructor.
  - exists fuel0, s', l. split; [exact Hl|].
    split; [rewrite Hr; reflexivity|]. split; [rewrite Hc; reflexivity|exact Hfl].
Defined.

(** What an after-flush callback throws never leaves the flush: the flush
    passes it to [handleError], with the text for callback errors, goes on
    to call the callbacks that remain, and returns.  The errors reported
    are, in order, what the callbacks called throw.  This holds of a
    pending flush whose watchers have no [before] and, in [run], call
    [afterFlush], [queueActivatedComponent] or write to a component, and
    whose callbacks queue components, write to components or throw. *)
Theorem callback_exception_never_escapes {Ext : Type} (W : World Ext)
    (maxUpdateCount : option Z) (script : Watcher -> list cmd)
    (body : Fn -> list cmd) (s : State Ext) :
  flushing s = false -> insideRun s = false -> waiting s = true ->
  (forall w, w ∈ queue s ->
     watcher_before W w = None /\
     (forall e, watcher_run W w e = (e, script w)) /\
     Forall (fun c => posting_cmd c = true) (script w)) ->
  let q := sort_queue (queue s) in
  let cbs := afterFlushCallbacks s ++ concat ((fun w => registered (script w)) <$> q) in
  (forall f, f ∈ cbs ->
     (forall e, fn_body W f e = (e, body f)) /\
     Forall (fun c => plain_cmd c = true) (body f)) ->
  exists fuel0 s' l,
    log s' = log s ++ l /\
    callbacks l = cbs /\
    reported l
      = omap (fun f => (fun e => (e, callback_error_info)) <$> thrown (body f)) cbs /\
    forall fuel, (fuel0 <= fuel)%nat ->
      flushSchedulerQueue W (exec W fuel) fuel maxUpdateCount s = Some (Returned, s').
Proof.
  intros Hf Hi Hw Hq q cbs Hcb.
  destruct (flush_scripted W script body maxUpdateCount s Hf Hi Hw Hq Hcb)
    as (fuel0 & s' & l & Hl & _ & Hc & Hr & _ & _ & _ & Hfl).
  by exists fuel0, s', l.
Qed.

Lemma callback_exception_never_escapes_witness :
  let W := Examples.posting in
  let s := Examples.posting_start in
  exists fuel0 s' l,
    log s' = log s ++ l /\
    callbacks l = [1; 0; 2]%nat /\
    reported l = [("first"%string, callback_error_info);
                  ("late"%string, callback_error_info)] /\
    forall fuel, (fuel0 <= fuel)%nat ->
      flushSchedulerQueue W (exec W fuel) fuel None s = Some (Returned, s').
Proof.
  intros W s.
  destruct (callback_exception_never_escapes W None
              Examples.posting_script Examples.posting_body s)
    as (fuel0 & s' & l & Hl & Hc & Hr & Hfl).
  - reflexivity.
  - reflexivity.
  - reflexivity.
  - intros w _. split; [reflexivity|]. split; [intros e; reflexivity|].
    unfold Examples.posting_script.
    destruct (id w =? 1)%Z; [repeat constructor|].
    destruct (id w =? 2)%Z; repeat constructor.
  - intros f _. split; [intros e; reflexivity|].
    destruct f as [|[|f]]; repeat constructor.
  - exists fuel0, s', l. split; [exact Hl|].
    split; [rewrite Hc; reflexivity|]. split; [rewrite Hr; reflexivity|exact Hfl].
Defined.
